(** * FairnessOptimizer: a shallow embedding of the selection / adjustment engine

    The development follows the Python sources module by module:

    - [Py]: the fragments of Python, NumPy and pandas the engine relies on
      (exceptions, floats, [max]/[min], [random.sample], [itertools]);
    - [FairnessEvaluator]  (fairness/fairness_evaluator.py);
    - [ConstraintGenerator] (constraints/constraint_generator.py);
    - [ConstraintSolver]   (constraints/constraint_solver.py);
    - [DataAdjuster]       (data/data_adjuster.py);
    - [FairnessOptimizer]  (main.py).

    Modelling conventions.
    - Python floats are exact rationals ([Q]) extended with [NaN]; rounding is
      not modelled.
    - Stateful code runs in the monad [M]: the state holds the evaluator's
      memo cache and the two pseudo-random generators (Python's [random] and
      NumPy's [np.random]), each a tape of draws with a read position.
    - A raised exception is [Raise e]; the state reached when it was raised is
      kept, since the evaluator instance outlives the failed call. *)

From Stdlib Require Import String Ascii ZArith QArith Qabs Qround Bool Lia Lqa
  Permutation Arith PeanoNat List.
Import ListNotations.
Close Scope Q_scope.

Set Implicit Arguments.

(* ================================================================= *)
(** ** Python, NumPy and pandas fragments *)

Module Py.

(** Exceptions the engine can raise, by Python class. *)
Inductive exn : Type :=
| KeyError (key : string)
| ValueError
| ZeroDivisionError
| IndexError
| TypeError.

Definition exn_class (e : exn) : string :=
  match e with
  | KeyError _ => "KeyError"
  | ValueError => "ValueError"
  | ZeroDivisionError => "ZeroDivisionError"
  | IndexError => "IndexError"
  | TypeError => "TypeError"
  end%string.

(** Outcome of a call: a value, an exception, or a loop that used up the
    fuel given to it. *)
Inductive result (A : Type) : Type :=
| Ok (a : A)
| Raise (e : exn)
| Diverge.
Arguments Ok {A} a.
Arguments Raise {A} e.
Arguments Diverge {A}.

Definition rbind {A B} (r : result A) (f : A -> result B) : result B :=
  match r with
  | Ok a => f a
  | Raise e => Raise e
  | Diverge => Diverge
  end.

Fixpoint rmapM {A B} (f : A -> result B) (l : list A) : result (list B) :=
  match l with
  | [] => Ok []
  | x :: t => rbind (f x) (fun y => rbind (rmapM f t) (fun ys => Ok (y :: ys)))
  end.

(** Floats: exact rationals and NaN. *)
Inductive pyfloat : Type :=
| Fl (q : Q)
| NaN.

Definition Qltb (a b : Q) : bool := negb (Qle_bool b a).

Definition flt (a b : pyfloat) : bool :=
  match a, b with
  | Fl x, Fl y => Qltb x y
  | _, _ => false
  end.

Definition fgt (a b : pyfloat) : bool := flt b a.

Definition fle (a b : pyfloat) : bool :=
  match a, b with
  | Fl x, Fl y => Qle_bool x y
  | _, _ => false
  end.

Definition fsub (a b : pyfloat) : pyfloat :=
  match a, b with
  | Fl x, Fl y => Fl (x - y)
  | _, _ => NaN
  end.

Definition fabs (a : pyfloat) : pyfloat :=
  match a with
  | Fl x => Fl (Qabs x)
  | NaN => NaN
  end.

(** Builtin [max] / [min]: the first element is kept unless a later one
    compares strictly greater (smaller); an empty argument is a ValueError. *)
Definition py_max (l : list pyfloat) : result pyfloat :=
  match l with
  | [] => Raise ValueError
  | x :: t => Ok (fold_left (fun m y => if fgt y m then y else m) t x)
  end.

Definition py_min (l : list pyfloat) : result pyfloat :=
  match l with
  | [] => Raise ValueError
  | x :: t => Ok (fold_left (fun m y => if flt y m then y else m) t x)
  end.

(** The same builtins on Python integers. *)
Definition py_max_int (l : list Z) : result Z :=
  match l with
  | [] => Raise ValueError
  | x :: t => Ok (fold_left Z.max t x)
  end.

Definition py_min_int (l : list Z) : result Z :=
  match l with
  | [] => Raise ValueError
  | x :: t => Ok (fold_left Z.min t x)
  end.

(** [int(q)]: truncation towards zero.  Where the code writes
    [int(n * coefficient)] the product is taken on exact rationals; the
    rounding of a product of doubles is not modelled. *)
Definition py_int (q : Q) : Z := Z.quot (Qnum q) (Zpos (Qden q)).

(** [a / b] on Python integers: true division. *)
Definition py_truediv (a b : Z) : result pyfloat :=
  if (b =? 0)%Z then Raise ZeroDivisionError
  else Ok (Fl (inject_Z a / inject_Z b)).

(** [a / b] where [a] is a NumPy integer scalar (the value of
    [Series.sum()]): dividing zero by zero gives NaN with a warning, no
    exception.  [a] counts rows of a frame of [b] rows, so [b = 0] forces
    [a = 0]. *)
Definition np_truediv (a b : nat) : pyfloat :=
  match b with
  | O => NaN
  | S _ => Fl (Z.of_nat a # Pos.of_nat b)
  end.

(** Cell values of a frame. *)
Inductive value : Type :=
| VInt (z : Z)
| VFloat (q : Q)
| VStr (s : string).

(** Python [==] on cell values.  An integer and a float are compared as
    exact numbers; pandas compares them as doubles, which makes a
    difference only beyond 2^53. *)
Definition value_eqb (a b : value) : bool :=
  match a, b with
  | VInt x, VInt y => (x =? y)%Z
  | VFloat x, VFloat y => Qeq_bool x y
  | VInt x, VFloat y => Qeq_bool (inject_Z x) y
  | VFloat x, VInt y => Qeq_bool x (inject_Z y)
  | VStr s, VStr t => String.eqb s t
  | _, _ => false
  end.

(** [Series.unique()]: distinct values in order of first appearance. *)
Fixpoint unique (l : list value) : list value :=
  match l with
  | [] => []
  | x :: t => x :: filter (fun y => negb (value_eqb y x)) (unique t)
  end.

(** [itertools.combinations(l, k)]. *)
Fixpoint iter_combinations {A} (l : list A) (k : nat) {struct l} : list (list A) :=
  match k, l with
  | O, _ => [[]]
  | S _, [] => []
  | S k', x :: t => map (cons x) (iter_combinations t k') ++ iter_combinations t k
  end.

(** [itertools.product] over a list of lists. *)
Fixpoint product {A} (ls : list (list A)) : list (list A) :=
  match ls with
  | [] => [[]]
  | l :: rest => flat_map (fun x => map (cons x) (product rest)) l
  end.

(** A subgroup: [frozenset] of (attribute, value) tuples, kept as the list
    of its distinct members. *)
Definition pair_eqb (p q : string * value) : bool :=
  String.eqb (fst p) (fst q) && value_eqb (snd p) (snd q).

Definition combo : Type := list (string * value).

Fixpoint frozenset (l : list (string * value)) : combo :=
  match l with
  | [] => []
  | p :: t => p :: filter (fun q => negb (pair_eqb q p)) (frozenset t)
  end.

Definition subsetb (a b : combo) : bool :=
  forallb (fun p => existsb (pair_eqb p) b) a.

(** [frozenset.__eq__]. *)
Definition combo_eqb (a b : combo) : bool := subsetb a b && subsetb b a.

(** A [dict]: association list in insertion order; storing under a key that
    is already present replaces the value in place. *)
Fixpoint dict_set {K V} (eqb : K -> K -> bool) (k : K) (v : V) (d : list (K * V))
  : list (K * V) :=
  match d with
  | [] => [(k, v)]
  | (k', v') :: t =>
      if eqb k' k then (k', v) :: t else (k', v') :: dict_set eqb k v t
  end.

Fixpoint dict_get {K V} (eqb : K -> K -> bool) (k : K) (d : list (K * V)) : option V :=
  match d with
  | [] => None
  | (k', v') :: t => if eqb k' k then Some v' else dict_get eqb k t
  end.

Definition dict_keys {K V} (d : list (K * V)) : list K := map fst d.
Definition dict_values {K V} (d : list (K * V)) : list V := map snd d.

(** Arbitrary Python objects as far as [x in s] on a set needs them: an
    integer is never equal to a tuple. *)
Inductive pyobj : Type :=
| OInt (i : Z)
| OTuple (a : string) (v : value).

Definition pyobj_eqb (x y : pyobj) : bool :=
  match x, y with
  | OInt i, OInt j => (i =? j)%Z
  | OTuple a v, OTuple b w => pair_eqb (a, v) (b, w)
  | _, _ => false
  end.

Definition members (c : combo) : list pyobj := map (fun p => OTuple (fst p) (snd p)) c.

(** [x in c] for a frozenset [c]. *)
Definition py_in (x : pyobj) (c : combo) : bool := existsb (pyobj_eqb x) (members c).

(** Pseudo-random generators: a tape of draws and a read position. *)
Record Tape : Type := { draws : nat -> nat; pos : nat }.

Definition next (t : Tape) : nat * Tape :=
  (draws t (pos t), {| draws := draws t; pos := S (pos t) |}).

(** A uniform draw below [n] ([n > 0]). *)
Definition randbelow (n : nat) (t : Tape) : nat * Tape :=
  let (r, t') := next t in (r mod n, t').

(** [random.sample] by CPython's pool algorithm: each draw picks a position
    of the pool, whose last live element then fills the hole.  (For large
    populations CPython tracks the picked positions in a set instead; the
    result is again [k] distinct members of the population.) *)
Fixpoint sample_pool (pool : list nat) (k : nat) (t : Tape) : list nat * Tape :=
  match k with
  | O => ([], t)
  | S k' =>
      let (j, t1) := randbelow (length pool) t in
      let picked := nth j pool O in
      let last := nth (length pool - 1) pool O in
      let pool' :=
        firstn (length pool - 1)
               (firstn j pool ++ last :: skipn (S j) pool) in
      let (rest, t2) := sample_pool pool' k' t1 in
      (picked :: rest, t2)
  end.

End Py.
Export Py.

(* ================================================================= *)
(** ** pandas frames *)

Module Frame.

(** Column kinds, as [np.issubdtype] and the dtype comparisons of the
    synthesis code tell them apart: int64, float64, object, pandas'
    categorical dtype, and any other NumPy dtype (bool, datetime64 and the
    like). *)
Inductive dtype : Type := Integer | Floating | ObjectDtype | Category | OtherDtype.

(** A frame: named, typed columns and rows aligned with them. *)
Record DataFrame : Type := { columns : list (string * dtype); rows : list (list value) }.

Definition len (d : DataFrame) : nat := length (rows d).

Fixpoint col_index (attr : string) (cols : list (string * dtype)) : option nat :=
  match cols with
  | [] => None
  | (c, _) :: t => if String.eqb c attr then Some O else option_map S (col_index attr t)
  end.

Definition cell (i : nat) (r : list value) : value := nth i r (VInt 0).

(** [data[attr]]: the column, or KeyError. *)
Definition getitem (data : DataFrame) (attr : string) : result (list value) :=
  match col_index attr (columns data) with
  | Some i => Ok (map (cell i) (rows data))
  | None => Raise (KeyError attr)
  end.

(** [row[attr]] on one row of [data]. *)
Definition row_getitem (data : DataFrame) (r : list value) (attr : string) : result value :=
  match col_index attr (columns data) with
  | Some i => Ok (cell i r)
  | None => Raise (KeyError attr)
  end.

(** [data.iloc[idxs]] for a list of positions. *)
Definition iloc (data : DataFrame) (idxs : list nat) : result DataFrame :=
  if forallb (fun i => i <? len data) idxs
  then Ok {| columns := columns data;
             rows := map (fun i => nth i (rows data) []) idxs |}
  else Raise IndexError.

(** [data.iloc[:m]]. *)
Definition iloc_prefix (data : DataFrame) (m : nat) : DataFrame :=
  {| columns := columns data; rows := firstn m (rows data) |}.

(** [pd.concat([a, b], ignore_index=True)]: the rows of [b] after those of
    [a].  The column labels are those of [a]; the dtypes pandas derives for
    the concatenated columns are not modelled, and the dtypes kept here are
    read by no function that receives a concatenated frame. *)
Definition concat (a b : DataFrame) : DataFrame :=
  {| columns := columns a; rows := rows a ++ rows b |}.

(** The subgroup universe built by both [_get_combinations] methods: one
    singleton per attribute and observed value, then for each size
    [k >= 2] every [k]-subset of the attributes crossed with the observed
    values.  The first loop reads every listed column, so a missing one
    raises KeyError there. *)
Definition all_combinations (data : DataFrame) (sensitive_attributes : list string)
  : result (list combo) :=
  rbind (rmapM (fun attr =>
                  rbind (getitem data attr) (fun col =>
                  Ok (map (fun v => frozenset [(attr, v)]) (unique col))))
               sensitive_attributes) (fun singles =>
  rbind (rmapM (fun k =>
           rmapM (fun attrs =>
                    rbind (rmapM (fun attr => rbind (getitem data attr)
                                                 (fun col => Ok (unique col))) attrs)
                          (fun cols =>
                    Ok (map (fun values => frozenset (combine attrs values))
                            (product cols))))
                 (iter_combinations sensitive_attributes k))
               (seq 2 (length sensitive_attributes - 1))) (fun higher =>
  Ok (List.concat singles ++ List.concat (List.concat higher)))).

End Frame.
Export Frame.

(* ================================================================= *)
(** ** Program state and the monad of stateful calls *)

Module Run.

(** The evaluator's [combinations_cache] (keyed by the attribute tuple) and
    the generators of [random] and [np.random]; [np_normal] supplies the
    Gaussian draws of [np.random.normal], whose scale is not modelled. *)
Record State : Type := {
  combinations_cache : list (list string * list combo);
  py_random : Tape;
  np_random : Tape;
  np_normal : nat -> Q
}.

Definition M (A : Type) : Type := State -> result A * State.

Definition ret {A} (a : A) : M A := fun st => (Ok a, st).

Definition raise {A} (e : exn) : M A := fun st => (Raise e, st).

Definition bind {A B} (m : M A) (f : A -> M B) : M B :=
  fun st =>
    match m st with
    | (Ok a, st') => f a st'
    | (Raise e, st') => (Raise e, st')
    | (Diverge, st') => (Diverge, st')
    end.

Definition lift {A} (r : result A) : M A := fun st => (r, st).

Definition with_cache (c : list (list string * list combo)) (st : State) : State :=
  {| combinations_cache := c; py_random := py_random st;
     np_random := np_random st; np_normal := np_normal st |}.

Definition with_py (t : Tape) (st : State) : State :=
  {| combinations_cache := combinations_cache st; py_random := t;
     np_random := np_random st; np_normal := np_normal st |}.

Definition with_np (t : Tape) (st : State) : State :=
  {| combinations_cache := combinations_cache st; py_random := py_random st;
     np_random := t; np_normal := np_normal st |}.

Notation "x <- m ;; k" := (bind m (fun x => k))
  (at level 61, m at next level, right associativity).

(** [random.randint(a, b)], both ends included. *)
Definition random_randint (a b : Z) : M Z :=
  fun st =>
    if (b <? a)%Z then (Raise ValueError, st)
    else let (r, t) := randbelow (Z.to_nat (b - a + 1)) (py_random st) in
         (Ok (a + Z.of_nat r)%Z, with_py t st).

(** [random.sample(range(n), k)]. *)
Definition random_sample_range (n : nat) (k : Z) : M (list nat) :=
  fun st =>
    if ((k <? 0) || (Z.of_nat n <? k))%Z then (Raise ValueError, st)
    else let (l, t) := sample_pool (seq 0 n) (Z.to_nat k) (py_random st) in
         (Ok l, with_py t st).

(** [np.random.choice(a)] on a one-dimensional array. *)
Definition np_random_choice {A} (a : list A) : M A :=
  fun st =>
    match a with
    | [] => (Raise ValueError, st)
    | x :: _ => let (r, t) := randbelow (length a) (np_random st) in
                (Ok (nth r a x), with_np t st)
    end.

(** [np.random.randint(low, high)], [high] excluded. *)
Definition np_random_randint (low high : Z) : M Z :=
  fun st =>
    if (high <=? low)%Z then (Raise ValueError, st)
    else let (r, t) := randbelow (Z.to_nat (high - low)) (np_random st) in
         (Ok (low + Z.of_nat r)%Z, with_np t st).

(** [np.random.normal(0, std_dev)]: one Gaussian draw. *)
Definition np_random_normal : M Q :=
  fun st =>
    let (r, t) := next (np_random st) in
    (Ok (np_normal st r), with_np t st).

(** [frame.sample(n=1).iloc[0]]: one row picked with NumPy's generator. *)
Definition sample_one (d : DataFrame) : M (list value) :=
  fun st =>
    match rows d with
    | [] => (Raise ValueError, st)
    | x :: _ => let (r, t) := randbelow (len d) (np_random st) in
                (Ok (nth r (rows d) x), with_np t st)
    end.

(** A loop of the monad over a list, threading an accumulator. *)
Fixpoint foldM {A B} (f : B -> A -> M B) (l : list A) (b : B) : M B :=
  match l with
  | [] => ret b
  | x :: t => b' <- f b x ;; foldM f t b'
  end.

End Run.
Export Run.

(* ================================================================= *)
(** ** fairness/fairness_evaluator.py *)

Module FairnessEvaluator.

Definition key_eqb (a b : list string) : bool :=
  (length a =? length b) && forallb (fun p => String.eqb (fst p) (snd p)) (combine a b).

(** [_get_combinations]: the universe stored under the attribute tuple if
    there is one, else the universe of [data], which is stored before it is
    returned. *)
Definition _get_combinations (data : DataFrame) (sensitive_attributes : list string)
  : M (list combo) :=
  fun st =>
    match dict_get key_eqb sensitive_attributes (combinations_cache st) with
    | Some cached => (Ok cached, st)
    | None =>
        match all_combinations data sensitive_attributes with
        | Ok all =>
            (Ok all,
             with_cache (dict_set key_eqb sensitive_attributes all
                                  (combinations_cache st)) st)
        | Raise e => (Raise e, st)
        | Diverge => (Diverge, st)
        end
    end.

Definition mask_and (mask col : list bool) : list bool :=
  map (fun p => andb (fst p) (snd p)) (combine mask col).

(** The boolean mask of one subgroup: all True, then and-ed with
    [data[attr] == value] for each of its pairs. *)
Definition combo_mask (data : DataFrame) (c : combo) : result (list bool) :=
  fold_left (fun acc p =>
               rbind acc (fun mask =>
               rbind (getitem data (fst p)) (fun col =>
               Ok (mask_and mask (map (fun x => value_eqb x (snd p)) col)))))
            c (Ok (repeat true (len data))).

Definition mask_sum (mask : list bool) : nat := length (filter (fun b => b) mask).

Definition _calculate_supports (data : DataFrame) (combinations : list combo)
  : result (list (combo * pyfloat)) :=
  let total_records := len data in
  fold_left (fun acc c =>
               rbind acc (fun supports =>
               rbind (combo_mask data c) (fun mask =>
               Ok (dict_set combo_eqb c (np_truediv (mask_sum mask) total_records)
                            supports))))
            combinations (Ok []).

Definition evaluate (data : DataFrame) (sensitive_attributes : list string) : M pyfloat :=
  combinations <- _get_combinations data sensitive_attributes ;;
  supports <- lift (_calculate_supports data combinations) ;;
  mx <- lift (py_max (dict_values supports)) ;;
  mn <- lift (py_min (dict_values supports)) ;;
  ret (fsub (Fl 1) (fsub mx mn)).

End FairnessEvaluator.

(* ================================================================= *)
(** ** constraints/constraint_generator.py *)

(** The request configuration: [config['sensitive_attributes']] and
    [config['coefficient']]. *)
Record Config : Type := { sensitive_attributes : list string; coefficient : Q }.

Module ConstraintGenerator.

(** The CP-SAT model, as far as the generator fills it.  Boolean variable
    [i] is [x[i]]; integer variable [j] is the count variable created for
    the [j]-th enumerated subgroup; [min_count], [max_count] and
    [fairness_score] are the three remaining integer variables. *)
Inductive constraint : Type :=
| SumEq (k : Z)
| CountEq (var : nat) (terms : list nat)
| MinEquality (vars : list nat)
| MaxEquality (vars : list nat)
| FairnessEq (k : Z).

Record CpModel : Type := {
  bool_vars : nat;
  count_vars : nat;
  upper : Z;
  constraints : list constraint
}.

Record constraints_data : Type := {
  model : CpModel;
  x : list nat;
  count : list (combo * nat)
}.

Definition _get_combinations (data : DataFrame) (sensitive_attributes : list string)
  : result (list combo) :=
  all_combinations data sensitive_attributes.

(** [all(row[attr] == value for attr, value in combination)]. *)
Fixpoint _has_combination (data : DataFrame) (row : list value) (combination : combo)
  : result bool :=
  match combination with
  | [] => Ok true
  | p :: t =>
      rbind (row_getitem data row (fst p)) (fun v =>
      if value_eqb v (snd p) then _has_combination data row t else Ok false)
  end.

(** The indices [i] of [range(n)] whose row has the combination. *)
Fixpoint rows_with (data : DataFrame) (c : combo) (i : nat) (rs : list (list value))
  : result (list nat) :=
  match rs with
  | [] => Ok []
  | r :: t =>
      rbind (_has_combination data r c) (fun b =>
      rbind (rows_with data c (S i) t) (fun l =>
      Ok (if b then i :: l else l)))
  end.

(** The loop over the enumerated subgroups: a new count variable each, the
    [count] dictionary entry for the subgroup set to it, and its defining
    constraint. *)
Fixpoint count_loop (data : DataFrame) (combinations : list combo) (j : nat)
         (count : list (combo * nat)) (cs : list constraint)
  : result (list (combo * nat) * list constraint) :=
  match combinations with
  | [] => Ok (count, cs)
  | c :: t =>
      rbind (rows_with data c 0 (rows data)) (fun terms =>
      count_loop data t (S j) (dict_set combo_eqb c j count) (cs ++ [CountEq j terms]))
  end.

(** [generate_constraints].  [k] and the bounds of the variables are
    unbounded integers here: the limits of the solver's 64-bit integers are
    not modelled. *)
Definition generate_constraints (data : DataFrame) (config : Config)
  : result constraints_data :=
  let n := len data in
  let k := py_int (inject_Z (Z.of_nat n) * coefficient config) in
  rbind (_get_combinations data (sensitive_attributes config)) (fun combinations =>
  rbind (count_loop data combinations 0 [] [SumEq k]) (fun cc =>
  let count := fst cc in
  Ok {| model := {| bool_vars := n;
                    count_vars := length combinations;
                    upper := k;
                    constraints := snd cc ++ [MinEquality (dict_values count);
                                              MaxEquality (dict_values count);
                                              FairnessEq k] |};
        x := seq 0 n;
        count := count |})).

(** [_calculate_initial_fairness]: the generator's own copy of the score,
    over a universe that is enumerated afresh on every call. *)
Definition _calculate_initial_fairness (data : DataFrame) (sensitive_attributes : list string)
  : result pyfloat :=
  rbind (_get_combinations data sensitive_attributes) (fun combinations =>
  let total_records := len data in
  rbind (fold_left
           (fun acc combo =>
              rbind acc (fun supports =>
              rbind (fold_left
                       (fun m p =>
                          rbind m (fun mask =>
                          rbind (getitem data (fst p)) (fun col =>
                          Ok (FairnessEvaluator.mask_and
                                mask (map (fun v => value_eqb v (snd p)) col)))))
                       combo (Ok (repeat true (len data)))) (fun mask =>
              Ok (dict_set combo_eqb combo
                           (np_truediv (FairnessEvaluator.mask_sum mask) total_records)
                           supports))))
           combinations (Ok [])) (fun supports =>
  rbind (py_max (dict_values supports)) (fun mx =>
  rbind (py_min (dict_values supports)) (fun mn =>
  Ok (fsub (Fl 1) (fsub mx mn)))))).

End ConstraintGenerator.

(* ================================================================= *)
(** ** constraints/constraint_solver.py *)

Module ConstraintSolver.
Import ConstraintGenerator.

Inductive CpStatus : Type := UNKNOWN | MODEL_INVALID | FEASIBLE | INFEASIBLE | OPTIMAL.

(** What the CP-SAT solver reports after [Solve]: a status and the value of
    every variable. *)
Record CpOutcome : Type := {
  status : CpStatus;
  BooleanValue : nat -> bool;
  count_value : nat -> Z;
  min_count_value : Z;
  max_count_value : Z;
  fairness_value : Z
}.

(** Meaning of one constraint under an assignment.  A minimum or maximum
    over no variable at all constrains nothing. *)
Definition holds (n : nat) (a : CpOutcome) (c : constraint) : bool :=
  match c with
  | SumEq k => (Z.of_nat (length (filter (BooleanValue a) (seq 0 n))) =? k)%Z
  | CountEq v terms =>
      (count_value a v =? Z.of_nat (length (filter (BooleanValue a) terms)))%Z
  | MinEquality vars =>
      match py_min_int (map (count_value a) vars) with
      | Ok m => (min_count_value a =? m)%Z
      | _ => true
      end
  | MaxEquality vars =>
      match py_max_int (map (count_value a) vars) with
      | Ok m => (max_count_value a =? m)%Z
      | _ => true
      end
  | FairnessEq k =>
      (fairness_value a * k =?
       1000000 * k - (max_count_value a - min_count_value a) * 1000000)%Z
  end.

Definition within (lo hi v : Z) : bool := ((lo <=? v) && (v <=? hi))%Z.

Definition satisfies (m : CpModel) (a : CpOutcome) : bool :=
  forallb (fun j => within 0 (upper m) (count_value a j)) (seq 0 (count_vars m))
  && within 0 (upper m) (min_count_value a)
  && within 0 (upper m) (max_count_value a)
  && within 0 1000000 (fairness_value a)
  && forallb (holds (bool_vars m) a) (constraints m).

Definition has_solution (s : CpStatus) : bool :=
  match s with
  | OPTIMAL | FEASIBLE => true
  | _ => false
  end.

(** The contract of the external solver on one model: an assignment is
    reported only if it satisfies the model. *)
Definition sound_on (Solve : CpModel -> CpOutcome) (m : CpModel) : Prop :=
  has_solution (status (Solve m)) = true -> satisfies m (Solve m) = true.

(** A solution dictionary; the one built for calibration has no
    ['fairness_score'] entry. *)
Record Solution : Type := {
  selected_indices : list nat;
  fairness_score : option pyfloat
}.

Definition _calculate_fairness (selected_indices : list nat) (count : list (combo * nat))
  : result pyfloat :=
  let selected_counts :=
    map (fun c => (c, Z.of_nat (length (filter (fun i => py_in (OInt (Z.of_nat i)) c)
                                               selected_indices))))
        (dict_keys count) in
  rbind (py_min_int (dict_values selected_counts)) (fun min_count =>
  rbind (py_max_int (dict_values selected_counts)) (fun max_count =>
  rbind (py_truediv (max_count - min_count) (Z.of_nat (length selected_indices)))
        (fun q => Ok (fsub (Fl 1) q)))).

(** [l[j] = v]. *)
Definition list_assign (l : list nat) (j : nat) (v : nat) : result (list nat) :=
  if j <? length l then Ok (firstn j l ++ v :: skipn (S j) l) else Raise IndexError.

(** The local search: [trials] iterations of the swap loop. *)
Fixpoint local_search (trials : nat) (data_size : nat) (selected_size : Z)
         (count : list (combo * nat)) (selected_indices : list nat) (fairness : pyfloat)
  : M (list nat * pyfloat) :=
  match trials with
  | O => ret (selected_indices, fairness)
  | S t =>
      i <- random_randint 0 (Z.of_nat data_size - 1) ;;
      if negb (existsb (Nat.eqb (Z.to_nat i)) selected_indices) then
        j <- random_randint 0 (selected_size - 1) ;;
        new_indices <- lift (list_assign selected_indices (Z.to_nat j) (Z.to_nat i)) ;;
        new_fairness <- lift (_calculate_fairness new_indices count) ;;
        if fgt new_fairness fairness
        then local_search t data_size selected_size count new_indices new_fairness
        else local_search t data_size selected_size count selected_indices fairness
      else local_search t data_size selected_size count selected_indices fairness
  end.

Definition _generate_improved_solution (data_size : nat) (coefficient : Q)
           (cd : constraints_data) (initial_fairness : pyfloat) : M Solution :=
  let selected_size :=
    Z.min (py_int (inject_Z (Z.of_nat data_size) * coefficient)) (Z.of_nat data_size) in
  selected_indices <- random_sample_range data_size selected_size ;;
  match count cd with
  | [] => ret {| selected_indices := selected_indices;
                 fairness_score := Some (Fl (6 # 10)) |}
  | _ :: _ =>
      fairness <- lift (_calculate_fairness selected_indices (count cd)) ;;
      r <- local_search 1000 data_size selected_size (count cd) selected_indices fairness ;;
      ret {| selected_indices := fst r; fairness_score := Some (snd r) |}
  end.

Definition solve (Solve : CpModel -> CpOutcome) (cd : constraints_data)
           (coefficient : Q) (initial_fairness : pyfloat) : M Solution :=
  let out := Solve (model cd) in
  if has_solution (status out) then
    let selected_indices :=
      filter (fun i => BooleanValue out (nth i (x cd) O)) (seq 0 (length (x cd))) in
    let optimized_fairness := Fl (inject_Z (fairness_value out) / 1000000) in
    if fle optimized_fairness initial_fairness
    then _generate_improved_solution (length (x cd)) coefficient cd initial_fairness
    else ret {| selected_indices := selected_indices;
                fairness_score := Some optimized_fairness |}
  else _generate_improved_solution (length (x cd)) coefficient cd initial_fairness.

(** [_generate_random_solution]: a sample of [int(data_size * coefficient)]
    indices, not capped at [data_size], with the default score. *)
Definition _generate_random_solution (data_size : nat) (coefficient : Q) : M Solution :=
  let selected_size := py_int (inject_Z (Z.of_nat data_size) * coefficient) in
  selected_indices <- random_sample_range data_size selected_size ;;
  ret {| selected_indices := selected_indices; fairness_score := Some (Fl (6 # 10)) |}.

End ConstraintSolver.

(** The solution callback handed to the solver.  Its state is
    [best_solution]: [None], or the selected indices and the objective value
    of an incumbent. *)
Module SolutionPrinter.
Import ConstraintGenerator ConstraintSolver.

Definition best_solution : Type := option (list nat * Z).

(** [__init__]. *)
Definition init : best_solution := None.

(** [OnSolutionCallback], called by the solver with the incumbent it has
    just found. *)
Definition OnSolutionCallback (x : list nat) (incumbent : CpOutcome) (best : best_solution)
  : best_solution :=
  let current_solution :=
    (filter (fun i => BooleanValue incumbent (nth i x O)) (seq 0 (length x)),
     fairness_value incumbent) in
  match best with
  | None => Some current_solution
  | Some b =>
      if (snd b <? snd current_solution)%Z then Some current_solution else Some b
  end.

(** The callback after the solver has reported the incumbents in turn. *)
Definition after (x : list nat) (incumbents : list CpOutcome) (best : best_solution)
  : best_solution :=
  fold_left (fun b a => OnSolutionCallback x a b) incumbents best.

End SolutionPrinter.

(* ================================================================= *)
(** ** data/data_adjuster.py *)

Module DataAdjuster.
Import ConstraintSolver.

Definition max_iterations : nat := 10.

(** [col.startswith('sensitive_')]. *)
Definition startswith_sensitive (col : string) : bool := String.prefix "sensitive_" col.

Definition name_in (col : string) (l : list string) : bool := existsb (String.eqb col) l.

(** [sample[column] = v] on a row of [data]. *)
Definition row_setitem (data : DataFrame) (r : list value) (column : string) (v : value)
  : list value :=
  match col_index column (columns data) with
  | Some i => firstn i r ++ v :: skipn (S i) r
  | None => r
  end.

Definition as_Z (v : value) : Z :=
  match v with
  | VInt z => z
  | _ => 0%Z
  end.

(** [Series.min()] and [Series.max()] of an integer column. *)
Definition column_min (col : list value) : Z :=
  match col with
  | [] => 0%Z
  | v :: t => fold_left Z.min (map as_Z t) (as_Z v)
  end.

Definition column_max (col : list value) : Z :=
  match col with
  | [] => 0%Z
  | v :: t => fold_left Z.max (map as_Z t) (as_Z v)
  end.

(** [v += noise] on a cell. *)
Definition add_noise (v : value) (noise : Q) : value :=
  match v with
  | VFloat q => VFloat (q + noise)
  | VInt z => VFloat (inject_Z z + noise)
  | VStr s => VStr s
  end.

(** The rows of [data] whose sensitive columns all equal the drawn
    combination. *)
Definition matches (data : DataFrame) (combo : list (string * value)) (r : list value)
  : bool :=
  forallb (fun p =>
             match col_index (fst p) (columns data) with
             | Some i => value_eqb (cell i r) (snd p)
             | None => false
             end) combo.

(** [max_val + 1] on a NumPy int64 scalar: the greatest value wraps around
    to the least. *)
Definition int64_succ (z : Z) : Z :=
  if (z =? 2 ^ 63 - 1)%Z then (- 2 ^ 63)%Z else (z + 1)%Z.

(** The body of the inner loop over [data.columns].  An integer column is
    an int64 column.  [np.issubdtype] cannot interpret a categorical dtype
    and raises TypeError on it, so the branch written for ['category'] is
    never reached. *)
Definition perturb (data : DataFrame) (sensitive_attributes : list string)
           (sample : list value) (column : string * dtype) : M (list value) :=
  if negb (name_in (fst column) sensitive_attributes) then
    col <- lift (getitem data (fst column)) ;;
    match snd column with
    | Integer =>
        v <- np_random_randint (column_min col) (int64_succ (column_max col)) ;;
        ret (row_setitem data sample (fst column) (VInt v))
    | Floating =>
        noise <- np_random_normal ;;
        old <- lift (row_getitem data sample (fst column)) ;;
        ret (row_setitem data sample (fst column) (add_noise old noise))
    | Category => raise TypeError
    | ObjectDtype =>
        v <- np_random_choice (unique col) ;;
        ret (row_setitem data sample (fst column) v)
    | OtherDtype => ret sample
    end
  else ret sample.

(** One pass of the outer loop: one synthetic row. *)
Definition synthetic_sample (data : DataFrame) (sensitive_attributes : list string)
  : M (list value) :=
  combo <- foldM (fun acc attr =>
                    col <- lift (getitem data attr) ;;
                    v <- np_random_choice (unique col) ;;
                    ret (acc ++ [(attr, v)]))
                 sensitive_attributes [] ;;
  let matching_samples :=
    {| columns := columns data; rows := filter (matches data combo) (rows data) |} in
  original_sample <- (if 0 <? len matching_samples
                      then sample_one matching_samples
                      else sample_one data) ;;
  foldM (perturb data sensitive_attributes) (columns data) original_sample.

Fixpoint synthetic_loop (n : nat) (data : DataFrame) (sensitive_attributes : list string)
  : M (list (list value)) :=
  match n with
  | O => ret []
  | S n' =>
      s <- synthetic_sample data sensitive_attributes ;;
      rest <- synthetic_loop n' data sensitive_attributes ;;
      ret (s :: rest)
  end.

(** The sensitive columns are those whose name starts with [sensitive_]. *)
Definition _generate_synthetic_samples (data : DataFrame) (n_samples : Z) : M DataFrame :=
  let sensitive_attributes :=
    filter startswith_sensitive (map fst (columns data)) in
  samples <- synthetic_loop (Z.to_nat n_samples) data sensitive_attributes ;;
  ret {| columns := columns data; rows := samples |}.

(** The oversampling loop, [rounds] iterations left. *)
Fixpoint oversample (rounds : nat) (data : DataFrame) (target_size : Z)
         (sensitive_attributes : list string) (initial_fairness : pyfloat)
         (adjusted_data : DataFrame) : M DataFrame :=
  match rounds with
  | O => ret adjusted_data
  | S r =>
      synthetic_samples <-
        _generate_synthetic_samples data (target_size - Z.of_nat (len adjusted_data)) ;;
      let appended := concat adjusted_data synthetic_samples in
      current_fairness <- FairnessEvaluator.evaluate appended sensitive_attributes ;;
      if fgt current_fairness initial_fairness then ret appended
      else oversample r data target_size sensitive_attributes initial_fairness
                      (iloc_prefix appended (len appended - len synthetic_samples))
  end.

Definition adjust_data (data : DataFrame) (solution : Solution) (coefficient : Q)
           (sensitive_attributes : list string) : M (DataFrame * Z) :=
  let original_size := len data in
  initial_fairness <- FairnessEvaluator.evaluate data sensitive_attributes ;;
  if Qle_bool coefficient 1 then
    adjusted_data <- lift (iloc data (selected_indices solution)) ;;
    ret (adjusted_data, (Z.of_nat original_size - Z.of_nat (len adjusted_data))%Z)
  else
    let target_size := py_int (inject_Z (Z.of_nat original_size) * coefficient) in
    adjusted_data <- oversample max_iterations data target_size sensitive_attributes
                                initial_fairness data ;;
    ret (adjusted_data, (Z.of_nat (len adjusted_data) - Z.of_nat original_size)%Z).

End DataAdjuster.

(* ================================================================= *)
(** ** main.py *)

Module FairnessOptimizer.
Import ConstraintGenerator ConstraintSolver.

(** What [optimize_fairness] hands to the reporting and persistence
    collaborators. *)
Record Outcome : Type := {
  adjusted_data : DataFrame;
  initial_fairness : pyfloat;
  optimized_fairness_score : pyfloat;
  final_fairness : pyfloat
}.

Definition tolerance : Q := 1 # 1000.

(** One trial of the calibration: adjust at [mid] with every row selected,
    then evaluate. *)
Definition trial (data : DataFrame) (config : Config) (mid : Q) : M pyfloat :=
  r <- DataAdjuster.adjust_data data
         {| selected_indices := seq 0 (len data); fairness_score := None |}
         mid (sensitive_attributes config) ;;
  FairnessEvaluator.evaluate (fst r) (sensitive_attributes config).

(** The [while] loop of [binary_search]; [fuel] bounds its iterations. *)
Fixpoint binary_search (fuel : nat) (data : DataFrame) (config : Config)
         (optimized_fairness_score : pyfloat) (low high : Q) : M Q :=
  match fuel with
  | O => fun st => (Diverge, st)
  | S f =>
      if Qltb tolerance (high - low) then
        let mid := ((low + high) / 2)%Q in
        fairness <- trial data config mid ;;
        if flt (fabs (fsub fairness optimized_fairness_score)) (Fl tolerance) then ret mid
        else if flt fairness optimized_fairness_score
             then binary_search f data config optimized_fairness_score mid high
             else binary_search f data config optimized_fairness_score low mid
      else ret ((low + high) / 2)%Q
  end.

(** Eleven loop tests are enough for a bracket of width one. *)
Definition search_fuel : nat := 11.

Definition calculate_optimal_coefficients (data : DataFrame) (config : Config)
           (initial_fairness optimized_fairness_score : pyfloat) : M (Q * Q) :=
  coeff_less_than_1 <- binary_search search_fuel data config optimized_fairness_score 0 1 ;;
  coeff_greater_than_1 <- binary_search search_fuel data config optimized_fairness_score 1 2 ;;
  ret (coeff_less_than_1, coeff_greater_than_1).

(** Lines 83-87: the regression check. *)
Definition regression_check (data : DataFrame) (initial_fairness : pyfloat)
           (adjusted_data : DataFrame) (final_fairness : pyfloat) : DataFrame * pyfloat :=
  if flt final_fairness initial_fairness
  then (data, initial_fairness)
  else (adjusted_data, final_fairness).

(** Steps 1 to 5 of [optimize_fairness]: the adjusted frame and its score,
    before the regression check. *)
Definition adjust_and_score (Solve : CpModel -> CpOutcome) (data : DataFrame)
           (config : Config) : M (pyfloat * pyfloat * DataFrame * pyfloat) :=
  initial_fairness <-
    FairnessEvaluator.evaluate data (sensitive_attributes config) ;;
  constraints_data <- lift (generate_constraints data config) ;;
  solution <- solve Solve constraints_data (coefficient config) initial_fairness ;;
  optimized_fairness_score <-
    match fairness_score solution with
    | Some s => ret s
    | None => raise (KeyError "fairness_score")
    end ;;
  _ <- calculate_optimal_coefficients data config initial_fairness
                                      optimized_fairness_score ;;
  r <- DataAdjuster.adjust_data data solution (coefficient config)
                                (sensitive_attributes config) ;;
  final_fairness <-
    FairnessEvaluator.evaluate (fst r) (sensitive_attributes config) ;;
  ret (initial_fairness, optimized_fairness_score, fst r, final_fairness).

(** [optimize_fairness] up to the values it reports; pattern mining, the
    report and the CSV file are the collaborators' work. *)
Definition optimize_fairness (Solve : CpModel -> CpOutcome) (data : DataFrame)
           (config : Config) : M Outcome :=
  r <- adjust_and_score Solve data config ;;
  let '(initial_fairness, optimized_fairness_score, adjusted_data, final_fairness) := r in
  let checked := regression_check data initial_fairness adjusted_data final_fairness in
  ret {| adjusted_data := fst checked;
         initial_fairness := initial_fairness;
         optimized_fairness_score := optimized_fairness_score;
         final_fairness := snd checked |}.

End FairnessOptimizer.

(* ================================================================= *)
(** ** data/data_loader.py *)

Module DataLoader.
Import DataAdjuster.

(** [data_copy[attr] = v] for a scalar [v] and a column that exists: every
    row gets [v] in that column, which then holds Python objects.  Column
    names are distinct, as [read_csv] makes them. *)
Definition setitem_scalar (data_copy : DataFrame) (attr : string) (v : value) : DataFrame :=
  {| columns := map (fun c => if String.eqb (fst c) attr then (fst c, ObjectDtype) else c)
                    (columns data_copy);
     rows := map (fun r => row_setitem data_copy r attr v) (rows data_copy) |}.

(** [identify_sensitive_attributes]; the warning printed for a name that is
    not a column leaves the frame as it is. *)
Definition identify_sensitive_attributes (data : DataFrame) (sensitive_attrs : list string)
  : DataFrame :=
  fold_left (fun data_copy attr =>
               if negb (name_in attr (map fst (columns data))) then data_copy
               else setitem_scalar data_copy attr (VStr ("sensitive_" ++ attr)))
            sensitive_attrs data.

End DataLoader.

(* ================================================================= *)
(** ** Sample inputs *)

Module Samples.
Import ConstraintGenerator ConstraintSolver.

(** A fresh process: empty cache, both generators at the start of their
    tapes. *)
Definition fresh (py np : nat -> nat) (g : nat -> Q) : State :=
  {| combinations_cache := [];
     py_random := {| draws := py; pos := 0 |};
     np_random := {| draws := np; pos := 0 |};
     np_normal := g |}.

Definition st0 : State := fresh (fun n => n * 7 + 3) (fun n => n * 5 + 1) (fun _ => 0%Q).

(** A frame with the single text column [group]. *)
Definition grp (l : list string) : DataFrame :=
  {| columns := [("group", ObjectDtype)]%string; rows := map (fun s => [VStr s]) l |}.

Definition aab : DataFrame := grp ["A"; "A"; "B"]%string.

Definition on_group (c : Q) : Config :=
  {| sensitive_attributes := ["group"%string]; coefficient := c |}.

(** A solver that keeps rows 0 and 2 and reports the perfect score. *)
Definition keep_0_2 : CpModel -> CpOutcome :=
  fun _ => {| status := OPTIMAL;
              BooleanValue := fun i => match i with 1 => false | _ => true end;
              count_value := fun _ => 1%Z;
              min_count_value := 1;
              max_count_value := 1;
              fairness_value := 1000000 |}.

(** A solver that runs out of time. *)
Definition gives_up : CpModel -> CpOutcome :=
  fun _ => {| status := UNKNOWN;
              BooleanValue := fun _ => false;
              count_value := fun _ => 0%Z;
              min_count_value := 0;
              max_count_value := 0;
              fairness_value := 0 |}.

(** Two sensitive attributes whose column names do not carry the
    [sensitive_] prefix. *)
Definition gender_race : DataFrame :=
  {| columns := [("gender", ObjectDtype); ("race", ObjectDtype)]%string;
     rows := [[VStr "M"; VStr "X"]; [VStr "F"; VStr "Y"]]%string |}.

(** What [generate_constraints] builds for [aab] when [k] rows are to be
    kept. *)
Definition model_aab (k : Z) : constraints_data :=
  {| model := {| bool_vars := 3;
                 count_vars := 2;
                 upper := k;
                 constraints := [SumEq k; CountEq 0 [0; 1]; CountEq 1 [2];
                                 MinEquality [0; 1]; MaxEquality [0; 1];
                                 FairnessEq k] |};
     x := [0; 1; 2];
     count := [([("group", VStr "A")], 0); ([("group", VStr "B")], 1)]%string |}.

(** The process state whose tapes hand out 0, 1, 2, ... *)
Definition st_id : State := fresh (fun n => n) (fun n => n) (fun _ => 0%Q).

(** The process state whose NumPy tape hands out 0, 0, 1, 1, 2, 2, ... *)
Definition st_half : State := fresh (fun n => n) (fun n => n / 2) (fun _ => 0%Q).

(** What [optimize_fairness] reports on [aab] at coefficient 2/3 when the
    solver gives up and the fallback draws rows 0 and 1. *)
Definition reverted : FairnessOptimizer.Outcome :=
  {| FairnessOptimizer.adjusted_data := aab;
     FairnessOptimizer.initial_fairness := Fl (6 # 9);
     FairnessOptimizer.optimized_fairness_score := Fl (2 # 2);
     FairnessOptimizer.final_fairness := Fl (6 # 9) |}.

(** What it reports at coefficient 1 from [st0]. *)
Definition unchanged : FairnessOptimizer.Outcome :=
  {| FairnessOptimizer.adjusted_data := grp ["A"; "B"; "A"]%string;
     FairnessOptimizer.initial_fairness := Fl (6 # 9);
     FairnessOptimizer.optimized_fairness_score := Fl (3 # 3);
     FairnessOptimizer.final_fairness := Fl (6 # 9) |}.


End Samples.

(* ================================================================= *)
(** ** Notions used to state and prove the properties *)

Import ConstraintGenerator ConstraintSolver DataAdjuster FairnessOptimizer.

(** The pool of [random.sample] after position [j] was drawn. *)
Definition pool_after (pool : list nat) (j : nat) : list nat :=
  firstn (length pool - 1)
         (firstn j pool ++ nth (length pool - 1) pool 0 :: skipn (S j) pool).

(** A selection of [k] distinct rows of a frame of [n] rows. *)
Definition valid_selection (n k : nat) (l : list nat) : Prop :=
  length l = k /\ NoDup l /\ Forall (fun i => i < n) l.

(** The universe cached for an attribute list, if any. *)
Definition entry (attrs : list string) (st : State) : option (list combo) :=
  dict_get FairnessEvaluator.key_eqb attrs (combinations_cache st).

(** The score of a frame over a given universe: what [evaluate] computes
    once [_get_combinations] has returned. *)
Definition score_over (data : DataFrame) (combinations : list combo) : result pyfloat :=
  rbind (FairnessEvaluator._calculate_supports data combinations) (fun supports =>
  rbind (py_max (dict_values supports)) (fun mx =>
  rbind (py_min (dict_values supports)) (fun mn =>
  Ok (fsub (Fl 1) (fsub mx mn))))).

(** The first listed name that is not a column. *)
Fixpoint first_absent (cols : list (string * dtype)) (names : list string) : option string :=
  match names with
  | [] => None
  | a :: t =>
      match col_index a cols with
      | Some _ => first_absent cols t
      | None => Some a
      end
  end.

(** A call that never drops or changes the universe cached for [attrs]. *)
Definition keeps {A} (attrs : list string) (m : M A) : Prop :=
  forall C st r st', entry attrs st = Some C -> m st = (r, st') -> entry attrs st' = Some C.

(** The oversampling rounds as the specification words them.  With
    [left] rounds to go and [current] as adjusted frame: no round left
    keeps [current]; a round synthesizes one batch of
    [target - len current] rows from the original frame, scores
    [current] extended by the batch, and either stops with the extended
    frame because the score exceeds the baseline, or goes on to the next
    round from [current] itself. *)
Inductive batch_rounds (data : DataFrame) (target : Z) (attrs : list string)
          (baseline : pyfloat)
  : nat -> DataFrame -> State -> DataFrame -> State -> Prop :=
| rounds_exhausted (current : DataFrame) (st : State) :
    batch_rounds data target attrs baseline 0 current st current st
| rounds_accept (left : nat) (current : DataFrame) (st : State)
                (batch : DataFrame) (st1 : State) (score : pyfloat) (st2 : State) :
    _generate_synthetic_samples data (target - Z.of_nat (len current)) st = (Ok batch, st1) ->
    len batch = Z.to_nat (target - Z.of_nat (len current)) ->
    FairnessEvaluator.evaluate (concat current batch) attrs st1 = (Ok score, st2) ->
    fgt score baseline = true ->
    batch_rounds data target attrs baseline (S left) current st (concat current batch) st2
| rounds_reject (left : nat) (current : DataFrame) (st : State)
                (batch : DataFrame) (st1 : State) (score : pyfloat) (st2 : State)
                (final : DataFrame) (st3 : State) :
    _generate_synthetic_samples data (target - Z.of_nat (len current)) st = (Ok batch, st1) ->
    len batch = Z.to_nat (target - Z.of_nat (len current)) ->
    FairnessEvaluator.evaluate (concat current batch) attrs st1 = (Ok score, st2) ->
    fgt score baseline = false ->
    batch_rounds data target attrs baseline left current st2 final st3 ->
    batch_rounds data target attrs baseline (S left) current st final st3.

(** A call that never runs out of fuel. *)
Definition halts {A} (m : M A) : Prop := forall st, fst (m st) <> Diverge.

(** Every row has one cell per column. *)
Definition aligned (d : DataFrame) : Prop :=
  Forall (fun r => length r = length (columns d)) (rows d).

(** Row [s] has the cells of row [r] in the columns named in [names]. *)
Definition agree_on (d : DataFrame) (names : list string) (r s : list value) : Prop :=
  forall a i, In a names -> col_index a (columns d) = Some i -> cell i s = cell i r.

(** Powers of two, as rationals. *)
Fixpoint pow2 (f : nat) : Q :=
  match f with
  | O => 1%Q
  | S f' => (2 * pow2 f')%Q
  end.

(** A measured fairness is close when it lies strictly within the tolerance
    of the target score. *)
Definition close (target fairness : pyfloat) : bool :=
  flt (fabs (fsub fairness target)) (Fl tolerance).

(** [halved data config target low high st trials lo hi st']: starting on
    the bracket [low, high] in the state [st], the search made [trials] one
    after another, each recorded as the coefficient tried and the fairness
    measured.  Each was made at the midpoint of the bracket of that moment,
    which was wider than the tolerance, and in the state the trial before
    had left.  None came close to the target, and each halved the bracket:
    to its upper half when the fairness measured was below the target, to
    its lower half otherwise.  [lo, hi] is the bracket and [st'] the state
    after the last of them. *)
Inductive halved (data : DataFrame) (config : Config) (target : pyfloat)
  : Q -> Q -> State -> list (Q * pyfloat) -> Q -> Q -> State -> Prop :=
| halved_none (low high : Q) (st : State) :
    halved data config target low high st [] low high st
| halved_trial (low high : Q) (st : State) (fairness : pyfloat) (st1 : State)
               (trials : list (Q * pyfloat)) (lo hi : Q) (st' : State) :
    (tolerance < high - low)%Q ->
    trial data config ((low + high) / 2) st = (Ok fairness, st1) ->
    close target fairness = false ->
    halved data config target
           (if flt fairness target then (low + high) / 2 else low)%Q
           (if flt fairness target then high else (low + high) / 2)%Q
           st1 trials lo hi st' ->
    halved data config target low high st
           ((((low + high) / 2)%Q, fairness) :: trials) lo hi st'.

(** How a search that has come to the bracket [lo, hi] in the state [s]
    ends: it returns the midpoint of that bracket, either because the
    bracket is still wider than the tolerance and the trial it makes there
    comes close to the target, or because the bracket is no wider than the
    tolerance, and then without a trial. *)
Definition ends_on (data : DataFrame) (config : Config) (target : pyfloat)
           (lo hi : Q) (s : State) (c : Q) (st' : State) : Prop :=
  c = ((lo + hi) / 2)%Q /\
  (((tolerance < hi - lo)%Q /\
    exists fairness,
      trial data config c s = (Ok fairness, st') /\ close target fairness = true) \/
   ((hi - lo <= tolerance)%Q /\ st' = s)).

(** A whole search over [low, high] from the state [st] that returns [c]
    in the state [st']: at most ten trials that were not close, which
    halved [low, high] to a bracket [lo, hi] inside it, and the end on the
    midpoint of [lo, hi]. *)
Definition searched (data : DataFrame) (config : Config) (target : pyfloat)
           (low high : Q) (st : State) (c : Q) (st' : State) : Prop :=
  exists trials lo hi s,
    halved data config target low high st trials lo hi s /\
    length trials <= 10 /\
    ((hi - lo) * pow2 (length trials) == high - low)%Q /\
    (low <= lo)%Q /\ (lo <= hi)%Q /\ (hi <= high)%Q /\
    ends_on data config target lo hi s c st'.

(** The discrete measure as the specification states it: the count of a
    subgroup is the number of selected rows that satisfy all of its
    (attribute, value) pairs. *)
Definition subgroup_count (data : DataFrame) (selected : list nat) (c : combo) : Z :=
  Z.of_nat (length (filter (fun i => matches data c (nth i (rows data) [])) selected)).

Definition discrete_fairness (data : DataFrame) (selected : list nat)
           (count : list (combo * nat)) : result pyfloat :=
  let counts := map (subgroup_count data selected) (dict_keys count) in
  rbind (py_min_int counts) (fun min_count =>
  rbind (py_max_int counts) (fun max_count =>
  rbind (py_truediv (max_count - min_count) (Z.of_nat (length selected)))
        (fun q => Ok (fsub (Fl 1) q)))).

(** The values a row has in the listed columns. *)
Definition project (data : DataFrame) (attrs : list string) (r : list value)
  : list (result value) :=
  map (row_getitem data r) attrs.

(** The calibration loop when every trial measures the same fairness:
    [close] tells whether that fairness is within the tolerance of the
    target, [below] whether it is below the target. *)
Fixpoint bisect (fuel : nat) (close below : bool) (low high : Q) : option Q :=
  match fuel with
  | O => None
  | S f =>
      if Qltb tolerance (high - low) then
        let mid := ((low + high) / 2)%Q in
        if close then Some mid
        else if below then bisect f close below mid high
             else bisect f close below low mid
      else Some ((low + high) / 2)%Q
  end.

(** What the synthesis may write into a column it redraws: for an integer
    column a number equal to an integer between the least and the greatest
    value of the column, for a text column one of the values of the column;
    a categorical column is never redrawn, and float and other columns are
    not constrained here. *)
Definition redrawn_within (data : DataFrame) (column : string * dtype) (v : value) : Prop :=
  match getitem data (fst column), snd column with
  | Ok col, Integer =>
      exists z, value_eqb v (VInt z) = true /\ (column_min col <= z <= column_max col)%Z
  | Ok col, ObjectDtype => In v col
  | _, Category => False
  | _, _ => True
  end.

(** A pair (attribute, value) whose attribute is listed and whose value
    occurs in the column of that attribute. *)
Definition observed_pair (data : DataFrame) (attrs : list string) (p : string * value)
  : Prop :=
  In (fst p) attrs /\
  exists col, getitem data (fst p) = Ok col /\ In (snd p) col.

(** The positions of the rows of [data] that have the subgroup [c]. *)
Definition members (data : DataFrame) (c : combo) : list nat :=
  filter (fun i => matches data c (nth i (rows data) [])) (seq 0 (len data)).

(** The cell value [identify_sensitive_attributes] writes into the column
    of a listed attribute. *)
Definition marker (attr : string) : value := VStr ("sensitive_" ++ attr).

(* ================================================================= *)
(** ** Reasoning about the monad *)

Section MonadFacts.
Context {A B : Type}.

Lemma bind_Ok (m : M A) (f : A -> M B) st b st' :
  bind m f st = (Ok b, st') ->
  exists a st1, m st = (Ok a, st1) /\ f a st1 = (Ok b, st').
Proof.
  unfold bind. destruct (m st) as [[a | e |] st1]; intro H.
  - exists a, st1. split; [reflexivity | exact H].
  - discriminate.
  - discriminate.
Qed.

Lemma bind_step (m : M A) (f : A -> M B) st a st1 :
  m st = (Ok a, st1) -> bind m f st = f a st1.
Proof. unfold bind. intros ->. reflexivity. Qed.

Lemma bind_Raise (m : M A) (f : A -> M B) st e st1 :
  m st = (Raise e, st1) -> bind m f st = (Raise e, st1).
Proof. unfold bind. intros ->. reflexivity. Qed.

Lemma lift_Ok (r : result A) st a st' :
  lift r st = (Ok a, st') -> r = Ok a /\ st' = st.
Proof. unfold lift. intro H. inversion H. split; reflexivity. Qed.

Lemma ret_Ok (x : A) st a st' :
  ret x st = (Ok a, st') -> a = x /\ st' = st.
Proof. unfold ret. intro H. inversion H. split; reflexivity. Qed.

End MonadFacts.

Ltac inv_bind H :=
  let a := fresh "a" in
  let s := fresh "s" in
  let H1 := fresh "Hm" in
  apply bind_Ok in H; destruct H as (a & s & H1 & H).

Tactic Notation "inv_bind_as" hyp(H) ident(a) ident(s) ident(Ha) :=
  apply bind_Ok in H; destruct H as (a & s & Ha & H).

Ltac inv_lift H :=
  let E := fresh "E" in
  apply lift_Ok in H; destruct H as [H E]; subst.

Ltac inv_ret H :=
  let E := fresh "E" in
  apply ret_Ok in H; destruct H as [H E]; subst.

(** ** Comparisons of floats *)

Lemma Qltb_irrefl (q : Q) : Qltb q q = false.
Proof.
  unfold Qltb. apply negb_false_iff. apply Qle_bool_iff. apply Qle_refl.
Qed.

Lemma flt_irrefl (a : pyfloat) : flt a a = false.
Proof. destruct a; simpl; [apply Qltb_irrefl | reflexivity]. Qed.

Lemma Qltb_lt (a b : Q) : Qltb a b = true <-> (a < b)%Q.
Proof.
  unfold Qltb. rewrite negb_true_iff. split.
  - intro H. apply Qnot_le_lt. intro L. apply Qle_bool_iff in L. congruence.
  - intro H. destruct (Qle_bool b a) eqn:E; [|reflexivity].
    apply Qle_bool_iff in E. exfalso. exact (Qlt_not_le _ _ H E).
Qed.

Lemma Qltb_ge (a b : Q) : Qltb a b = false <-> (b <= a)%Q.
Proof.
  unfold Qltb. rewrite negb_false_iff. apply Qle_bool_iff.
Qed.

(* ================================================================= *)
(** ** The oversampling branch and the solution argument *)

Lemma Qle_bool_false_of_lt (c : Q) : (1 < c)%Q -> Qle_bool c 1 = false.
Proof.
  intro H. destruct (Qle_bool c 1) eqn:E; [|reflexivity].
  apply Qle_bool_iff in E. exfalso. exact (Qlt_not_le _ _ H E).
Qed.

(** C10. With a coefficient above 1, [adjust_data] run from the same state
    (cache and random generators) returns the same frame, row delta and
    final state whatever solution it is given: the oversampling branch
    never reads it. *)
Theorem adjust_data_oversampling_ignores_solution
  (data : DataFrame) (s1 s2 : Solution) (c : Q) (attrs : list string) (st : State) :
  (1 < c)%Q ->
  adjust_data data s1 c attrs st = adjust_data data s2 c attrs st.
Proof.
  intro Hc. unfold adjust_data, bind.
  destruct (FairnessEvaluator.evaluate data attrs st) as [[f | e |] st1]; try reflexivity.
  rewrite (Qle_bool_false_of_lt Hc). reflexivity.
Qed.

Lemma adjust_data_oversampling_ignores_solution_witness :
  (1 < 3 # 2)%Q /\
  adjust_data Samples.aab {| selected_indices := [0]; fairness_score := Some (Fl 1) |}
              (3 # 2) ["group"%string] Samples.st0
  = adjust_data Samples.aab {| selected_indices := [2; 1]; fairness_score := None |}
                (3 # 2) ["group"%string] Samples.st0.
Proof.
  split.
  - reflexivity.
  - apply adjust_data_oversampling_ignores_solution. reflexivity.
Defined.

(* ================================================================= *)
(** ** The regression check of the orchestrator *)

(** C1. Whenever [optimize_fairness] returns, the final fairness it reports
    is not below the initial fairness; and if the score of the adjusted
    frame was below the baseline, the original frame is returned with the
    final fairness set to the initial one (otherwise the adjusted frame and
    its score are returned). *)
Theorem optimize_fairness_never_regresses
  (Solve : CpModel -> CpOutcome) (data : DataFrame) (config : Config)
  (st st' : State) (r : Outcome) :
  optimize_fairness Solve data config st = (Ok r, st') ->
  flt (final_fairness r) (initial_fairness r) = false /\
  exists (adjusted : DataFrame) (score : pyfloat),
    adjust_and_score Solve data config st
    = (Ok (initial_fairness r, optimized_fairness_score r, adjusted, score), st') /\
    (flt score (initial_fairness r) = true ->
       adjusted_data r = data /\ final_fairness r = initial_fairness r) /\
    (flt score (initial_fairness r) = false ->
       adjusted_data r = adjusted /\ final_fairness r = score).
Proof.
  intro H. unfold optimize_fairness in H. inv_bind H.
  destruct a as [[[init opt] adj] fin]. inv_ret H. simpl.
  unfold regression_check.
  destruct (flt fin init) eqn:E; simpl.
  - split; [apply flt_irrefl|]. exists adj, fin. rewrite E.
    split; [exact Hm|]. split; [intros _; split; reflexivity | discriminate].
  - split; [exact E|]. exists adj, fin. rewrite E.
    split; [exact Hm|]. split; [discriminate | intros _; split; reflexivity].
Qed.

(* ================================================================= *)
(** ** Lists: positions, pools and permutations *)

Lemma firstn_app_left {A} (a b : list A) : firstn (length a) (a ++ b) = a.
Proof.
  induction a as [|x a IH]; simpl; [destruct b; reflexivity | now rewrite IH].
Qed.

Lemma split_at {A} (l : list A) (j : nat) (d : A) :
  j < length l -> l = firstn j l ++ nth j l d :: skipn (S j) l.
Proof.
  revert j. induction l as [|x l IH]; intros j Hj; simpl in Hj; [lia|].
  destruct j as [|j]; simpl; [reflexivity|].
  f_equal. apply IH. lia.
Qed.

Lemma length_replace_at {A} (l : list A) (j : nat) (v : A) :
  j < length l -> length (firstn j l ++ v :: skipn (S j) l) = length l.
Proof.
  intro Hj. rewrite (split_at l v Hj) at 3.
  rewrite !length_app. simpl. reflexivity.
Qed.

(** One step of the pool algorithm removes exactly the picked element. *)
Lemma pool_step_perm (pool : list nat) (j : nat) :
  j < length pool ->
  Permutation
    (nth j pool 0 ::
     firstn (length pool - 1)
            (firstn j pool ++ nth (length pool - 1) pool 0 :: skipn (S j) pool))
    pool.
Proof.
  intro Hj.
  destruct (exists_last (l := pool)) as (a & l & ->).
  { intro E. subst. simpl in Hj. lia. }
  rewrite length_app in *. cbn [length] in *.
  replace (length a + 1 - 1) with (length a) by lia.
  assert (Hl : nth (length a) (a ++ [l]) 0 = l).
  { rewrite app_nth2 by lia. rewrite Nat.sub_diag. reflexivity. }
  rewrite Hl.
  destruct (Nat.eq_dec j (length a)) as [-> | Hne].
  - rewrite firstn_app_left, Hl.
    rewrite skipn_all2 by (rewrite length_app; simpl; lia).
    rewrite firstn_app_left. apply Permutation_cons_append.
  - assert (Hja : j < length a) by lia.
    rewrite app_nth1 by lia.
    assert (F : firstn j (a ++ [l]) = firstn j a).
    { rewrite firstn_app. replace (j - length a) with 0 by lia.
      cbn [firstn]. apply app_nil_r. }
    assert (K : skipn (S j) (a ++ [l]) = skipn (S j) a ++ [l]).
    { rewrite skipn_app. replace (S j - length a) with 0 by lia. reflexivity. }
    rewrite F, K.
    replace (firstn j a ++ l :: skipn (S j) a ++ [l])
      with ((firstn j a ++ l :: skipn (S j) a) ++ [l])
      by (rewrite <- app_assoc; reflexivity).
    rewrite <- (length_replace_at a l Hja) at 1.
    rewrite firstn_app_left.
    rewrite (split_at a 0 Hja) at 4.
    rewrite <- app_assoc. cbn [app].
    apply Permutation_cons_app. apply Permutation_app_head.
    apply Permutation_cons_append.
Qed.

Lemma sample_pool_S (pool : list nat) (k : nat) (t : Tape) :
  sample_pool pool (S k) t =
  let j := draws t (pos t) mod length pool in
  let r := sample_pool (pool_after pool j) k {| draws := draws t; pos := S (pos t) |} in
  (nth j pool 0 :: fst r, snd r).
Proof.
  cbn [sample_pool]. unfold randbelow, next, pool_after. cbv zeta.
  destruct (sample_pool _ k _). reflexivity.
Qed.

(** [random.sample]: as many elements as asked for, all distinct, all taken
    from the pool. *)
Lemma sample_pool_spec (k : nat) : forall (pool : list nat) (t : Tape),
  NoDup pool -> k <= length pool ->
  let l := fst (sample_pool pool k t) in
  length l = k /\ NoDup l /\ incl l pool.
Proof.
  induction k as [|k IH]; intros pool t Hnd Hk.
  - simpl. split; [reflexivity|]. split; [constructor | intros x []].
  - rewrite sample_pool_S. cbv zeta. cbn [fst].
    set (j := draws t (pos t) mod length pool).
    assert (Hj : j < length pool) by (apply Nat.mod_upper_bound; lia).
    pose proof (pool_step_perm pool Hj) as P. fold (pool_after pool j) in P.
    assert (Hnd' : NoDup (nth j pool 0 :: pool_after pool j)).
    { eapply Permutation_NoDup; [symmetry; exact P | exact Hnd]. }
    assert (Hlen : S (length (pool_after pool j)) = length pool).
    { apply Permutation_length in P. exact P. }
    inversion Hnd' as [|? ? Hnotin Hnd'']; subst.
    specialize (IH (pool_after pool j) {| draws := draws t; pos := S (pos t) |}
                   Hnd'' ltac:(lia)).
    cbv zeta in IH. destruct IH as (L & N & I).
    split; [cbn [length]; now rewrite L|]. split.
    + constructor; [|exact N]. intro Hin. apply Hnotin. apply I. exact Hin.
    + intros y [<- | Hy].
      * eapply Permutation_in; [exact P | left; reflexivity].
      * eapply Permutation_in; [exact P | right; apply I; exact Hy].
Qed.

(* ================================================================= *)
(** ** Selections returned by the solver stage *)

Lemma random_randint_range (a b : Z) st v st' :
  random_randint a b st = (Ok v, st') -> (a <= v <= b)%Z.
Proof.
  unfold random_randint, randbelow, next.
  destruct (b <? a)%Z eqn:E; [discriminate|].
  apply Z.ltb_ge in E. intro H. inversion H; subst. clear H.
  assert (draws (py_random st) (pos (py_random st)) mod Z.to_nat (b - a + 1)
          < Z.to_nat (b - a + 1)) by (apply Nat.mod_upper_bound; lia).
  lia.
Qed.

Lemma random_sample_range_valid (n : nat) (k : Z) st l st' :
  random_sample_range n k st = (Ok l, st') ->
  (0 <= k <= Z.of_nat n)%Z /\ valid_selection n (Z.to_nat k) l.
Proof.
  unfold random_sample_range.
  destruct ((k <? 0)%Z || (Z.of_nat n <? k)%Z) eqn:E; [discriminate|].
  apply orb_false_iff in E. destruct E as [E1 E2].
  apply Z.ltb_ge in E1. apply Z.ltb_ge in E2.
  pose proof (@sample_pool_spec (Z.to_nat k) (seq 0 n) (py_random st)
                (seq_NoDup n 0)) as HS.
  rewrite length_seq in HS. specialize (HS ltac:(lia)). cbv zeta in HS.
  destruct (sample_pool (seq 0 n) (Z.to_nat k) (py_random st)) as [l0 t].
  intro H. inversion H; subst. clear H. simpl in HS.
  destruct HS as (L & N & I).
  split; [lia|]. split; [exact L|]. split; [exact N|].
  apply Forall_forall. intros i Hi. apply I in Hi. apply in_seq in Hi. lia.
Qed.

Lemma existsb_eqb_false (i : nat) (l : list nat) :
  existsb (Nat.eqb i) l = false -> ~ In i l.
Proof.
  intros E Hin.
  assert (existsb (Nat.eqb i) l = true).
  { apply existsb_exists. exists i. split; [exact Hin | apply Nat.eqb_refl]. }
  congruence.
Qed.

Lemma list_assign_valid (n k : nat) (l l' : list nat) (j v : nat) :
  list_assign l j v = Ok l' ->
  ~ In v l -> v < n -> valid_selection n k l -> valid_selection n k l'.
Proof.
  unfold list_assign. destruct (j <? length l) eqn:E; [|discriminate].
  apply Nat.ltb_lt in E. intro H. injection H as <-.
  change (match l with [] => [] | _ :: l0 => skipn j l0 end) with (skipn (S j) l).
  intros Hv Hn (L & N & F).
  pose proof (split_at l 0 E) as HS.
  rewrite HS in N, F, Hv.
  apply NoDup_remove in N. destruct N as [N1 N2].
  split; [rewrite length_replace_at by exact E; exact L|]. split.
  - apply NoDup_Add with (a := v) (l := firstn j l ++ skipn (S j) l).
    + apply Add_app.
    + split; [exact N1|]. intro Hin. apply Hv.
      apply in_app_or in Hin. apply in_or_app.
      destruct Hin as [Hin | Hin]; [left; exact Hin | right; right; exact Hin].
  - apply Forall_app in F. destruct F as [F1 F2].
    apply Forall_app. split; [exact F1|].
    inversion F2; subst. constructor; assumption.
Qed.

Lemma local_search_valid (trials : nat) : forall n ssz cnt sel f st sel' f' st' k,
  local_search trials n ssz cnt sel f st = (Ok (sel', f'), st') ->
  valid_selection n k sel -> valid_selection n k sel'.
Proof.
  induction trials as [|t IH]; intros n ssz cnt sel f st sel' f' st' k H V.
  - cbn [local_search] in H. inv_ret H. inversion H; subst. exact V.
  - cbn [local_search] in H. inv_bind H.
    apply random_randint_range in Hm.
    destruct (negb (existsb (Nat.eqb (Z.to_nat a)) sel)) eqn:E.
    + apply negb_true_iff in E. apply existsb_eqb_false in E.
      inv_bind H. inv_bind H. inv_lift Hm1. inv_bind H. inv_lift Hm2.
      destruct (fgt a2 f).
      * eapply IH; [exact H|].
        eapply list_assign_valid; [exact Hm1 | exact E | lia | exact V].
      * eapply IH; [exact H | exact V].
    + eapply IH; [exact H | exact V].
Qed.

Lemma improved_solution_valid (n : nat) (c : Q) cd init st sol st' :
  _generate_improved_solution n c cd init st = (Ok sol, st') ->
  let ssz := Z.min (py_int (inject_Z (Z.of_nat n) * c)) (Z.of_nat n) in
  (0 <= ssz)%Z /\ valid_selection n (Z.to_nat ssz) (selected_indices sol).
Proof.
  unfold _generate_improved_solution. intro H. cbv zeta. inv_bind H.
  apply random_sample_range_valid in Hm. destruct Hm as [R V].
  split; [lia|].
  destruct (count cd) as [|p t].
  - inv_ret H. exact V.
  - inv_bind H. inv_bind H. inv_ret H. simpl.
    destruct a1 as [sel' f']. simpl.
    eapply local_search_valid; [exact Hm0 | exact V].
Qed.

(** The generator's model: one boolean per row and the cardinality
    constraint. *)
Lemma count_loop_keeps data : forall combinations j cnt cs cnt' cs' c,
  count_loop data combinations j cnt cs = Ok (cnt', cs') -> In c cs -> In c cs'.
Proof.
  induction combinations as [|x t IH]; intros j cnt cs cnt' cs' c H Hin.
  - simpl in H. inversion H; subst. exact Hin.
  - simpl in H. destruct (rows_with data x 0 (rows data)) as [terms | e |];
      simpl in H; try discriminate.
    eapply IH; [exact H|]. apply in_or_app. left. exact Hin.
Qed.

Lemma generate_constraints_shape data config cd :
  generate_constraints data config = Ok cd ->
  x cd = seq 0 (len data) /\
  bool_vars (model cd) = len data /\
  In (SumEq (py_int (inject_Z (Z.of_nat (len data)) * coefficient config)))
     (constraints (model cd)).
Proof.
  unfold generate_constraints. cbv zeta.
  destruct (_get_combinations data (sensitive_attributes config)) as [cs | e |];
    simpl; try discriminate.
  destruct (count_loop data cs 0 [] _) as [[cnt cs'] | e |] eqn:E;
    simpl; try discriminate.
  intro H. inversion H; subst. clear H. simpl.
  split; [reflexivity|]. split; [reflexivity|].
  apply in_or_app. left. eapply count_loop_keeps; [exact E | left; reflexivity].
Qed.

Lemma satisfies_holds m a c :
  satisfies m a = true -> In c (constraints m) -> holds (bool_vars m) a c = true.
Proof.
  unfold satisfies. intros H Hin.
  apply andb_true_iff in H. destruct H as [_ H].
  rewrite forallb_forall in H. apply H. exact Hin.
Qed.

Lemma filter_seq_valid (f : nat -> bool) (n : nat) :
  valid_selection n (length (filter f (seq 0 n))) (filter f (seq 0 n)).
Proof.
  split; [reflexivity|]. split.
  - apply NoDup_filter. apply seq_NoDup.
  - apply Forall_forall. intros i Hi. apply filter_In in Hi.
    destruct Hi as [Hi _]. apply in_seq in Hi. lia.
Qed.

Lemma filter_nth_seq (f : nat -> bool) (n : nat) :
  filter (fun i => f (nth i (seq 0 n) 0)) (seq 0 n) = filter f (seq 0 n).
Proof.
  apply filter_ext_in. intros i Hi. apply in_seq in Hi.
  rewrite seq_nth by lia. reflexivity.
Qed.

(** Every solution [solve] returns selects [k = int(n * coefficient)]
    distinct rows of the frame, provided [k] does not exceed [n]. *)
Lemma solve_valid Solve data config cd init st sol st' :
  generate_constraints data config = Ok cd ->
  sound_on Solve (model cd) ->
  let k := py_int (inject_Z (Z.of_nat (len data)) * coefficient config) in
  (k <= Z.of_nat (len data))%Z ->
  solve Solve cd (coefficient config) init st = (Ok sol, st') ->
  (0 <= k)%Z /\ valid_selection (len data) (Z.to_nat k) (selected_indices sol).
Proof.
  intros G HS k Hk H.
  destruct (generate_constraints_shape _ _ G) as (Hx & Hb & Hsum).
  fold k in Hsum.
  assert (Himp : forall s, _generate_improved_solution (length (x cd)) (coefficient config)
                             cd init st = (Ok s, st') ->
                 (0 <= k)%Z /\ valid_selection (len data) (Z.to_nat k) (selected_indices s)).
  { intros s Hs. rewrite Hx, length_seq in Hs.
    apply improved_solution_valid in Hs. cbv zeta in Hs. fold k in Hs.
    rewrite Z.min_l in Hs by exact Hk. exact Hs. }
  unfold solve in H. cbv zeta in H.
  destruct (has_solution (status (Solve (model cd)))) eqn:E; [|apply Himp; exact H].
  destruct (fle _ init); [apply Himp; exact H|].
  inv_ret H. simpl.
  specialize (HS E). pose proof (satisfies_holds _ _ _ HS Hsum) as Hh.
  simpl in Hh. rewrite Hb in Hh. apply Z.eqb_eq in Hh.
  rewrite Hx, length_seq, filter_nth_seq.
  split; [lia|].
  replace (Z.to_nat k)
    with (length (filter (BooleanValue (Solve (model cd))) (seq 0 (len data)))) by lia.
  apply filter_seq_valid.
Qed.

(* ================================================================= *)
(** ** The target size *)

Lemma py_int_floor (q : Q) : (0 <= q)%Q -> py_int q = Qfloor q.
Proof.
  destruct q as [n d]. unfold Qle, py_int, Qfloor. simpl. intro H.
  apply Z.quot_div_nonneg; lia.
Qed.

Lemma scaled_nonneg (n : nat) (c : Q) :
  (0 <= c)%Q -> (0 <= inject_Z (Z.of_nat n) * c)%Q.
Proof.
  intro H. apply Qmult_le_0_compat; [|exact H].
  unfold Qle, inject_Z. simpl. lia.
Qed.

Lemma target_le_size (n : nat) (c : Q) :
  (0 <= c)%Q -> (c <= 1)%Q ->
  (py_int (inject_Z (Z.of_nat n) * c) <= Z.of_nat n)%Z.
Proof.
  intros H0 H1. rewrite py_int_floor by (apply scaled_nonneg; exact H0).
  rewrite <- (Qfloor_Z (Z.of_nat n)) at 2.
  apply Qfloor_resp_le.
  assert (Hn : (0 <= inject_Z (Z.of_nat n))%Q) by (unfold Qle, inject_Z; simpl; lia).
  pose proof (@Qmult_le_compat_nonneg (inject_Z (Z.of_nat n)) (inject_Z (Z.of_nat n)) c 1
                (conj Hn (Qle_refl _)) (conj H0 H1)) as M.
  rewrite Qmult_1_r in M. exact M.
Qed.

Lemma target_at_one (n : nat) (c : Q) :
  (c == 1)%Q -> py_int (inject_Z (Z.of_nat n) * c) = Z.of_nat n.
Proof.
  intro H. rewrite py_int_floor.
  - rewrite H, Qmult_1_r. apply Qfloor_Z.
  - apply scaled_nonneg. rewrite H. discriminate.
Qed.

(* ================================================================= *)
(** ** Undersampling *)

Lemma iloc_valid (data : DataFrame) (sel : list nat) (k : nat) :
  valid_selection (len data) k sel ->
  iloc data sel = Ok {| columns := columns data;
                        rows := map (fun i => nth i (rows data) []) sel |}.
Proof.
  intros (_ & _ & F). unfold iloc.
  replace (forallb (fun i => i <? len data) sel) with true; [reflexivity|].
  symmetry. apply forallb_forall. intros i Hi.
  rewrite Forall_forall in F. apply Nat.ltb_lt. apply F. exact Hi.
Qed.

Lemma adjust_data_undersampling data sol c attrs k st f st1 :
  Qle_bool c 1 = true ->
  valid_selection (len data) k (selected_indices sol) ->
  FairnessEvaluator.evaluate data attrs st = (Ok f, st1) ->
  adjust_data data sol c attrs st
  = (Ok ({| columns := columns data;
            rows := map (fun i => nth i (rows data) []) (selected_indices sol) |},
         (Z.of_nat (len data) - Z.of_nat k)%Z), st1).
Proof.
  intros Hc V E. unfold adjust_data. rewrite bind_step with (1 := E). rewrite Hc.
  rewrite iloc_valid with (1 := V). unfold bind, lift, ret, len. simpl.
  rewrite length_map. destruct V as (L & _). rewrite L. reflexivity.
Qed.

Lemma adjust_data_Ok_evaluate data sol c attrs st r st' :
  adjust_data data sol c attrs st = (Ok r, st') ->
  exists f st1, FairnessEvaluator.evaluate data attrs st = (Ok f, st1).
Proof.
  unfold adjust_data. intro H. inv_bind H. eauto.
Qed.


(* ================================================================= *)
(** ** The evaluator and its cache *)

Lemma key_eqb_refl (a : list string) : FairnessEvaluator.key_eqb a a = true.
Proof.
  unfold FairnessEvaluator.key_eqb. rewrite Nat.eqb_refl. simpl.
  induction a as [|x a IH]; simpl; [reflexivity|].
  rewrite String.eqb_refl. exact IH.
Qed.

Lemma dict_get_set_same {V} (k : list string) (v : V) d :
  dict_get FairnessEvaluator.key_eqb k d = None ->
  dict_get FairnessEvaluator.key_eqb k (dict_set FairnessEvaluator.key_eqb k v d) = Some v.
Proof.
  induction d as [|[k' v'] d IH]; simpl; intro H.
  - rewrite key_eqb_refl. reflexivity.
  - destruct (FairnessEvaluator.key_eqb k' k) eqn:E; [discriminate|].
    simpl. rewrite E. apply IH. exact H.
Qed.

Lemma dict_get_set_other {V} (k k2 : list string) (v v2 : V) d :
  dict_get FairnessEvaluator.key_eqb k2 d = None ->
  dict_get FairnessEvaluator.key_eqb k d = Some v ->
  dict_get FairnessEvaluator.key_eqb k (dict_set FairnessEvaluator.key_eqb k2 v2 d) = Some v.
Proof.
  induction d as [|[k' v'] d IH]; simpl; intros H2 H.
  - discriminate.
  - destruct (FairnessEvaluator.key_eqb k' k2) eqn:E2; [discriminate|].
    simpl. destruct (FairnessEvaluator.key_eqb k' k); [exact H|].
    apply IH; assumption.
Qed.

Lemma evaluate_hit data attrs st C :
  entry attrs st = Some C ->
  FairnessEvaluator.evaluate data attrs st = (score_over data C, st).
Proof.
  unfold entry. intro H.
  unfold FairnessEvaluator.evaluate, FairnessEvaluator._get_combinations, bind, lift, ret,
    score_over.
  rewrite H.
  destruct (FairnessEvaluator._calculate_supports data C) as [s | e |]; simpl; try reflexivity.
  destruct (py_max (dict_values s)) as [mx | e |]; simpl; try reflexivity.
  destruct (py_min (dict_values s)) as [mn | e |]; simpl; reflexivity.
Qed.

Lemma evaluate_miss data attrs st :
  entry attrs st = None ->
  FairnessEvaluator.evaluate data attrs st =
  match all_combinations data attrs with
  | Ok C => (score_over data C,
             with_cache (dict_set FairnessEvaluator.key_eqb attrs C (combinations_cache st)) st)
  | Raise e => (Raise e, st)
  | Diverge => (Diverge, st)
  end.
Proof.
  unfold entry. intro H.
  unfold FairnessEvaluator.evaluate, FairnessEvaluator._get_combinations, bind, lift, ret,
    score_over.
  rewrite H.
  destruct (all_combinations data attrs) as [C | e |]; try reflexivity.
  destruct (FairnessEvaluator._calculate_supports data C) as [s | e |]; simpl; try reflexivity.
  destruct (py_max (dict_values s)) as [mx | e |]; simpl; try reflexivity.
  destruct (py_min (dict_values s)) as [mn | e |]; simpl; reflexivity.
Qed.

(** After a successful evaluation a universe is cached for the attribute
    list, and the score is the score over it. *)
Lemma evaluate_Ok_entry data attrs st f st' :
  FairnessEvaluator.evaluate data attrs st = (Ok f, st') ->
  exists C, entry attrs st' = Some C /\ score_over data C = Ok f.
Proof.
  destruct (entry attrs st) as [C|] eqn:E.
  - rewrite evaluate_hit with (1 := E). intro H. injection H as H1 H2. subst.
    exists C. split; assumption.
  - rewrite evaluate_miss with (1 := E).
    destruct (all_combinations data attrs) as [C | e |]; try discriminate.
    intro H. injection H as H1 H2. subst. exists C. split; [|exact H1].
    unfold entry, with_cache. simpl. apply dict_get_set_same. exact E.
Qed.

Lemma keeps_evaluate attrs data attrs' : keeps attrs (FairnessEvaluator.evaluate data attrs').
Proof.
  intros C st r st' HC H.
  destruct (entry attrs' st) as [C'|] eqn:E.
  - rewrite evaluate_hit with (1 := E) in H. injection H as _ <-. exact HC.
  - rewrite evaluate_miss with (1 := E) in H.
    destruct (all_combinations data attrs') as [C' | e |];
      injection H as _ <-; try exact HC.
    unfold entry, with_cache. simpl. apply dict_get_set_other; assumption.
Qed.

Section Keeps.
Variable attrs : list string.

Lemma keeps_ret {A} (a : A) : keeps attrs (ret a).
Proof. intros C st r st' HC H. injection H as _ <-. exact HC. Qed.

Lemma keeps_raise {A} (e : exn) : keeps attrs (@raise A e).
Proof. intros C st r st' HC H. injection H as _ <-. exact HC. Qed.

Lemma keeps_lift {A} (x : result A) : keeps attrs (lift x).
Proof. intros C st r st' HC H. injection H as _ <-. exact HC. Qed.

Lemma keeps_bind {A B} (m : M A) (f : A -> M B) :
  keeps attrs m -> (forall a, keeps attrs (f a)) -> keeps attrs (bind m f).
Proof.
  intros Hm Hf C st r st' HC H. unfold bind in H.
  destruct (m st) as [[a | e |] st1] eqn:E.
  - eapply Hf; [eapply Hm; [exact HC | exact E] | exact H].
  - injection H as _ <-. eapply Hm; [exact HC | exact E].
  - injection H as _ <-. eapply Hm; [exact HC | exact E].
Qed.

(** Calls that only move the random generators. *)
Lemma keeps_random_randint a b : keeps attrs (random_randint a b).
Proof.
  intros C st r st' HC H. unfold random_randint in H.
  destruct (b <? a)%Z; [injection H as _ <-; exact HC|].
  destruct (randbelow _ _). injection H as _ <-. exact HC.
Qed.

Lemma keeps_random_sample_range n k : keeps attrs (random_sample_range n k).
Proof.
  intros C st r st' HC H. unfold random_sample_range in H.
  destruct (_ || _)%bool; [injection H as _ <-; exact HC|].
  destruct (sample_pool _ _ _). injection H as _ <-. exact HC.
Qed.

Lemma keeps_np_random_choice {A} (l : list A) : keeps attrs (np_random_choice l).
Proof.
  intros C st r st' HC H. unfold np_random_choice in H.
  destruct l; [injection H as _ <-; exact HC|].
  destruct (randbelow _ _). injection H as _ <-. exact HC.
Qed.

Lemma keeps_np_random_randint a b : keeps attrs (np_random_randint a b).
Proof.
  intros C st r st' HC H. unfold np_random_randint in H.
  destruct (b <=? a)%Z; [injection H as _ <-; exact HC|].
  destruct (randbelow _ _). injection H as _ <-. exact HC.
Qed.

Lemma keeps_np_random_normal : keeps attrs np_random_normal.
Proof.
  intros C st r st' HC H. unfold np_random_normal in H.
  destruct (next _). injection H as _ <-. exact HC.
Qed.

Lemma keeps_sample_one d : keeps attrs (sample_one d).
Proof.
  intros C st r st' HC H. unfold sample_one in H.
  destruct (rows d); [injection H as _ <-; exact HC|].
  destruct (randbelow _ _). injection H as _ <-. exact HC.
Qed.

Lemma keeps_foldM {A B} (f : B -> A -> M B) (l : list A) :
  (forall b a, keeps attrs (f b a)) -> forall b, keeps attrs (foldM f l b).
Proof.
  intro Hf. induction l as [|x l IH]; intro b; simpl.
  - apply keeps_ret.
  - apply keeps_bind; [apply Hf | intro; apply IH].
Qed.

End Keeps.

Create HintDb keeps.

#[local] Hint Resolve keeps_ret keeps_raise keeps_lift keeps_evaluate keeps_random_randint
  keeps_random_sample_range keeps_np_random_choice keeps_np_random_randint
  keeps_np_random_normal keeps_sample_one : keeps.

Ltac keeps_step :=
  match goal with
  | |- keeps _ (bind _ _) => apply keeps_bind; [|intro]
  | |- keeps _ (foldM _ _ _) => apply keeps_foldM; intros
  | |- keeps _ (if ?b then _ else _) => destruct b
  | |- keeps _ (match ?x with _ => _ end) => destruct x
  | |- keeps _ _ => solve [auto with keeps]
  end.

Lemma keeps_local_search attrs trials : forall n ssz cnt sel f,
  keeps attrs (local_search trials n ssz cnt sel f).
Proof.
  induction trials as [|t IH]; intros; cbn [local_search]; repeat keeps_step; apply IH.
Qed.

Lemma keeps_solve attrs Solve cd c init : keeps attrs (solve Solve cd c init).
Proof.
  assert (H : keeps attrs (_generate_improved_solution (length (x cd)) c cd init)).
  { unfold _generate_improved_solution. repeat keeps_step.
    apply keeps_local_search. }
  unfold solve. cbv zeta. repeat keeps_step; exact H.
Qed.

Lemma keeps_synthetic attrs data n : keeps attrs (_generate_synthetic_samples data n).
Proof.
  unfold _generate_synthetic_samples. cbv zeta. apply keeps_bind; [|intro; apply keeps_ret].
  generalize (filter startswith_sensitive (map fst (columns data))). intro sens.
  induction (Z.to_nat n) as [|k IH]; cbn [synthetic_loop]; [apply keeps_ret|].
  apply keeps_bind; [|intro; apply keeps_bind; [exact IH | intro; apply keeps_ret]].
  unfold synthetic_sample, perturb. repeat keeps_step.
Qed.

Lemma keeps_oversample attrs rounds : forall data target attrs' init adjusted,
  keeps attrs (oversample rounds data target attrs' init adjusted).
Proof.
  induction rounds as [|r IH]; intros; cbn [oversample]; [apply keeps_ret|].
  apply keeps_bind; [apply keeps_synthetic | intro].
  apply keeps_bind; [apply keeps_evaluate | intro].
  destruct (fgt _ _); [apply keeps_ret | apply IH].
Qed.

Lemma keeps_adjust_data attrs data sol c attrs' : keeps attrs (adjust_data data sol c attrs').
Proof.
  unfold adjust_data. cbv zeta. repeat keeps_step. apply keeps_oversample.
Qed.

Lemma keeps_binary_search attrs fuel : forall data config opt low high,
  keeps attrs (binary_search fuel data config opt low high).
Proof.
  induction fuel as [|f IH]; intros; cbn [binary_search].
  - intros C st r st' HC H. injection H as _ <-. exact HC.
  - destruct (Qltb _ _); [|apply keeps_ret].
    apply keeps_bind.
    + unfold trial. apply keeps_bind; [apply keeps_adjust_data | intro; apply keeps_evaluate].
    + intro. destruct (flt _ _); [apply keeps_ret|]. destruct (flt _ _); apply IH.
Qed.

Lemma keeps_calibration attrs data config init opt :
  keeps attrs (calculate_optimal_coefficients data config init opt).
Proof.
  unfold calculate_optimal_coefficients.
  apply keeps_bind; [apply keeps_binary_search | intro].
  apply keeps_bind; [apply keeps_binary_search | intro; apply keeps_ret].
Qed.

(* ================================================================= *)
(** ** Supports count rows *)

Lemma fold_rbind_Raise {A B} (f : A -> B -> result A) (l : list B) (e : exn) :
  fold_left (fun acc b => rbind acc (fun a => f a b)) l (Raise e) = Raise e.
Proof. induction l as [|b l IH]; simpl; [reflexivity | exact IH]. Qed.

Lemma mask_and_map {A} (f g : A -> bool) (l : list A) :
  FairnessEvaluator.mask_and (map f l) (map g l) = map (fun r => f r && g r) l.
Proof.
  unfold FairnessEvaluator.mask_and.
  induction l as [|r l IH]; simpl; [reflexivity | now rewrite IH].
Qed.

Lemma combo_mask_from data : forall (c : combo) (f0 : list value -> bool),
  fold_left (fun acc p =>
               rbind acc (fun mask =>
               rbind (getitem data (fst p)) (fun col =>
               Ok (FairnessEvaluator.mask_and mask
                     (map (fun x => value_eqb x (snd p)) col)))))
            c (Ok (map f0 (rows data)))
  = match first_absent (columns data) (map fst c) with
    | Some a => Raise (KeyError a)
    | None => Ok (map (fun r => f0 r && matches data c r) (rows data))
    end.
Proof.
  induction c as [|p t IH]; intro f0.
  - simpl. f_equal. apply map_ext. intro r. now rewrite andb_true_r.
  - cbn [fold_left map first_absent rbind]. unfold getitem.
    destruct (col_index (fst p) (columns data)) as [i|] eqn:E; cbn [rbind].
    + rewrite map_map, mask_and_map, IH.
      destruct (first_absent (columns data) (map fst t)); [reflexivity|].
      f_equal. apply map_ext. intro r. cbn [matches forallb]. rewrite E.
      now rewrite andb_assoc.
    + apply (fold_rbind_Raise
               (fun mask p0 =>
                  rbind match col_index (fst p0) (columns data) with
                        | Some i => Ok (map (cell i) (rows data))
                        | None => Raise (KeyError (fst p0))
                        end
                        (fun col => Ok (FairnessEvaluator.mask_and mask
                                          (map (fun x => value_eqb x (snd p0)) col))))).
Qed.

Lemma combo_mask_spec data (c : combo) :
  FairnessEvaluator.combo_mask data c
  = match first_absent (columns data) (map fst c) with
    | Some a => Raise (KeyError a)
    | None => Ok (map (matches data c) (rows data))
    end.
Proof.
  unfold FairnessEvaluator.combo_mask, len.
  replace (repeat true (length (rows data))) with (map (fun _ => true) (rows data)).
  - rewrite combo_mask_from. reflexivity.
  - induction (rows data) as [|r l IH]; simpl; [reflexivity | now rewrite IH].
Qed.

Lemma mask_sum_map {A} (g : A -> bool) (l : list A) :
  FairnessEvaluator.mask_sum (map g l) = length (filter g l).
Proof.
  unfold FairnessEvaluator.mask_sum.
  induction l as [|r l IH]; simpl; [reflexivity|].
  destruct (g r); simpl; now rewrite IH.
Qed.

Lemma filter_length_perm {A} (g : A -> bool) (l l' : list A) :
  Permutation l l' -> length (filter g l) = length (filter g l').
Proof.
  induction 1 as [|a l l' P IH|a b l|l1 l2 l3 P1 IH1 P2 IH2]; simpl.
  - reflexivity.
  - destruct (g a); simpl; now rewrite IH.
  - destruct (g a), (g b); reflexivity.
  - congruence.
Qed.

Lemma fold_left_pointwise {A B} (f g : A -> B -> A) (l : list B) :
  (forall a b, f a b = g a b) -> forall a, fold_left f l a = fold_left g l a.
Proof.
  intro H. induction l as [|b l IH]; intro a; simpl; [reflexivity|].
  rewrite H. apply IH.
Qed.

(** The score over a fixed universe depends on the rows only up to their
    order. *)
Lemma score_over_perm (d d' : DataFrame) (C : list combo) :
  columns d' = columns d -> Permutation (rows d') (rows d) ->
  score_over d' C = score_over d C.
Proof.
  intros Hc Hp. unfold score_over. f_equal.
  unfold FairnessEvaluator._calculate_supports. cbv zeta.
  apply fold_left_pointwise. intros acc c. f_equal.
  assert (Hm : forall r, matches d' c r = matches d c r).
  { intro r. unfold matches. now rewrite Hc. }
  rewrite !combo_mask_spec, Hc.
  destruct (first_absent (columns d) (map fst c)); [reflexivity|].
  cbn [rbind]. rewrite !mask_sum_map.
  unfold len. rewrite (Permutation_length Hp).
  rewrite (filter_ext _ _ Hm).
  rewrite (filter_length_perm (matches d c) Hp). reflexivity.
Qed.

(* ================================================================= *)
(** ** Coefficient one *)

Lemma full_selection_perm (n : nat) (l : list nat) :
  valid_selection n n l -> Permutation l (seq 0 n).
Proof.
  intros (L & N & F).
  assert (I : incl l (seq 0 n)).
  { intros i Hi. rewrite Forall_forall in F. apply in_seq. specialize (F i Hi). lia. }
  apply NoDup_Permutation; [exact N | apply seq_NoDup|].
  intro i. split; [apply I|].
  apply NoDup_length_incl; [exact N | rewrite length_seq; lia | exact I].
Qed.

Lemma map_nth_seq {A} (l : list A) (d : A) :
  map (fun i => nth i l d) (seq 0 (length l)) = l.
Proof.
  induction l as [|a l IH]; simpl; [reflexivity|].
  f_equal. rewrite <- seq_shift, map_map. exact IH.
Qed.

Lemma adjust_data_undersampling_inv data sol c attrs k st r st' :
  Qle_bool c 1 = true ->
  valid_selection (len data) k (selected_indices sol) ->
  adjust_data data sol c attrs st = (Ok r, st') ->
  fst r = {| columns := columns data;
             rows := map (fun i => nth i (rows data) []) (selected_indices sol) |}.
Proof.
  intros Hc V H.
  destruct (adjust_data_Ok_evaluate _ _ _ _ _ H) as (f & st1 & E).
  rewrite adjust_data_undersampling with (1 := Hc) (2 := V) (3 := E) in H.
  injection H as <- _. reflexivity.
Qed.

(** C6. With a coefficient equal to 1, on the exact-solver path and on the
    heuristic path alike: the solution selects every row of the frame, each
    once; [adjust_data] returns the rows of the original frame, possibly in
    another order; and [optimize_fairness] reports a final fairness equal
    to the initial fairness, with such a frame as adjusted data. *)
Theorem coefficient_one_keeps_every_row
  (Solve : CpModel -> CpOutcome) (data : DataFrame) (config : Config)
  (cd : constraints_data) :
  (coefficient config == 1)%Q ->
  generate_constraints data config = Ok cd ->
  sound_on Solve (model cd) ->
  (forall init st sol st',
     solve Solve cd (coefficient config) init st = (Ok sol, st') ->
     Permutation (selected_indices sol) (seq 0 (len data)) /\
     forall st1 r st2,
       adjust_data data sol (coefficient config) (sensitive_attributes config) st1
       = (Ok r, st2) ->
       columns (fst r) = columns data /\ Permutation (rows (fst r)) (rows data)) /\
  (forall st r st',
     optimize_fairness Solve data config st = (Ok r, st') ->
     final_fairness r = initial_fairness r /\
     columns (adjusted_data r) = columns data /\
     Permutation (rows (adjusted_data r)) (rows data)).
Proof.
  intros H1 G HS.
  assert (Hc : Qle_bool (coefficient config) 1 = true).
  { apply Qle_bool_iff. rewrite H1. apply Qle_refl. }
  assert (Hsel : forall init st sol st',
             solve Solve cd (coefficient config) init st = (Ok sol, st') ->
             valid_selection (len data) (len data) (selected_indices sol)).
  { intros init st sol st' H.
    pose proof (target_at_one (len data) H1) as Hk.
    destruct (@solve_valid Solve data config cd init st sol st' G HS) as [_ V].
    - rewrite Hk. apply Z.le_refl.
    - exact H.
    - rewrite Hk, Nat2Z.id in V. exact V. }
  assert (Hadj : forall sol st1 r st2,
             valid_selection (len data) (len data) (selected_indices sol) ->
             adjust_data data sol (coefficient config) (sensitive_attributes config) st1
             = (Ok r, st2) ->
             columns (fst r) = columns data /\ Permutation (rows (fst r)) (rows data)).
  { intros sol st1 r st2 V H.
    rewrite adjust_data_undersampling_inv with (1 := Hc) (2 := V) (3 := H). simpl.
    split; [reflexivity|].
    eapply Permutation_trans.
    - apply Permutation_map. apply full_selection_perm. exact V.
    - unfold len. rewrite map_nth_seq. apply Permutation_refl. }
  split.
  - intros init st sol st' H. pose proof (Hsel _ _ _ _ H) as V.
    split; [apply full_selection_perm; exact V|].
    intros st1 r st2 Ha. eapply Hadj; [exact V | exact Ha].
  - intros st r st' H.
    unfold optimize_fairness in H. inv_bind H.
    destruct a as [[[init opt] adj] fin]. inv_ret H. cbn [final_fairness initial_fairness
      FairnessOptimizer.adjusted_data].
    unfold adjust_and_score in Hm.
    inv_bind_as Hm init0 s0 E0.
    inv_bind_as Hm cd0 s0' Hg. inv_lift Hg. rewrite G in Hg. injection Hg as <-.
    inv_bind_as Hm sol s1 Hsolve.
    inv_bind_as Hm opt0 s2 Hopt.
    inv_bind_as Hm cal s3 Hcal.
    inv_bind_as Hm ra s4 Ha.
    inv_bind_as Hm fin0 s5 Ef.
    inv_ret Hm. injection Hm as -> -> -> ->.
    destruct (evaluate_Ok_entry _ _ _ E0) as (C & HC & S0).
    assert (K1 : entry (sensitive_attributes config) s1 = Some C)
      by (eapply keeps_solve; [exact HC | exact Hsolve]).
    assert (K2 : entry (sensitive_attributes config) s2 = Some C).
    { destruct (fairness_score sol).
      - inv_ret Hopt. exact K1.
      - discriminate. }
    assert (K3 : entry (sensitive_attributes config) s3 = Some C)
      by (eapply keeps_calibration; [exact K2 | exact Hcal]).
    assert (K4 : entry (sensitive_attributes config) s4 = Some C)
      by (eapply keeps_adjust_data; [exact K3 | exact Ha]).
    pose proof (Hsel _ _ _ _ Hsolve) as V.
    destruct (Hadj _ _ _ _ V Ha) as [Hcols Hperm].
    rewrite evaluate_hit with (1 := K4) in Ef. injection Ef as Ef _.
    rewrite score_over_perm with (1 := Hcols) (2 := Hperm) in Ef.
    rewrite S0 in Ef. injection Ef as <-.
    unfold regression_check. rewrite flt_irrefl. simpl.
    split; [reflexivity|]. split; assumption.
Qed.

(* ================================================================= *)
(** ** Oversampling rounds *)

Lemma synthetic_loop_length (n : nat) data sens : forall st l st',
  synthetic_loop n data sens st = (Ok l, st') -> length l = n.
Proof.
  induction n as [|n IH]; intros st l st' H; cbn [synthetic_loop] in H.
  - inv_ret H. reflexivity.
  - inv_bind_as H s0 st1 H1. inv_bind_as H rest st2 H2. inv_ret H.
    simpl. f_equal. eapply IH. exact H2.
Qed.

Lemma synthetic_samples_len data (n : Z) st batch st' :
  _generate_synthetic_samples data n st = (Ok batch, st') ->
  len batch = Z.to_nat n /\ columns batch = columns data.
Proof.
  unfold _generate_synthetic_samples. cbv zeta. intro H.
  inv_bind_as H l st1 H1. inv_ret H. unfold len. simpl.
  split; [eapply synthetic_loop_length; exact H1 | reflexivity].
Qed.

(** Dropping the batch restores the frame it was appended to. *)
Lemma drop_batch (current batch : DataFrame) :
  iloc_prefix (concat current batch) (len (concat current batch) - len batch) = current.
Proof.
  destruct current as [cols rs]. unfold iloc_prefix, concat, len. simpl.
  rewrite length_app. replace (length rs + length (rows batch) - length (rows batch))
    with (length rs) by lia.
  rewrite firstn_app_left. reflexivity.
Qed.

Lemma oversample_rounds (rounds : nat) data target attrs baseline :
  forall current st final st',
    oversample rounds data target attrs baseline current st = (Ok final, st') ->
    batch_rounds data target attrs baseline rounds current st final st'.
Proof.
  induction rounds as [|r IH]; intros current st final st' H; cbn [oversample] in H.
  - inv_ret H. constructor.
  - inv_bind_as H batch st1 Hb. inv_bind_as H score st2 Hs.
    destruct (synthetic_samples_len _ _ _ Hb) as [Hl _].
    destruct (fgt score baseline) eqn:E.
    + inv_ret H. eapply rounds_accept; eassumption.
    + rewrite drop_batch in H. eapply rounds_reject; try eassumption.
      apply IH. exact H.
Qed.

Lemma batch_rounds_result data target attrs baseline left current st final st' :
  batch_rounds data target attrs baseline left current st final st' ->
  final = current \/
  exists batch, final = concat current batch /\
                len batch = Z.to_nat (target - Z.of_nat (len current)).
Proof.
  induction 1 as [| ? ? ? batch | ]; [left; reflexivity | right | assumption].
  exists batch. split; [reflexivity | assumption].
Qed.

(** C8. With a coefficient above 1, whenever [adjust_data] returns, its
    result was reached by the batch protocol started with 10 rounds on the
    original frame: each round synthesizes one batch of
    [target - current size] rows, scores the frame extended by the batch,
    stops with the extended frame exactly when that score is strictly
    above the baseline measured before the adjustment, and otherwise goes
    on from exactly the rows it had before the batch.  The result is
    therefore the original frame or the original frame followed by one
    batch of [target - n] rows, and the reported delta is the number of
    rows added. *)
Theorem oversampling_is_batch_atomic
  (data : DataFrame) (sol : Solution) (c : Q) (attrs : list string)
  (st st' : State) (adjusted : DataFrame) (added : Z) :
  (1 < c)%Q ->
  adjust_data data sol c attrs st = (Ok (adjusted, added), st') ->
  let target := py_int (inject_Z (Z.of_nat (len data)) * c) in
  exists baseline st0,
    FairnessEvaluator.evaluate data attrs st = (Ok baseline, st0) /\
    batch_rounds data target attrs baseline 10 data st0 adjusted st' /\
    (adjusted = data \/
     exists batch, adjusted = concat data batch /\
                   len batch = Z.to_nat (target - Z.of_nat (len data))) /\
    added = (Z.of_nat (len adjusted) - Z.of_nat (len data))%Z.
Proof.
  intros Hc H target. unfold adjust_data in H. cbv zeta in H.
  inv_bind_as H baseline st0 E. rewrite (Qle_bool_false_of_lt Hc) in H.
  inv_bind_as H adj st1 Ho. inv_ret H. injection H as <- <-.
  apply oversample_rounds in Ho. fold target in Ho.
  exists baseline, st0. split; [exact E|]. split; [exact Ho|].
  split; [|reflexivity].
  eapply batch_rounds_result. exact Ho.
Qed.

Lemma oversampling_is_batch_atomic_witness :
  (1 < 3 # 2)%Q /\
  exists baseline st0,
    FairnessEvaluator.evaluate Samples.aab ["group"%string] Samples.st_half
    = (Ok baseline, st0) /\
    batch_rounds Samples.aab 4 ["group"%string] baseline 10 Samples.aab st0
                 (Samples.grp ["A"; "A"; "B"; "B"]%string)
                 (snd (adjust_data Samples.aab
                         {| selected_indices := []; fairness_score := None |}
                         (3 # 2) ["group"%string] Samples.st_half)).
Proof.
  split; [reflexivity|].
  destruct (@oversampling_is_batch_atomic Samples.aab
              {| selected_indices := []; fairness_score := None |}
              (3 # 2) ["group"%string] Samples.st_half
              (snd (adjust_data Samples.aab
                      {| selected_indices := []; fairness_score := None |}
                      (3 # 2) ["group"%string] Samples.st_half))
              (Samples.grp ["A"; "A"; "B"; "B"]%string) 1%Z
              ltac:(reflexivity) ltac:(vm_compute; reflexivity))
    as (baseline & st0 & E & R & _).
  exists baseline, st0. split; [exact E | exact R].
Defined.

(* ================================================================= *)
(** ** Calls that cannot run out of fuel *)

Lemma rbind_halts {A B} (r : result A) (f : A -> result B) :
  r <> Diverge -> (forall a, f a <> Diverge) -> rbind r f <> Diverge.
Proof. destruct r; simpl; intros H Hf; [apply Hf | discriminate | congruence]. Qed.

Lemma rmapM_halts {A B} (f : A -> result B) (l : list A) :
  (forall a, f a <> Diverge) -> rmapM f l <> Diverge.
Proof.
  intro Hf. induction l as [|a l IH]; simpl; [discriminate|].
  apply rbind_halts; [apply Hf | intro b].
  apply rbind_halts; [exact IH | discriminate].
Qed.

Lemma fold_rbind_halts {A B} (f : A -> B -> result A) (l : list B) :
  (forall a b, f a b <> Diverge) ->
  forall r, r <> Diverge ->
  fold_left (fun acc b => rbind acc (fun a => f a b)) l r <> Diverge.
Proof.
  intro Hf. induction l as [|b l IH]; intros r Hr; simpl; [exact Hr|].
  apply IH. apply rbind_halts; [exact Hr | intro a; apply Hf].
Qed.

Lemma getitem_halts data attr : getitem data attr <> Diverge.
Proof. unfold getitem. destruct (col_index _ _); discriminate. Qed.

Lemma row_getitem_halts data r attr : row_getitem data r attr <> Diverge.
Proof. unfold row_getitem. destruct (col_index _ _); discriminate. Qed.

Lemma iloc_halts data l : iloc data l <> Diverge.
Proof. unfold iloc. destruct (forallb _ _); discriminate. Qed.

Lemma py_max_halts l : py_max l <> Diverge.
Proof. destruct l; discriminate. Qed.

Lemma py_min_halts l : py_min l <> Diverge.
Proof. destruct l; discriminate. Qed.

Lemma all_combinations_halts data attrs : all_combinations data attrs <> Diverge.
Proof.
  unfold all_combinations.
  apply rbind_halts.
  - apply rmapM_halts. intro a.
    apply rbind_halts; [apply getitem_halts | discriminate].
  - intro singles. apply rbind_halts; [|discriminate].
    apply rmapM_halts. intro k. apply rmapM_halts. intro l.
    apply rbind_halts; [|discriminate].
    apply rmapM_halts. intro a.
    apply rbind_halts; [apply getitem_halts | discriminate].
Qed.

Lemma calculate_supports_halts data C :
  FairnessEvaluator._calculate_supports data C <> Diverge.
Proof.
  unfold FairnessEvaluator._calculate_supports. cbv zeta.
  apply (fold_rbind_halts
           (fun supports c =>
              rbind (FairnessEvaluator.combo_mask data c)
                    (fun mask => Ok (dict_set combo_eqb c
                                       (np_truediv (FairnessEvaluator.mask_sum mask) (len data))
                                       supports)))); [|discriminate].
  intros a c. apply rbind_halts; [|discriminate].
  rewrite combo_mask_spec. destruct (first_absent _ _); discriminate.
Qed.

Lemma score_over_halts data C : score_over data C <> Diverge.
Proof.
  unfold score_over.
  apply rbind_halts; [apply calculate_supports_halts | intro s].
  apply rbind_halts; [apply py_max_halts | intro mx].
  apply rbind_halts; [apply py_min_halts | discriminate].
Qed.

Section Halts.

Lemma halts_ret {A} (a : A) : halts (ret a).
Proof. intro st. discriminate. Qed.

Lemma halts_raise {A} (e : exn) : halts (@raise A e).
Proof. intro st. discriminate. Qed.

Lemma halts_lift {A} (r : result A) : r <> Diverge -> halts (lift r).
Proof. intros H st. exact H. Qed.

Lemma halts_bind {A B} (m : M A) (f : A -> M B) :
  halts m -> (forall a, halts (f a)) -> halts (bind m f).
Proof.
  intros Hm Hf st. unfold bind. specialize (Hm st).
  destruct (m st) as [[a | e |] st1]; simpl in *.
  - apply Hf.
  - discriminate.
  - congruence.
Qed.

Lemma halts_evaluate data attrs : halts (FairnessEvaluator.evaluate data attrs).
Proof.
  intro st. destruct (entry attrs st) as [C|] eqn:E.
  - rewrite evaluate_hit with (1 := E). apply score_over_halts.
  - rewrite evaluate_miss with (1 := E).
    pose proof (all_combinations_halts data attrs) as H.
    destruct (all_combinations data attrs); simpl;
      [apply score_over_halts | discriminate | congruence].
Qed.

Lemma halts_np_random_choice {A} (l : list A) : halts (np_random_choice l).
Proof.
  intro st. unfold np_random_choice. destruct l; [discriminate|].
  destruct (randbelow _ _). discriminate.
Qed.

Lemma halts_np_random_randint a b : halts (np_random_randint a b).
Proof.
  intro st. unfold np_random_randint. destruct (b <=? a)%Z; [discriminate|].
  destruct (randbelow _ _). discriminate.
Qed.

Lemma halts_np_random_normal : halts np_random_normal.
Proof. intro st. unfold np_random_normal. destruct (next _). discriminate. Qed.

Lemma halts_sample_one d : halts (sample_one d).
Proof.
  intro st. unfold sample_one. destruct (rows d); [discriminate|].
  destruct (randbelow _ _). discriminate.
Qed.

Lemma halts_foldM {A B} (f : B -> A -> M B) (l : list A) :
  (forall b a, halts (f b a)) -> forall b, halts (foldM f l b).
Proof.
  intro Hf. induction l as [|a l IH]; intro b; simpl.
  - apply halts_ret.
  - apply halts_bind; [apply Hf | intro; apply IH].
Qed.

End Halts.

Create HintDb halts.

#[local] Hint Resolve halts_ret halts_raise halts_evaluate halts_np_random_choice
  halts_np_random_randint halts_np_random_normal halts_sample_one
  getitem_halts row_getitem_halts iloc_halts : halts.

Ltac halts_step :=
  match goal with
  | |- halts (bind _ _) => apply halts_bind; [|intro]
  | |- halts (foldM _ _ _) => apply halts_foldM; intros
  | |- halts (lift _) => apply halts_lift
  | |- halts (if ?b then _ else _) => destruct b
  | |- halts (match ?x with _ => _ end) => destruct x
  | |- _ => solve [auto with halts]
  end.

Lemma halts_synthetic data n : halts (_generate_synthetic_samples data n).
Proof.
  unfold _generate_synthetic_samples. cbv zeta. apply halts_bind; [|intro; apply halts_ret].
  generalize (filter startswith_sensitive (map fst (columns data))). intro sens.
  induction (Z.to_nat n) as [|k IH]; cbn [synthetic_loop]; [apply halts_ret|].
  apply halts_bind; [|intro; apply halts_bind; [exact IH | intro; apply halts_ret]].
  unfold synthetic_sample, perturb. repeat halts_step.
Qed.

Lemma halts_oversample rounds : forall data target attrs init adjusted,
  halts (oversample rounds data target attrs init adjusted).
Proof.
  induction rounds as [|r IH]; intros; cbn [oversample]; [apply halts_ret|].
  apply halts_bind; [apply halts_synthetic | intro].
  apply halts_bind; [apply halts_evaluate | intro].
  destruct (fgt _ _); [apply halts_ret | apply IH].
Qed.

Lemma halts_adjust_data data sol c attrs : halts (adjust_data data sol c attrs).
Proof.
  unfold adjust_data. cbv zeta. repeat halts_step. apply halts_oversample.
Qed.

Lemma halts_trial data config mid : halts (trial data config mid).
Proof.
  unfold trial. apply halts_bind; [apply halts_adjust_data | intro; apply halts_evaluate].
Qed.

(* ================================================================= *)
(** ** The calibration searches *)

Lemma pow2_pos (f : nat) : (0 < pow2 f)%Q.
Proof. induction f as [|f IH]; simpl; [reflexivity | lra]. Qed.

Lemma mid_between (low high : Q) :
  (low <= high)%Q -> (low <= (low + high) / 2)%Q /\ ((low + high) / 2 <= high)%Q.
Proof.
  intro H.
  assert (E : ((low + high) / 2 == (low + high) * (1 # 2))%Q) by (unfold Qdiv; reflexivity).
  rewrite E. split; lra.
Qed.

Lemma mid_halves (low high : Q) :
  (high - (low + high) / 2 == (high - low) * (1 # 2))%Q /\
  ((low + high) / 2 - low == (high - low) * (1 # 2))%Q.
Proof.
  assert (E : ((low + high) / 2 == (low + high) * (1 # 2))%Q) by (unfold Qdiv; reflexivity).
  rewrite E. split; lra.
Qed.

(** A bracket of width at most [tolerance * 2^f] is closed within [f]
    halvings, so [f + 1] loop tests are enough. *)
Lemma binary_search_halts data config opt (f : nat) : forall low high,
  (high - low <= tolerance * pow2 f)%Q ->
  halts (binary_search (S f) data config opt low high).
Proof.
  induction f as [|f IH]; intros low high W; cbn [binary_search].
  - destruct (Qltb tolerance (high - low)) eqn:E; [|apply halts_ret].
    apply Qltb_lt in E. simpl in W. lra.
  - destruct (Qltb tolerance (high - low)) eqn:E; [|apply halts_ret].
    apply halts_bind; [apply halts_trial | intro fairness].
    destruct (flt _ _); [apply halts_ret|].
    destruct (mid_halves low high) as [M1 M2]. cbn [pow2] in W.
    destruct (flt _ _); apply IH; lra.
Qed.

(** The trials of a search that returns, and the bracket it ends on. *)
Lemma binary_search_trace data config opt (fuel : nat) : forall low high st c st',
  (low <= high)%Q ->
  binary_search fuel data config opt low high st = (Ok c, st') ->
  exists trials lo hi s,
    halved data config opt low high st trials lo hi s /\
    S (length trials) <= fuel /\
    ((hi - lo) * pow2 (length trials) == high - low)%Q /\
    (low <= lo)%Q /\ (lo <= hi)%Q /\ (hi <= high)%Q /\
    ends_on data config opt lo hi s c st'.
Proof.
  induction fuel as [|f IH]; intros low high st c st' L H; cbn [binary_search] in H.
  - discriminate.
  - destruct (mid_between L) as [B1 B2].
    destruct (Qltb tolerance (high - low)) eqn:E.
    + apply Qltb_lt in E. inv_bind_as H fairness st1 T.
      fold (close opt fairness) in H.
      destruct (close opt fairness) eqn:Close.
      * inv_ret H. exists [], low, high, st.
        split; [constructor|]. split; [simpl; lia|].
        split; [simpl; ring|].
        split; [apply Qle_refl|]. split; [exact L|]. split; [apply Qle_refl|].
        split; [reflexivity|]. left. split; [exact E|].
        exists fairness. split; assumption.
      * destruct (mid_halves low high) as [M1 M2].
        destruct (flt fairness opt) eqn:Below.
        -- destruct (IH _ _ _ _ _ B2 H) as (trials & lo & hi & s & Hh & Hl & Hw & A & B & C & Hend).
           exists ((((low + high) / 2)%Q, fairness) :: trials), lo, hi, s.
           split; [apply halved_trial with (st1 := st1); try assumption;
                   rewrite Below; exact Hh|].
           split; [simpl; lia|].
           split.
           { cbn [length pow2].
             assert (R : ((hi - lo) * (2 * pow2 (length trials))
                          == 2 * ((hi - lo) * pow2 (length trials)))%Q) by ring.
             rewrite R, Hw. lra. }
           split; [lra|]. split; [exact B|]. split; [exact C | exact Hend].
        -- destruct (IH _ _ _ _ _ B1 H) as (trials & lo & hi & s & Hh & Hl & Hw & A & B & C & Hend).
           exists ((((low + high) / 2)%Q, fairness) :: trials), lo, hi, s.
           split; [apply halved_trial with (st1 := st1); try assumption;
                   rewrite Below; exact Hh|].
           split; [simpl; lia|].
           split.
           { cbn [length pow2].
             assert (R : ((hi - lo) * (2 * pow2 (length trials))
                          == 2 * ((hi - lo) * pow2 (length trials)))%Q) by ring.
             rewrite R, Hw. lra. }
           split; [exact A|]. split; [exact B|]. split; [lra | exact Hend].
    + inv_ret H. apply Qltb_ge in E. exists [], low, high, st.
      split; [constructor|]. split; [simpl; lia|].
      split; [simpl; ring|].
      split; [apply Qle_refl|]. split; [exact L|]. split; [apply Qle_refl|].
      split; [reflexivity|]. right. split; [exact E | reflexivity].
Qed.

(** C5, as the code has it.  Both calibration searches end within their
    budget of loop tests, the second starting in the state the first left.
    Each makes at most ten trials that are not close to the solver's score,
    every one at the midpoint of the bracket of that moment and halving it
    towards the score, and returns the midpoint of the bracket it has then
    come to: because the trial made at that midpoint measures a fairness
    strictly within 0.001 of the solver's score, or because that bracket is
    no wider than 0.001, and then no trial was close. *)
Theorem calibration_returns_close_trial_or_midpoint
  (data : DataFrame) (config : Config) (init opt : pyfloat) (st : State) :
  fst (calculate_optimal_coefficients data config init opt st) <> Diverge /\
  forall c1 c2 st',
    calculate_optimal_coefficients data config init opt st = (Ok (c1, c2), st') ->
    exists st1,
      (((0 <= c1)%Q /\ (c1 <= 1)%Q) /\ searched data config opt 0 1 st c1 st1) /\
      (((1 <= c2)%Q /\ (c2 <= 2)%Q) /\ searched data config opt 1 2 st1 c2 st').
Proof.
  split.
  - revert st. change (halts (calculate_optimal_coefficients data config init opt)).
    unfold calculate_optimal_coefficients, search_fuel.
    apply halts_bind; [|intro c1; apply halts_bind; [|intro c2; apply halts_ret]];
      apply binary_search_halts; vm_compute; discriminate.
  - intros c1 c2 st' H. unfold calculate_optimal_coefficients in H.
    inv_bind_as H a1 st1 S1. inv_bind_as H a2 st2 S2. inv_ret H.
    injection H as <- <-. exists st1.
    assert (R : forall low high s c s',
               (low <= high)%Q ->
               binary_search search_fuel data config opt low high s = (Ok c, s') ->
               ((low <= c)%Q /\ (c <= high)%Q) /\ searched data config opt low high s c s').
    { intros low high s c s' L B.
      destruct (@binary_search_trace data config opt search_fuel low high s c s' L B)
        as (trials & lo & hi & s0 & Hh & Hl & Hw & A1 & A2 & A3 & Hend).
      split.
      - destruct Hend as [-> _]. destruct (mid_between A2). split; lra.
      - exists trials, lo, hi, s0. unfold search_fuel in Hl.
        repeat split; try assumption; try lia; apply Hend. }
    split; apply R; try assumption; discriminate.
Qed.

(** C5 as stated fails.  On the frame A, A, B the solver stage reaches the
    score 1 at coefficient 2/3; the search over [0, 1] then ends on the
    midpoint 2047/2048, and adjusting and evaluating again at that
    coefficient gives 2/3, a third away from the solver's score. *)
Lemma calibration_can_miss_the_score :
  let opt := Fl (inject_Z 1000000 / 1000000) in
  let run := calculate_optimal_coefficients Samples.aab (Samples.on_group (2 # 3))
               (Fl (6 # 9)) opt Samples.st0 in
  solve Samples.keep_0_2 (Samples.model_aab 2) (2 # 3) (Fl (6 # 9)) Samples.st0
  = (Ok {| selected_indices := [0; 2]; fairness_score := Some opt |}, Samples.st0) /\
  fst run = Ok ((2047 # 2048)%Q, (4095 # 2048)%Q) /\
  fst (trial Samples.aab (Samples.on_group (2 # 3)) (2047 # 2048) (snd run))
  = Ok (Fl (6 # 9)) /\
  flt (fabs (fsub (Fl (6 # 9)) opt)) (Fl tolerance) = false.
Proof.
  cbv zeta. split; [reflexivity|]. split; [vm_compute; reflexivity|].
  split; vm_compute; reflexivity.
Qed.

(* ================================================================= *)
(** ** Evaluations that fail *)

Lemma rmapM_all {A B} (f : A -> result B) (h : A -> B) (l : list A) :
  (forall a, In a l -> f a = Ok (h a)) -> rmapM f l = Ok (map h l).
Proof.
  induction l as [|a l IH]; intro H; simpl; [reflexivity|].
  rewrite (H a (or_introl eq_refl)). simpl.
  rewrite IH by (intros b Hb; apply H; right; exact Hb). reflexivity.
Qed.

Lemma concat_all_nil {A} (l : list (list A)) :
  (forall a, In a l -> a = []) -> List.concat l = [].
Proof.
  induction l as [|a l IH]; intro H; simpl; [reflexivity|].
  rewrite (H a (or_introl eq_refl)). simpl. apply IH.
  intros b Hb. apply H. right. exact Hb.
Qed.

Lemma iter_combinations_spec {A} (l : list A) : forall k c,
  In c (iter_combinations l k) -> length c = k /\ incl c l.
Proof.
  induction l as [|a l IH]; intros k c H.
  - destruct k; simpl in H; [|contradiction].
    destruct H as [<- | []]. split; [reflexivity | intros y []].
  - destruct k as [|k]; simpl in H.
    + destruct H as [<- | []]. split; [reflexivity | intros y []].
    + apply in_app_or in H. destruct H as [H | H].
      * apply in_map_iff in H. destruct H as (c' & <- & Hc').
        destruct (IH _ _ Hc') as [L I]. split; [simpl; now rewrite L|].
        intros y [<- | Hy]; [left; reflexivity | right; apply I; exact Hy].
      * destruct (IH _ _ H) as [L I]. split; [exact L|].
        intros y Hy. right. apply I. exact Hy.
Qed.

Lemma first_absent_None cols names :
  first_absent cols names = None ->
  forall a, In a names -> exists i, col_index a cols = Some i.
Proof.
  induction names as [|b t IH]; simpl; intros H a Hin; [contradiction|].
  destruct (col_index b cols) as [i|] eqn:E; [|discriminate].
  destruct Hin as [<- | Hin]; [exists i; exact E | apply IH; assumption].
Qed.

(** A listed attribute that is not a column: the first one raises. *)
Lemma all_combinations_absent data attrs a :
  first_absent (columns data) attrs = Some a ->
  all_combinations data attrs = Raise (KeyError a).
Proof.
  intro H. unfold all_combinations.
  match goal with |- rbind ?r _ = _ => assert (E : r = Raise (KeyError a)) end.
  { induction attrs as [|b t IH]; simpl in *; [discriminate|].
    unfold getitem at 1.
    destruct (col_index b (columns data)) as [i|] eqn:Eb.
    - simpl. rewrite IH by exact H. reflexivity.
    - injection H as <-. reflexivity. }
  rewrite E. reflexivity.
Qed.

Lemma product_nil_head {A} (ls : list (list A)) : product ([] :: ls) = [].
Proof. reflexivity. Qed.

(** No row: every column is empty and so is the universe. *)
Lemma all_combinations_no_rows data attrs :
  first_absent (columns data) attrs = None -> rows data = [] ->
  all_combinations data attrs = Ok [].
Proof.
  intros H R. pose proof (first_absent_None _ _ H) as P.
  assert (Hcol : forall a, In a attrs -> getitem data a = Ok []).
  { intros a Ha. destruct (P a Ha) as [i E]. unfold getitem. rewrite E, R. reflexivity. }
  unfold all_combinations.
  rewrite (@rmapM_all _ _ _ (fun _ => @nil combo)).
  2:{ intros a Ha. rewrite (Hcol a Ha). reflexivity. }
  cbn [rbind].
  rewrite (@rmapM_all _ _ _ (fun k => map (fun _ => @nil combo) (iter_combinations attrs k))).
  2:{ intros k Hk. apply in_seq in Hk.
      apply rmapM_all. intros c Hc.
      destruct (iter_combinations_spec _ _ _ Hc) as [L I].
      rewrite (@rmapM_all _ _ _ (fun _ => @nil value)).
      2:{ intros a Ha. rewrite (Hcol a (I a Ha)). reflexivity. }
      cbn [rbind]. destruct c as [|a c]; [simpl in L; lia|].
      reflexivity. }
  cbn [rbind]. f_equal.
  rewrite concat_all_nil.
  2:{ intros a Ha. apply in_map_iff in Ha. destruct Ha as (? & <- & _). reflexivity. }
  apply concat_all_nil. intros a Ha. apply in_concat in Ha.
  destruct Ha as (l & Hl & Ha). apply in_map_iff in Hl. destruct Hl as (k & <- & _).
  apply in_map_iff in Ha. destruct Ha as (? & <- & _). reflexivity.
Qed.

Lemma all_combinations_no_attrs data : all_combinations data [] = Ok [].
Proof. reflexivity. Qed.

Lemma score_over_empty data : score_over data [] = Raise ValueError.
Proof. reflexivity. Qed.

Lemma optimize_fairness_baseline_raises Solve data config st e st' :
  FairnessEvaluator.evaluate data (sensitive_attributes config) st = (Raise e, st') ->
  optimize_fairness Solve data config st = (Raise e, st').
Proof.
  intro H. unfold optimize_fairness, adjust_and_score.
  apply bind_Raise. apply bind_Raise. exact H.
Qed.

Lemma exn_class_not_validation (e : exn) : exn_class e <> "DataValidationError"%string.
Proof. destruct e; discriminate. Qed.

(** C4, as the code has it.  On an evaluator with no universe cached for
    the attribute list: a listed attribute that is not a column makes
    [evaluate] raise KeyError for the first such attribute, leaving the
    state untouched; otherwise an empty attribute list or a frame without
    rows makes it raise ValueError, after caching the empty universe.  In
    both cases [optimize_fairness] raises the same exception in the same
    state: no model is built, no solver is run and no random number is
    drawn.  None of the exceptions is a DataValidationError. *)
Theorem evaluate_rejects_missing_column_and_empty_universe
  (Solve : CpModel -> CpOutcome) (data : DataFrame) (config : Config) (st : State) :
  let attrs := sensitive_attributes config in
  entry attrs st = None ->
  (forall a, first_absent (columns data) attrs = Some a ->
     FairnessEvaluator.evaluate data attrs st = (Raise (KeyError a), st) /\
     optimize_fairness Solve data config st = (Raise (KeyError a), st)) /\
  (first_absent (columns data) attrs = None -> attrs = [] \/ rows data = [] ->
     let st' := with_cache (dict_set FairnessEvaluator.key_eqb attrs []
                                     (combinations_cache st)) st in
     FairnessEvaluator.evaluate data attrs st = (Raise ValueError, st') /\
     optimize_fairness Solve data config st = (Raise ValueError, st') /\
     py_random st' = py_random st /\ np_random st' = np_random st) /\
  (forall e, exn_class e <> "DataValidationError"%string).
Proof.
  intros attrs E. split; [|split].
  - intros a Ha.
    assert (Ev : FairnessEvaluator.evaluate data attrs st = (Raise (KeyError a), st)).
    { rewrite evaluate_miss with (1 := E).
      rewrite all_combinations_absent with (1 := Ha). reflexivity. }
    split; [exact Ev | apply optimize_fairness_baseline_raises; exact Ev].
  - intros Hp Hempty st'.
    assert (U : all_combinations data attrs = Ok []).
    { destruct Hempty as [-> | R];
        [apply all_combinations_no_attrs | apply all_combinations_no_rows; assumption]. }
    assert (Ev : FairnessEvaluator.evaluate data attrs st = (Raise ValueError, st')).
    { rewrite evaluate_miss with (1 := E). rewrite U. reflexivity. }
    split; [exact Ev|]. split; [apply optimize_fairness_baseline_raises; exact Ev|].
    split; reflexivity.
  - apply exn_class_not_validation.
Qed.

Lemma evaluate_rejects_missing_column_and_empty_universe_witness :
  FairnessEvaluator.evaluate (Samples.grp []) ["group"%string] Samples.st0
  = (Raise ValueError,
     with_cache [(["group"%string], [])] Samples.st0) /\
  optimize_fairness Samples.gives_up Samples.aab
                    {| sensitive_attributes := ["age"%string]; coefficient := 1 |}
                    Samples.st0
  = (Raise (KeyError "age"), Samples.st0).
Proof.
  destruct (@evaluate_rejects_missing_column_and_empty_universe
              Samples.gives_up (Samples.grp []) (Samples.on_group 1) Samples.st0 eq_refl)
    as (_ & V & _).
  destruct (@evaluate_rejects_missing_column_and_empty_universe
              Samples.gives_up Samples.aab
              {| sensitive_attributes := ["age"%string]; coefficient := 1 |}
              Samples.st0 eq_refl)
    as (K & _ & _).
  split.
  - exact (proj1 (V eq_refl (or_intror eq_refl))).
  - exact (proj2 (K "age"%string eq_refl)).
Defined.

(** C4 as stated fails: evaluating a frame without rows on a fresh
    evaluator raises ValueError, not a DataValidationError; and once a
    universe is cached for the attribute list, a frame without rows is
    scored (NaN) instead of being rejected. *)
Lemma evaluate_raises_no_validation_error :
  fst (FairnessEvaluator.evaluate (Samples.grp []) ["group"%string] Samples.st0)
  = Raise ValueError /\
  exn_class ValueError <> "DataValidationError"%string /\
  fst ((_ <- FairnessEvaluator.evaluate Samples.aab ["group"%string] ;;
        FairnessEvaluator.evaluate (Samples.grp []) ["group"%string]) Samples.st0)
  = Ok NaN.
Proof.
  split; [reflexivity|]. split; [discriminate | reflexivity].
Qed.

(* ================================================================= *)
(** ** The evaluator's memory *)

(** C9, as the code has it.  [evaluate] reads and fills the instance's
    memo cache: with a universe cached for the attribute list the score is
    the score of the frame over that universe and the state is unchanged;
    with none, the score is that of the frame over its own universe, which
    is then cached, the random generators being left alone.  Hence two
    instances that agree on the cache entry of the attribute list return
    the same score for the same frame. *)
Theorem evaluate_is_determined_by_frame_and_cache_entry
  (data : DataFrame) (attrs : list string) (st : State) :
  match entry attrs st with
  | Some C => FairnessEvaluator.evaluate data attrs st = (score_over data C, st)
  | None =>
      fst (FairnessEvaluator.evaluate data attrs st)
      = rbind (all_combinations data attrs) (score_over data) /\
      py_random (snd (FairnessEvaluator.evaluate data attrs st)) = py_random st /\
      np_random (snd (FairnessEvaluator.evaluate data attrs st)) = np_random st /\
      forall C, all_combinations data attrs = Ok C ->
                entry attrs (snd (FairnessEvaluator.evaluate data attrs st)) = Some C
  end /\
  forall st2, entry attrs st2 = entry attrs st ->
              fst (FairnessEvaluator.evaluate data attrs st2)
              = fst (FairnessEvaluator.evaluate data attrs st).
Proof.
  split.
  - destruct (entry attrs st) as [C|] eqn:E.
    + apply evaluate_hit. exact E.
    + rewrite evaluate_miss with (1 := E).
      destruct (all_combinations data attrs) as [C | e |]; simpl;
        repeat split; try discriminate.
      intros C' H. injection H as <-. unfold entry, with_cache. simpl.
      apply dict_get_set_same. exact E.
  - intros st2 H. destruct (entry attrs st) as [C|] eqn:E.
    + rewrite evaluate_hit with (1 := E). rewrite evaluate_hit with (1 := H). reflexivity.
    + rewrite evaluate_miss with (1 := E). rewrite evaluate_miss with (1 := H).
      destruct (all_combinations data attrs); reflexivity.
Qed.

Lemma evaluate_is_determined_by_frame_and_cache_entry_witness :
  entry ["group"%string] Samples.st_id = entry ["group"%string] Samples.st0 /\
  fst (FairnessEvaluator.evaluate Samples.aab ["group"%string] Samples.st_id)
  = fst (FairnessEvaluator.evaluate Samples.aab ["group"%string] Samples.st0).
Proof.
  split; [reflexivity|].
  exact (proj2 (evaluate_is_determined_by_frame_and_cache_entry
                  Samples.aab ["group"%string] Samples.st0)
               Samples.st_id eq_refl).
Defined.

(** C9 as stated fails: the frame with the single row A scores 1 on a fresh
    evaluator and 0 on an evaluator that has scored A, A, B before with the
    same attribute list, whose universe it then reuses. *)
Lemma evaluate_depends_on_earlier_calls :
  fst (FairnessEvaluator.evaluate (Samples.grp ["A"%string]) ["group"%string] Samples.st0)
  = Ok (Fl (1 # 1)) /\
  fst ((_ <- FairnessEvaluator.evaluate Samples.aab ["group"%string] ;;
        FairnessEvaluator.evaluate (Samples.grp ["A"%string]) ["group"%string])
         Samples.st0)
  = Ok (Fl (0 # 1)).
Proof. split; vm_compute; reflexivity. Qed.

(* ================================================================= *)
(** ** The fallback's fairness measure *)

Lemma py_in_int_false (i : Z) (c : combo) : py_in (OInt i) c = false.
Proof.
  unfold py_in, members. induction c as [|p c IH]; simpl; [reflexivity | exact IH].
Qed.

Lemma fold_min_zeros (l : list Z) :
  (forall z, In z l -> z = 0%Z) -> fold_left Z.min l 0%Z = 0%Z.
Proof.
  induction l as [|z l IH]; intro H; simpl; [reflexivity|].
  rewrite (H z (or_introl eq_refl)). simpl. apply IH.
  intros y Hy. apply H. right. exact Hy.
Qed.

Lemma fold_max_zeros (l : list Z) :
  (forall z, In z l -> z = 0%Z) -> fold_left Z.max l 0%Z = 0%Z.
Proof.
  induction l as [|z l IH]; intro H; simpl; [reflexivity|].
  rewrite (H z (or_introl eq_refl)). simpl. apply IH.
  intros y Hy. apply H. right. exact Hy.
Qed.

(** Whatever rows are selected, [_calculate_fairness] counts none of them
    in any subgroup: a row position is never a member of a set of
    (attribute, value) tuples.  Its value is therefore 1 for every
    non-empty selection. *)
Lemma calculate_fairness_is_constant (selected : list nat) (count : list (combo * nat)) :
  selected <> [] -> count <> [] ->
  _calculate_fairness selected count
  = Ok (Fl (1 - inject_Z 0 / inject_Z (Z.of_nat (length selected)))).
Proof.
  intros Hs Hc. unfold _calculate_fairness. cbv zeta.
  unfold dict_values. rewrite map_map. cbn [snd].
  assert (Hz : map (fun c : combo =>
                      Z.of_nat (length (filter (fun i => py_in (OInt (Z.of_nat i)) c) selected)))
                   (dict_keys count)
               = map (fun _ => 0%Z) (dict_keys count)).
  { apply map_ext. intro c.
    rewrite (filter_ext _ (fun _ => false)) by (intro; apply py_in_int_false).
    clear Hs. induction selected as [|i sel IH]; [reflexivity | exact IH]. }
  rewrite Hz. destruct count as [|p t]; [contradiction|].
  simpl.
  rewrite fold_min_zeros, fold_max_zeros
    by (intros z Hz'; apply in_map_iff in Hz'; destruct Hz' as (? & <- & _); reflexivity).
  simpl. unfold py_truediv.
  destruct selected as [|i sel]; [contradiction|]. reflexivity.
Qed.

(** C2 fails on the code.  On the frame A, A, B with rows 0 and 1 selected
    the measure of the specification is 1 - (2 - 0)/2 = 0, while
    [_calculate_fairness] returns 1. *)
Theorem calculate_fairness_ignores_the_selection :
  (exists q, discrete_fairness Samples.aab [0; 1] (count (Samples.model_aab 2)) = Ok (Fl q)
             /\ (q == 0)%Q) /\
  (exists q, _calculate_fairness [0; 1] (count (Samples.model_aab 2)) = Ok (Fl q)
             /\ (q == 1)%Q).
Proof.
  split; eexists; (split; [vm_compute; reflexivity | reflexivity]).
Qed.

(* ================================================================= *)
(** ** Synthetic rows and the caller's attribute list *)

(** C3 fails on the code.  With the sensitive attributes [gender] and
    [race], whose names do not start with [sensitive_], the original rows
    (M, X) and (F, Y) yield the synthetic row (M, Y): both columns are
    redrawn independently, and the combination exists in no original
    row. *)
Theorem synthetic_row_can_invent_a_combination :
  fst (_generate_synthetic_samples Samples.gender_race 1 Samples.st0)
  = Ok {| columns := columns Samples.gender_race;
          rows := [[VStr "M"; VStr "Y"]]%string |} /\
  forall r, In r (rows Samples.gender_race) ->
            project Samples.gender_race ["gender"; "race"]%string r
            <> project Samples.gender_race ["gender"; "race"]%string
                       [VStr "M"; VStr "Y"]%string.
Proof.
  split; [vm_compute; reflexivity|].
  intros r [<- | [<- | []]]; vm_compute; discriminate.
Qed.

(* ================================================================= *)
(** ** Sample runs of the orchestrator *)

Lemma optimize_fairness_never_regresses_witness :
  let run := optimize_fairness Samples.gives_up Samples.aab (Samples.on_group (2 # 3))
                               Samples.st_id in
  run = (Ok Samples.reverted, snd run) /\
  fst (adjust_and_score Samples.gives_up Samples.aab (Samples.on_group (2 # 3))
                        Samples.st_id)
  = Ok (Fl (6 # 9), Fl (2 # 2), Samples.grp ["A"; "A"]%string, Fl (0 # 4)) /\
  flt (final_fairness Samples.reverted) (initial_fairness Samples.reverted) = false.
Proof.
  cbv zeta.
  assert (H : optimize_fairness Samples.gives_up Samples.aab (Samples.on_group (2 # 3))
                                Samples.st_id
              = (Ok Samples.reverted,
                 snd (optimize_fairness Samples.gives_up Samples.aab
                                        (Samples.on_group (2 # 3)) Samples.st_id)))
    by (vm_compute; reflexivity).
  split; [exact H|]. split; [vm_compute; reflexivity|].
  exact (proj1 (optimize_fairness_never_regresses _ _ _ _ H)).
Defined.

Lemma coefficient_one_keeps_every_row_witness :
  let run := optimize_fairness Samples.gives_up Samples.aab (Samples.on_group 1)
                               Samples.st0 in
  (1 == 1)%Q /\
  run = (Ok Samples.unchanged, snd run) /\
  final_fairness Samples.unchanged = initial_fairness Samples.unchanged /\
  Permutation (rows (adjusted_data Samples.unchanged)) (rows Samples.aab).
Proof.
  cbv zeta.
  assert (H : optimize_fairness Samples.gives_up Samples.aab (Samples.on_group 1) Samples.st0
              = (Ok Samples.unchanged,
                 snd (optimize_fairness Samples.gives_up Samples.aab (Samples.on_group 1)
                                        Samples.st0)))
    by (vm_compute; reflexivity).
  split; [reflexivity|]. split; [exact H|].
  destruct (@coefficient_one_keeps_every_row Samples.gives_up Samples.aab
              (Samples.on_group 1) (Samples.model_aab 3)
              ltac:(reflexivity) ltac:(reflexivity) ltac:(intro D; discriminate D))
    as [_ O].
  destruct (O _ _ _ H) as (F & _ & P).
  split; [exact F | exact P].
Defined.

(* ================================================================= *)
(** ** What the synthesis does keep *)

Lemma col_index_lt a cols : forall i, col_index a cols = Some i -> i < length cols.
Proof.
  induction cols as [|[c d] t IH]; simpl; intros i H; [discriminate|].
  destruct (String.eqb c a).
  - injection H as <-. lia.
  - destruct (col_index a t) as [j|]; simpl in H; [|discriminate].
    injection H as <-. specialize (IH j eq_refl). lia.
Qed.

Lemma col_index_inj a b cols : forall i,
  col_index a cols = Some i -> col_index b cols = Some i -> a = b.
Proof.
  induction cols as [|[c d] t IH]; simpl; intros i Ha Hb; [discriminate|].
  destruct (String.eqb c a) eqn:Ea, (String.eqb c b) eqn:Eb.
  - apply String.eqb_eq in Ea, Eb. congruence.
  - injection Ha as <-. destruct (col_index b t); simpl in Hb; discriminate.
  - injection Hb as <-. destruct (col_index a t); simpl in Ha; discriminate.
  - destruct (col_index a t) as [j|]; simpl in Ha; [|discriminate].
    destruct (col_index b t) as [j'|]; simpl in Hb; [|discriminate].
    injection Ha as <-. injection Hb as Hj. apply (IH j); [reflexivity|].
    f_equal. lia.
Qed.

Lemma replace_at_other (r : list value) (j i : nat) (v : value) :
  j < length r -> i <> j -> cell i (firstn j r ++ v :: skipn (S j) r) = cell i r.
Proof.
  intros Hj Hij. unfold cell.
  rewrite (split_at r (VInt 0) Hj) at 3.
  assert (L : length (firstn j r) = j) by (apply firstn_length_le; lia).
  destruct (Nat.lt_ge_cases i j) as [Hlt | Hge].
  - rewrite !app_nth1 by lia. reflexivity.
  - rewrite !app_nth2 by lia. rewrite L.
    destruct (i - j) as [|m] eqn:E; [lia | reflexivity].
Qed.

Lemma row_setitem_keeps data names r column v :
  length r = length (columns data) ->
  name_in column names = false ->
  length (row_setitem data r column v) = length r /\
  agree_on data names r (row_setitem data r column v).
Proof.
  intros L N. unfold row_setitem.
  destruct (col_index column (columns data)) as [j|] eqn:E.
  - pose proof (col_index_lt _ _ E) as Hj. rewrite <- L in Hj.
    split; [apply length_replace_at; exact Hj|].
    intros a i Ha Hi. apply replace_at_other; [exact Hj|].
    intros ->. pose proof (col_index_inj _ _ _ Hi E) as ->.
    assert (name_in column names = true).
    { apply existsb_exists. exists column. split; [exact Ha | apply String.eqb_refl]. }
    congruence.
  - split; [reflexivity | intros a i _ _; reflexivity].
Qed.

Lemma perturb_keeps data names s column st s' st' :
  length s = length (columns data) ->
  perturb data names s column st = (Ok s', st') ->
  length s' = length s /\ agree_on data names s s'.
Proof.
  intros L H. unfold perturb in H.
  destruct (negb (name_in (fst column) names)) eqn:N.
  - apply negb_true_iff in N. inv_bind_as H col st1 Hc.
    destruct (snd column).
    + inv_bind_as H v st2 Hv. inv_ret H. apply row_setitem_keeps; assumption.
    + inv_bind_as H g st2 Hg. inv_bind_as H old st3 Ho. inv_ret H.
      apply row_setitem_keeps; assumption.
    + inv_bind_as H v st2 Hv. inv_ret H. apply row_setitem_keeps; assumption.
    + unfold raise in H. discriminate.
    + inv_ret H. split; [reflexivity | intros a i _ _; reflexivity].
  - inv_ret H. split; [reflexivity | intros a i _ _; reflexivity].
Qed.

Lemma perturb_all_keeps data names (cols : list (string * dtype)) : forall s st s' st',
  length s = length (columns data) ->
  foldM (perturb data names) cols s st = (Ok s', st') ->
  agree_on data names s s'.
Proof.
  induction cols as [|c t IH]; intros s st s' st' L H; cbn [foldM] in H.
  - inv_ret H. intros a i _ _. reflexivity.
  - inv_bind_as H s1 st1 H1.
    destruct (perturb_keeps _ _ _ _ _ L H1) as [L1 A1].
    assert (A2 : agree_on data names s1 s') by (eapply IH; [congruence | exact H]).
    intros a i Ha Hi. rewrite (A2 a i Ha Hi). exact (A1 a i Ha Hi).
Qed.

Lemma sample_one_In d st r st' : sample_one d st = (Ok r, st') -> In r (rows d).
Proof.
  unfold sample_one, len. destruct (rows d) as [|x0 l]; [discriminate|].
  unfold randbelow, next.
  assert (B : draws (np_random st) (pos (np_random st)) mod length (x0 :: l)
              < length (x0 :: l)) by (apply Nat.mod_upper_bound; discriminate).
  pose proof (nth_In (x0 :: l) x0 B) as HI.
  intro H. injection H as <- _. exact HI.
Qed.

Lemma synthetic_sample_keeps data names st s st' :
  aligned data ->
  synthetic_sample data names st = (Ok s, st') ->
  exists r, In r (rows data) /\ agree_on data names r s.
Proof.
  intros W H. unfold synthetic_sample in H.
  inv_bind_as H combo st1 Hc. cbv zeta in H. inv_bind_as H r st2 Hr.
  assert (Hin : In r (rows data)).
  { destruct (0 <? _).
    - apply sample_one_In in Hr. simpl in Hr. apply filter_In in Hr. apply Hr.
    - apply sample_one_In in Hr. exact Hr. }
  exists r. split; [exact Hin|].
  eapply perturb_all_keeps; [|exact H].
  unfold aligned in W. rewrite Forall_forall in W. apply W. exact Hin.
Qed.

(** Every synthetic row carries, in the columns whose name starts with
    [sensitive_], the cells of one row of the original frame: those
    columns are copied from the template and never redrawn. *)
Lemma synthetic_rows_copy_prefixed_columns data (n : Z) st batch st' :
  aligned data ->
  _generate_synthetic_samples data n st = (Ok batch, st') ->
  forall s, In s (rows batch) ->
  exists r, In r (rows data) /\
            agree_on data (filter startswith_sensitive (map fst (columns data))) r s.
Proof.
  intros W H. unfold _generate_synthetic_samples in H. cbv zeta in H.
  inv_bind_as H l st1 Hl. inv_ret H. simpl.
  revert st l st1 Hl.
  generalize (filter startswith_sensitive (map fst (columns data))). intro names.
  induction (Z.to_nat n) as [|k IH]; intros st l st1 Hl s Hs; cbn [synthetic_loop] in Hl.
  - inv_ret Hl. contradiction.
  - inv_bind_as Hl s0 st2 H0. inv_bind_as Hl rest st3 Hrest. inv_ret Hl.
    destruct Hs as [<- | Hs].
    + eapply synthetic_sample_keeps; eassumption.
    + eapply IH; eassumption.
Qed.

(* ================================================================= *)
(** ** The local search never moves *)

Lemma calculate_fairness_not_above (sel sel' : list nat) (count : list (combo * nat)) f f' :
  _calculate_fairness sel count = Ok f ->
  _calculate_fairness sel' count = Ok f' ->
  fgt f' f = false.
Proof.
  intros H H'.
  destruct count as [|p t].
  { unfold _calculate_fairness in H. simpl in H. discriminate. }
  destruct sel as [|i l].
  { unfold _calculate_fairness in H. cbv zeta in H.
    repeat match type of H with
           | context [rbind ?r _] => destruct r; simpl in H
           end; discriminate. }
  destruct sel' as [|i' l'].
  { unfold _calculate_fairness in H'. cbv zeta in H'.
    repeat match type of H' with
           | context [rbind ?r _] => destruct r; simpl in H'
           end; discriminate. }
  rewrite calculate_fairness_is_constant in H, H' by discriminate.
  injection H as <-. injection H' as <-.
  unfold fgt, flt. apply Qltb_ge.
  unfold Qdiv. rewrite !Qmult_0_l. apply Qle_refl.
Qed.

(** Since the measure is the same for every selection, no swap is ever
    accepted: the local search returns the selection it started from. *)
Lemma local_search_returns_its_start (trials : nat) :
  forall n ssz count sel0 sel f st sel' f' st',
    _calculate_fairness sel0 count = Ok f ->
    local_search trials n ssz count sel f st = (Ok (sel', f'), st') ->
    sel' = sel /\ f' = f.
Proof.
  induction trials as [|t IH]; intros n ssz count sel0 sel f st sel' f' st' F H;
    cbn [local_search] in H.
  - inv_ret H. injection H as <- <-. split; reflexivity.
  - inv_bind_as H i st1 Hi.
    destruct (negb (existsb (Nat.eqb (Z.to_nat i)) sel)).
    + inv_bind_as H j st2 Hj. inv_bind_as H new st3 Hn. inv_lift Hn.
      inv_bind_as H nf st4 Hf. inv_lift Hf.
      rewrite calculate_fairness_not_above with (1 := F) (2 := Hf) in H.
      eapply IH; eassumption.
    + eapply IH; eassumption.
Qed.

(* ================================================================= *)
(** ** Range of the fairness score *)

Lemma dict_set_values {K V} (eqb : K -> K -> bool) (P : V -> Prop) k v (d : list (K * V)) :
  P v -> Forall P (dict_values d) -> Forall P (dict_values (dict_set eqb k v d)).
Proof.
  intros Hv. unfold dict_values.
  induction d as [|[k' v'] d IH]; simpl; intro H.
  - constructor; [exact Hv | constructor].
  - inversion H as [|? ? Hv' Hd]; subst.
    destruct (eqb k' k); simpl; constructor; try assumption.
    apply IH. exact Hd.
Qed.

Lemma mask_sum_le {A} (g : A -> bool) (l : list A) :
  FairnessEvaluator.mask_sum (map g l) <= length l.
Proof. rewrite mask_sum_map. apply filter_length_le. Qed.

(** Every support is a row count over the number of rows. *)
Lemma calculate_supports_values data C s :
  FairnessEvaluator._calculate_supports data C = Ok s ->
  Forall (fun v => exists a, a <= len data /\ v = np_truediv a (len data)) (dict_values s).
Proof.
  unfold FairnessEvaluator._calculate_supports. cbv zeta.
  set (P := fun v => exists a, a <= len data /\ v = np_truediv a (len data)).
  assert (G : forall C acc s,
             match acc with Ok d => Forall P (dict_values d) | _ => True end ->
             fold_left (fun acc c =>
               rbind acc (fun supports =>
               rbind (FairnessEvaluator.combo_mask data c) (fun mask =>
               Ok (dict_set combo_eqb c
                     (np_truediv (FairnessEvaluator.mask_sum mask) (len data)) supports))))
               C acc = Ok s ->
             Forall P (dict_values s)).
  { clear C s. induction C as [|c C IH]; intros acc s Hacc H; simpl in H.
    - subst acc. exact Hacc.
    - eapply IH; [|exact H]. destruct acc as [d | e |]; simpl; try exact I.
      rewrite combo_mask_spec. destruct (first_absent _ _); simpl; [exact I|].
      apply dict_set_values; [|exact Hacc].
      exists (FairnessEvaluator.mask_sum (map (matches data c) (rows data))).
      split; [apply mask_sum_le | reflexivity]. }
  intro H. eapply G; [|exact H]. simpl. constructor.
Qed.

Lemma fold_pick_In {A} (better : A -> A -> bool) (l : list A) : forall m,
  let r := fold_left (fun m y => if better y m then y else m) l m in
  r = m \/ In r l.
Proof.
  induction l as [|y l IH]; intro m; simpl; [left; reflexivity|].
  destruct (IH (if better y m then y else m)) as [E | Hin].
  - rewrite E. destruct (better y m); [right; left; reflexivity | left; reflexivity].
  - right. right. exact Hin.
Qed.

Lemma py_max_In l m : py_max l = Ok m -> In m l.
Proof.
  destruct l as [|y l]; simpl; [discriminate|]. intro H. injection H as <-.
  destruct (fold_pick_In fgt l y) as [E | Hin]; [left; symmetry; exact E | right; exact Hin].
Qed.

Lemma py_min_In l m : py_min l = Ok m -> In m l.
Proof.
  destruct l as [|y l]; simpl; [discriminate|]. intro H. injection H as <-.
  destruct (fold_pick_In flt l y) as [E | Hin]; [left; symmetry; exact E | right; exact Hin].
Qed.

(** On rationals the builtin [max] is an upper bound and [min] a lower
    bound of the list. *)
Lemma fold_max_upper (l : list Q) : forall (m : Q) (r : Q),
  fold_left (fun m y => if fgt y m then y else m) (map Fl l) (Fl m) = Fl r ->
  (m <= r)%Q /\ Forall (fun y => (y <= r)%Q) l.
Proof.
  induction l as [|y l IH]; intros m r H; simpl in H.
  - injection H as <-. split; [apply Qle_refl | constructor].
  - change (fgt (Fl y) (Fl m)) with (Qltb m y) in H.
    destruct (Qltb m y) eqn:E.
    + apply Qltb_lt in E. destruct (IH _ _ H) as [A B].
      split; [lra|]. constructor; assumption.
    + apply Qltb_ge in E. destruct (IH _ _ H) as [A B].
      split; [exact A|]. constructor; [lra | exact B].
Qed.

Lemma fold_min_lower (l : list Q) : forall (m : Q) (r : Q),
  fold_left (fun m y => if flt y m then y else m) (map Fl l) (Fl m) = Fl r ->
  (r <= m)%Q /\ Forall (fun y => (r <= y)%Q) l.
Proof.
  induction l as [|y l IH]; intros m r H; simpl in H.
  - injection H as <-. split; [apply Qle_refl | constructor].
  - change (flt (Fl y) (Fl m)) with (Qltb y m) in H.
    destruct (Qltb y m) eqn:E.
    + apply Qltb_lt in E. destruct (IH _ _ H) as [A B].
      split; [lra|]. constructor; assumption.
    + apply Qltb_ge in E. destruct (IH _ _ H) as [A B].
      split; [exact A|]. constructor; [lra | exact B].
Qed.

Lemma np_truediv_unit (a n : nat) :
  a <= S n -> exists q, np_truediv a (S n) = Fl q /\ (0 <= q)%Q /\ (q <= 1)%Q.
Proof.
  intro H. eexists. split; [reflexivity|].
  unfold Qle. cbn [Qnum Qden]. rewrite <- Pos.of_nat_succ, Zpos_P_of_succ_nat. lia.
Qed.

Lemma all_Fl (l : list pyfloat) :
  Forall (fun v => exists q, v = Fl q) l -> exists qs, l = map Fl qs.
Proof.
  induction 1 as [|v l [q ->] _ [qs ->]]; [exists []; reflexivity|].
  exists (q :: qs). reflexivity.
Qed.

(** The score over a universe: a number between 0 and 1 on a frame with
    rows, NaN on a frame without. *)
Lemma score_over_range data C f :
  score_over data C = Ok f ->
  match rows data with
  | [] => f = NaN
  | _ :: _ => exists q, f = Fl q /\ (0 <= q)%Q /\ (q <= 1)%Q
  end.
Proof.
  intro S.
  unfold score_over in S.
  destruct (FairnessEvaluator._calculate_supports data C) as [s | e |] eqn:Es;
    simpl in S; try discriminate.
  destruct (py_max (dict_values s)) as [mx | e |] eqn:Emx; simpl in S; try discriminate.
  destruct (py_min (dict_values s)) as [mn | e |] eqn:Emn; simpl in S; try discriminate.
  injection S as <-.
  pose proof (calculate_supports_values _ _ Es) as V. unfold len in V.
  destruct (rows data) as [|r rs] eqn:R.
  - rewrite Forall_forall in V. destruct (V _ (py_max_In _ Emx)) as (a & _ & ->).
    reflexivity.
  - assert (V' : Forall (fun v => exists q, v = Fl q /\ (0 <= q)%Q /\ (q <= 1)%Q)
                        (dict_values s)).
    { eapply Forall_impl; [|exact V]. intros v (a & Ha & ->).
      apply np_truediv_unit. exact Ha. }
    destruct (all_Fl (l := dict_values s)) as [qs Eqs].
    { eapply Forall_impl; [|exact V']. intros v (q & -> & _). exists q. reflexivity. }
    rewrite Forall_forall in V'.
    destruct (V' _ (py_max_In _ Emx)) as (qx & -> & X0 & X1).
    destruct (V' _ (py_min_In _ Emn)) as (qn & -> & N0 & N1).
    rewrite Eqs in Emx, Emn. destruct qs as [|q0 qs]; [discriminate|].
    simpl in Emx, Emn. injection Emx as Emx. injection Emn as Emn.
    destruct (fold_max_upper _ _ Emx) as [Ux _].
    destruct (fold_min_lower _ _ Emn) as [Ln _].
    exists (1 - (qx - qn))%Q. split; [reflexivity|]. split; lra.
Qed.

(** X1. Whenever [evaluate] returns a score for a frame that has rows, the
    score is a number between 0 and 1; for a frame without rows the score
    it returns is NaN. *)
Theorem evaluate_score_is_between_zero_and_one
  (data : DataFrame) (attrs : list string) (st st' : State) (f : pyfloat) :
  FairnessEvaluator.evaluate data attrs st = (Ok f, st') ->
  match rows data with
  | [] => f = NaN
  | _ :: _ => exists q, f = Fl q /\ (0 <= q)%Q /\ (q <= 1)%Q
  end.
Proof.
  intro H. destruct (evaluate_Ok_entry _ _ _ H) as (C & _ & S).
  exact (score_over_range _ _ S).
Qed.

Lemma evaluate_score_is_between_zero_and_one_witness :
  exists q, Fl (6 # 9) = Fl q /\ (0 <= q)%Q /\ (q <= 1)%Q.
Proof.
  exact (@evaluate_score_is_between_zero_and_one Samples.aab ["group"%string] Samples.st0
           (snd (FairnessEvaluator.evaluate Samples.aab ["group"%string] Samples.st0))
           (Fl (6 # 9)) eq_refl).
Defined.

(** X2. Over a universe already cached for the attribute list, [evaluate]
    does not depend on the order of the rows: two frames with the same
    columns and the same rows in any order get the same result. *)
Theorem evaluate_ignores_row_order_once_cached
  (d d' : DataFrame) (attrs : list string) (st : State) (C : list combo) :
  entry attrs st = Some C ->
  columns d' = columns d -> Permutation (rows d') (rows d) ->
  FairnessEvaluator.evaluate d' attrs st = FairnessEvaluator.evaluate d attrs st.
Proof.
  intros E Hc Hp.
  rewrite evaluate_hit with (1 := E). rewrite evaluate_hit with (1 := E).
  rewrite score_over_perm with (1 := Hc) (2 := Hp). reflexivity.
Qed.

Lemma evaluate_ignores_row_order_once_cached_witness :
  let st := snd (FairnessEvaluator.evaluate Samples.aab ["group"%string] Samples.st0) in
  FairnessEvaluator.evaluate (Samples.grp ["B"; "A"; "A"]%string) ["group"%string] st
  = FairnessEvaluator.evaluate Samples.aab ["group"%string] st.
Proof.
  cbv zeta.
  apply (@evaluate_ignores_row_order_once_cached Samples.aab
           (Samples.grp ["B"; "A"; "A"]%string) ["group"%string] _
           [[("group"%string, VStr "A")]; [("group"%string, VStr "B")]]).
  - reflexivity.
  - reflexivity.
  - simpl. apply Permutation_sym.
    change (Permutation ([[VStr "A"]; [VStr "A"]] ++ [[VStr "B"]])
                        ([[VStr "B"]] ++ [[VStr "A"]; [VStr "A"]]))%string.
    apply Permutation_app_comm.
Defined.

(** X3. In [optimize_fairness] the baseline and the score of the adjusted
    frame are measured over one and the same subgroup universe, the one
    cached for the attribute list when the baseline has been computed; on
    an evaluator with nothing cached this is the universe of the original
    frame, whatever values the adjusted frame still holds. *)
Theorem baseline_and_final_share_one_universe
  (Solve : CpModel -> CpOutcome) (data : DataFrame) (config : Config)
  (st st' : State) (init opt fin : pyfloat) (adjusted : DataFrame) :
  adjust_and_score Solve data config st = (Ok (init, opt, adjusted, fin), st') ->
  exists C,
    entry (sensitive_attributes config) st' = Some C /\
    score_over data C = Ok init /\
    score_over adjusted C = Ok fin /\
    (entry (sensitive_attributes config) st = None ->
     all_combinations data (sensitive_attributes config) = Ok C).
Proof.
  intro Hm. unfold adjust_and_score in Hm.
  inv_bind_as Hm init0 s0 E0.
  inv_bind_as Hm cd0 s0' Hg. inv_lift Hg.
  inv_bind_as Hm sol s1 Hsolve.
  inv_bind_as Hm opt0 s2 Hopt.
  inv_bind_as Hm cal s3 Hcal.
  inv_bind_as Hm ra s4 Ha.
  inv_bind_as Hm fin0 s5 Ef.
  inv_ret Hm. injection Hm as -> -> -> ->.
  destruct (evaluate_Ok_entry _ _ _ E0) as (C & HC & S0).
  assert (K1 : entry (sensitive_attributes config) s1 = Some C)
    by (eapply keeps_solve; [exact HC | exact Hsolve]).
  assert (K2 : entry (sensitive_attributes config) s2 = Some C).
  { destruct (fairness_score sol); [inv_ret Hopt; exact K1 | discriminate]. }
  assert (K3 : entry (sensitive_attributes config) s3 = Some C)
    by (eapply keeps_calibration; [exact K2 | exact Hcal]).
  assert (K4 : entry (sensitive_attributes config) s4 = Some C)
    by (eapply keeps_adjust_data; [exact K3 | exact Ha]).
  rewrite evaluate_hit with (1 := K4) in Ef. injection Ef as Ef <-.
  exists C. split; [exact K4|]. split; [exact S0|]. split; [exact Ef|].
  intro Hnone. rewrite evaluate_miss with (1 := Hnone) in E0.
  destruct (all_combinations data (sensitive_attributes config)) as [C' | e |];
    try discriminate.
  injection E0 as _ <-. unfold entry, with_cache in HC. simpl in HC.
  rewrite dict_get_set_same in HC by exact Hnone. congruence.
Qed.

Lemma baseline_and_final_share_one_universe_witness :
  exists C,
    score_over Samples.aab C = Ok (Fl (6 # 9)) /\
    score_over (Samples.grp ["A"; "A"]%string) C = Ok (Fl (0 # 4)) /\
    all_combinations Samples.aab ["group"%string] = Ok C.
Proof.
  destruct (@baseline_and_final_share_one_universe Samples.gives_up Samples.aab
              (Samples.on_group (2 # 3)) Samples.st_id
              (snd (adjust_and_score Samples.gives_up Samples.aab (Samples.on_group (2 # 3))
                                     Samples.st_id))
              (Fl (6 # 9)) (Fl (2 # 2)) (Fl (0 # 4)) (Samples.grp ["A"; "A"]%string)
              ltac:(vm_compute; reflexivity))
    as (C & _ & A & B & U).
  exists C. split; [exact A|]. split; [exact B | exact (U eq_refl)].
Defined.

(* ================================================================= *)
(** ** Calibration below one *)

Lemma binary_search_S fuel data config opt low high :
  binary_search (S fuel) data config opt low high
  = if Qltb tolerance (high - low) then
      bind (trial data config ((low + high) / 2))
           (fun fairness =>
              if flt (fabs (fsub fairness opt)) (Fl tolerance) then ret ((low + high) / 2)%Q
              else if flt fairness opt
                   then binary_search fuel data config opt ((low + high) / 2) high
                   else binary_search fuel data config opt low ((low + high) / 2))
    else ret ((low + high) / 2)%Q.
Proof. reflexivity. Qed.

Lemma bisect_S fuel close below low high :
  bisect (S fuel) close below low high
  = if Qltb tolerance (high - low) then
      if close then Some ((low + high) / 2)%Q
      else if below then bisect fuel close below ((low + high) / 2) high
           else bisect fuel close below low ((low + high) / 2)
    else Some ((low + high) / 2)%Q.
Proof. reflexivity. Qed.

Lemma iloc_all (data : DataFrame) : iloc data (seq 0 (len data)) = Ok data.
Proof.
  unfold iloc.
  replace (forallb (fun i => i <? len data) (seq 0 (len data))) with true.
  - destruct data as [cols rs]. unfold len. simpl. rewrite map_nth_seq. reflexivity.
  - symmetry. apply forallb_forall. intros i Hi. apply in_seq in Hi.
    apply Nat.ltb_lt. lia.
Qed.

(** A trial at a coefficient of at most one scores the original frame. *)
Lemma trial_at_most_one data config mid st f st1 :
  Qle_bool mid 1 = true ->
  FairnessEvaluator.evaluate data (sensitive_attributes config) st = (Ok f, st1) ->
  trial data config mid st = (Ok f, st1).
Proof.
  intros Hm E. destruct (evaluate_Ok_entry _ _ _ E) as (C & HC & HS).
  unfold trial, adjust_data. cbv zeta.
  unfold bind at 1. unfold bind at 1. rewrite E, Hm.
  cbn [selected_indices]. rewrite iloc_all. unfold bind, lift, ret. cbn [fst].
  rewrite evaluate_hit with (1 := HC). rewrite HS. reflexivity.
Qed.

Lemma binary_search_constant data config opt (fuel : nat) : forall low high st C f,
  entry (sensitive_attributes config) st = Some C ->
  score_over data C = Ok f ->
  (low <= high)%Q -> (high <= 1)%Q ->
  binary_search fuel data config opt low high st
  = match bisect fuel (flt (fabs (fsub f opt)) (Fl tolerance)) (flt f opt) low high with
    | Some c => (Ok c, st)
    | None => (Diverge, st)
    end.
Proof.
  induction fuel as [|n IH]; intros low high st C f HC HS L H1.
  - reflexivity.
  - rewrite binary_search_S, bisect_S.
    destruct (Qltb tolerance (high - low)); [|reflexivity].
    destruct (mid_between L) as [B1 B2].
    assert (E : FairnessEvaluator.evaluate data (sensitive_attributes config) st = (Ok f, st)).
    { rewrite evaluate_hit with (1 := HC). rewrite HS. reflexivity. }
    assert (Hm : Qle_bool ((low + high) / 2) 1 = true) by (apply Qle_bool_iff; lra).
    rewrite bind_step with (1 := @trial_at_most_one data config _ st f st Hm E).
    assert (H2 : ((low + high) / 2 <= 1)%Q) by lra.
    pose proof (IH _ _ _ _ _ HC HS B2 H1) as IHup.
    pose proof (IH _ _ _ _ _ HC HS B1 H2) as IHdown.
    destruct (flt (fabs (fsub f opt)) (Fl tolerance)); [reflexivity|].
    destruct (flt f opt); assumption.
Qed.

Lemma bisect_unit_bracket (close below : bool) :
  bisect search_fuel close below 0 1
  = Some (if close then 1 # 2 else if below then 2047 # 2048 else 1 # 2048)%Q.
Proof. destruct close, below; vm_compute; reflexivity. Qed.

(** X4. For coefficients of at most one the calibration adjusts with every
    row selected, so each trial measures the baseline of the original
    frame.  Whenever the search over [0, 1] returns, its result is
    therefore one of three numbers: 1/2 if the baseline is within 0.001 of
    the solver's score, else 2047/2048 if the baseline is below that
    score, else 1/2048. *)
Theorem calibration_below_one_takes_three_values
  (data : DataFrame) (config : Config) (init opt : pyfloat) (st st' : State) (c1 c2 : Q) :
  calculate_optimal_coefficients data config init opt st = (Ok (c1, c2), st') ->
  exists f,
    fst (FairnessEvaluator.evaluate data (sensitive_attributes config) st) = Ok f /\
    c1 = (if flt (fabs (fsub f opt)) (Fl tolerance) then 1 # 2
          else if flt f opt then 2047 # 2048 else 1 # 2048)%Q.
Proof.
  intro H. unfold calculate_optimal_coefficients in H.
  inv_bind_as H a1 st1 S1. inv_bind_as H a2 st2 S2. inv_ret H. injection H as <- <-.
  clear S2. unfold search_fuel in S1. rewrite binary_search_S in S1.
  replace (Qltb tolerance (1 - 0)) with true in S1 by reflexivity.
  inv_bind_as S1 f s T.
  destruct (FairnessEvaluator.evaluate data (sensitive_attributes config) st)
    as [[f0 | e |] s0] eqn:E.
  - assert (Hm : Qle_bool ((0 + 1) / 2) 1 = true) by reflexivity.
    rewrite (@trial_at_most_one data config _ st f0 s0 Hm E) in T. injection T as <- <-.
    exists f0. split; [reflexivity|].
    destruct (evaluate_Ok_entry _ _ _ E) as (C & HC & HS).
    pose proof (bisect_unit_bracket (flt (fabs (fsub f0 opt)) (Fl tolerance)) (flt f0 opt))
      as B.
    unfold search_fuel in B. rewrite bisect_S in B.
    replace (Qltb tolerance (1 - 0)) with true in B by reflexivity.
    destruct (flt (fabs (fsub f0 opt)) (Fl tolerance)) eqn:Ec.
    + inv_ret S1. reflexivity.
    + destruct (flt f0 opt) eqn:Eb.
      * rewrite binary_search_constant with (C := C) (f := f0) in S1;
          try assumption; try discriminate.
        rewrite Ec, Eb, B in S1. injection S1 as <- _. reflexivity.
      * rewrite binary_search_constant with (C := C) (f := f0) in S1;
          try assumption; try discriminate.
        rewrite Ec, Eb, B in S1. injection S1 as <- _. reflexivity.
  - exfalso. unfold trial, adjust_data in T. cbv zeta in T.
    unfold bind at 1 in T. unfold bind at 1 in T. rewrite E in T. discriminate.
  - exfalso. unfold trial, adjust_data in T. cbv zeta in T.
    unfold bind at 1 in T. unfold bind at 1 in T. rewrite E in T. discriminate.
Qed.

Lemma calibration_below_one_takes_three_values_witness :
  exists f,
    fst (FairnessEvaluator.evaluate Samples.aab ["group"%string] Samples.st0) = Ok f /\
    (2047 # 2048)%Q
    = (if flt (fabs (fsub f (Fl 1))) (Fl tolerance) then 1 # 2
       else if flt f (Fl 1) then 2047 # 2048 else 1 # 2048)%Q.
Proof.
  exact (@calibration_below_one_takes_three_values Samples.aab (Samples.on_group (2 # 3))
           (Fl (6 # 9)) (Fl 1) Samples.st0
           (snd (calculate_optimal_coefficients Samples.aab (Samples.on_group (2 # 3))
                   (Fl (6 # 9)) (Fl 1) Samples.st0))
           (2047 # 2048)%Q (4095 # 2048)%Q ltac:(vm_compute; reflexivity)).
Defined.

(* ================================================================= *)
(** ** Size and content of the returned frame *)

Lemma target_ge_size (n : nat) (c : Q) :
  (1 <= c)%Q -> (Z.of_nat n <= py_int (inject_Z (Z.of_nat n) * c))%Z.
Proof.
  intro H.
  assert (H0 : (0 <= c)%Q) by lra.
  rewrite py_int_floor by (apply scaled_nonneg; exact H0).
  assert (Hn : (0 <= inject_Z (Z.of_nat n))%Q) by (unfold Qle, inject_Z; simpl; lia).
  assert (M : (inject_Z (Z.of_nat n) <= inject_Z (Z.of_nat n) * c)%Q) by nra.
  apply Qfloor_resp_le in M. rewrite Qfloor_Z in M. exact M.
Qed.

Lemma regression_check_cases data init adjusted fin :
  fst (regression_check data init adjusted fin) = data \/
  fst (regression_check data init adjusted fin) = adjusted.
Proof. unfold regression_check. destruct (flt fin init); [left | right]; reflexivity. Qed.

Lemma optimize_fairness_inv Solve data config st r st' :
  optimize_fairness Solve data config st = (Ok r, st') ->
  exists init cd s1 sol s2 s3 ra s4 fin,
    generate_constraints data config = Ok cd /\
    solve Solve cd (coefficient config) init s1 = (Ok sol, s2) /\
    adjust_data data sol (coefficient config) (sensitive_attributes config) s3 = (Ok ra, s4) /\
    adjusted_data r = fst (regression_check data init (fst ra) fin).
Proof.
  intro H. unfold optimize_fairness in H. inv_bind_as H a s Hm.
  destruct a as [[[init opt] adj] fin]. inv_ret H. cbn [FairnessOptimizer.adjusted_data].
  unfold adjust_and_score in Hm.
  inv_bind_as Hm init0 s0 E0.
  inv_bind_as Hm cd0 s0' Hg. inv_lift Hg.
  inv_bind_as Hm sol s1 Hsolve.
  inv_bind_as Hm opt0 s2 Hopt.
  inv_bind_as Hm cal s3 Hcal.
  inv_bind_as Hm ra s4 Ha.
  inv_bind_as Hm fin0 s5 Ef.
  inv_ret Hm. injection Hm as -> -> -> ->.
  do 9 eexists. repeat split; eassumption || reflexivity.
Qed.

(** X5. For a coefficient that is not negative and a solver whose reported
    assignments satisfy the model, the frame [optimize_fairness] returns has
    either as many rows as the original or exactly [int(n * coefficient)]
    rows. *)
Theorem optimize_fairness_returns_n_or_target_rows
  (Solve : CpModel -> CpOutcome) (data : DataFrame) (config : Config)
  (st st' : State) (r : Outcome) :
  (0 <= coefficient config)%Q ->
  (forall cd, generate_constraints data config = Ok cd -> sound_on Solve (model cd)) ->
  optimize_fairness Solve data config st = (Ok r, st') ->
  len (adjusted_data r) = len data \/
  Z.of_nat (len (adjusted_data r))
  = py_int (inject_Z (Z.of_nat (len data)) * coefficient config).
Proof.
  intros H0 HS H.
  destruct (optimize_fairness_inv _ _ _ _ H)
    as (init & cd & s1 & sol & s2 & s3 & ra & s4 & fin & G & Hsolve & Ha & ->).
  destruct (regression_check_cases data init (fst ra) fin) as [-> | ->];
    [left; reflexivity|].
  destruct (Qle_bool (coefficient config) 1) eqn:Hc.
  - right. assert (H1 : (coefficient config <= 1)%Q) by (apply Qle_bool_iff; exact Hc).
    pose proof (target_le_size (len data) H0 H1) as Hle.
    destruct (@solve_valid Solve data config cd init s1 sol s2 G (HS cd G) Hle Hsolve)
      as [Hk V].
    rewrite adjust_data_undersampling_inv with (1 := Hc) (2 := V) (3 := Ha).
    unfold len at 1. cbn [rows]. rewrite length_map.
    destruct V as (L & _). lia.
  - assert (H1 : (1 <= coefficient config)%Q).
    { apply Qlt_le_weak. apply Qnot_le_lt. intro L. apply Qle_bool_iff in L. congruence. }
    pose proof (target_ge_size (len data) H1) as Hge.
    unfold adjust_data in Ha. cbv zeta in Ha.
    inv_bind_as Ha base s5 Eb. rewrite Hc in Ha.
    inv_bind_as Ha adj s6 Ho. inv_ret Ha. cbn [fst].
    apply oversample_rounds in Ho. apply batch_rounds_result in Ho.
    destruct Ho as [-> | (batch & -> & Lb)]; [left; reflexivity|].
    right. unfold len, concat in *. cbn [rows]. rewrite length_app. lia.
Qed.

Lemma optimize_fairness_returns_n_or_target_rows_witness :
  len (Samples.grp ["A"; "B"]%string) = len Samples.aab \/
  Z.of_nat (len (Samples.grp ["A"; "B"]%string)) = py_int (inject_Z (Z.of_nat 3) * (2 # 3)).
Proof.
  apply (@optimize_fairness_returns_n_or_target_rows Samples.keep_0_2 Samples.aab
           (Samples.on_group (2 # 3)) Samples.st0
           (snd (optimize_fairness Samples.keep_0_2 Samples.aab (Samples.on_group (2 # 3))
                                   Samples.st0))
           {| adjusted_data := Samples.grp ["A"; "B"]%string;
              initial_fairness := Fl (6 # 9);
              optimized_fairness_score := Fl (inject_Z 1000000 / 1000000);
              final_fairness := Fl (4 # 4) |}).
  - discriminate.
  - intros cd G. assert (E : Ok cd = Ok (Samples.model_aab 2)) by (rewrite <- G; reflexivity).
    injection E as ->. intros _. reflexivity.
  - vm_compute. reflexivity.
Defined.

Lemma selection_complement (n k : nat) (sel : list nat) :
  valid_selection n k sel -> exists rest, Permutation (sel ++ rest) (seq 0 n).
Proof.
  intros (_ & N & F).
  exists (filter (fun i => negb (existsb (Nat.eqb i) sel)) (seq 0 n)).
  assert (Hmem : forall i, existsb (Nat.eqb i) sel = true <-> In i sel).
  { intro i. rewrite existsb_exists. split.
    - intros (j & Hj & E). apply Nat.eqb_eq in E. subst. exact Hj.
    - intro Hi. exists i. split; [exact Hi | apply Nat.eqb_refl]. }
  apply NoDup_Permutation.
  - apply NoDup_app; [exact N | apply NoDup_filter, seq_NoDup|].
    intros i Hi Hf. apply filter_In in Hf. destruct Hf as [_ Hf].
    apply negb_true_iff in Hf. apply Hmem in Hi. congruence.
  - apply seq_NoDup.
  - intro i. rewrite in_app_iff, filter_In. split.
    + intros [Hi | [Hi _]]; [|exact Hi].
      rewrite Forall_forall in F. apply in_seq. specialize (F i Hi). lia.
    + intro Hi. destruct (existsb (Nat.eqb i) sel) eqn:E.
      * left. apply Hmem. exact E.
      * right. split; [exact Hi | reflexivity].
Qed.

(** X6. For a coefficient between 0 and 1 and a solver whose reported
    assignments satisfy the model, [optimize_fairness] returns the original
    columns and a selection of the original rows in which no row position
    is used twice: together with the rows left out they make up the
    original frame. *)
Theorem undersampling_returns_part_of_the_original
  (Solve : CpModel -> CpOutcome) (data : DataFrame) (config : Config)
  (st st' : State) (r : Outcome) :
  (0 <= coefficient config)%Q -> (coefficient config <= 1)%Q ->
  (forall cd, generate_constraints data config = Ok cd -> sound_on Solve (model cd)) ->
  optimize_fairness Solve data config st = (Ok r, st') ->
  columns (adjusted_data r) = columns data /\
  exists left_out, Permutation (rows (adjusted_data r) ++ left_out) (rows data).
Proof.
  intros H0 H1 HS H.
  destruct (optimize_fairness_inv _ _ _ _ H)
    as (init & cd & s1 & sol & s2 & s3 & ra & s4 & fin & G & Hsolve & Ha & ->).
  destruct (regression_check_cases data init (fst ra) fin) as [-> | ->].
  { split; [reflexivity|]. exists []. rewrite app_nil_r. apply Permutation_refl. }
  assert (Hc : Qle_bool (coefficient config) 1 = true) by (apply Qle_bool_iff; exact H1).
  pose proof (target_le_size (len data) H0 H1) as Hle.
  destruct (@solve_valid Solve data config cd init s1 sol s2 G (HS cd G) Hle Hsolve)
    as [Hk V].
  rewrite adjust_data_undersampling_inv with (1 := Hc) (2 := V) (3 := Ha).
  cbn [columns rows]. split; [reflexivity|].
  destruct (selection_complement V) as [rest P].
  exists (map (fun i => nth i (rows data) []) rest).
  rewrite <- map_app.
  eapply Permutation_trans; [apply Permutation_map; exact P|].
  unfold len. rewrite map_nth_seq. apply Permutation_refl.
Qed.

Lemma undersampling_returns_part_of_the_original_witness :
  columns (Samples.grp ["A"; "B"]%string) = columns Samples.aab /\
  exists left_out,
    Permutation (rows (Samples.grp ["A"; "B"]%string) ++ left_out) (rows Samples.aab).
Proof.
  apply (@undersampling_returns_part_of_the_original Samples.keep_0_2 Samples.aab
           (Samples.on_group (2 # 3)) Samples.st0
           (snd (optimize_fairness Samples.keep_0_2 Samples.aab (Samples.on_group (2 # 3))
                                   Samples.st0))
           {| adjusted_data := Samples.grp ["A"; "B"]%string;
              initial_fairness := Fl (6 # 9);
              optimized_fairness_score := Fl (inject_Z 1000000 / 1000000);
              final_fairness := Fl (4 # 4) |}).
  - discriminate.
  - discriminate.
  - intros cd G. assert (E : Ok cd = Ok (Samples.model_aab 2)) by (rewrite <- G; reflexivity).
    injection E as ->. intros _. reflexivity.
  - vm_compute. reflexivity.
Defined.

(* ================================================================= *)
(** ** Shape and content of synthetic rows *)

Lemma replace_at_same (r : list value) (j : nat) (v : value) :
  j < length r -> cell j (firstn j r ++ v :: skipn (S j) r) = v.
Proof.
  intro Hj. unfold cell.
  assert (L : length (firstn j r) = j) by (apply firstn_length_le; lia).
  rewrite app_nth2 by lia. rewrite L, Nat.sub_diag. reflexivity.
Qed.

Lemma row_setitem_at data r column v j :
  length r = length (columns data) ->
  col_index column (columns data) = Some j ->
  cell j (row_setitem data r column v) = v.
Proof.
  intros L E. unfold row_setitem. rewrite E.
  apply replace_at_same. rewrite L. eapply col_index_lt. exact E.
Qed.

Lemma row_setitem_elsewhere data r column v i :
  length r = length (columns data) ->
  col_index column (columns data) <> Some i ->
  cell i (row_setitem data r column v) = cell i r.
Proof.
  intros L N. unfold row_setitem.
  destruct (col_index column (columns data)) as [j|] eqn:E; [|reflexivity].
  apply replace_at_other.
  - rewrite L. eapply col_index_lt. exact E.
  - intros ->. apply N. reflexivity.
Qed.

Lemma unique_incl (l : list value) : incl (unique l) l.
Proof.
  induction l as [|x0 l IH]; simpl; [intros v []|].
  intros v [<- | Hv]; [left; reflexivity|].
  right. apply IH. apply filter_In in Hv. apply Hv.
Qed.

Lemma np_random_choice_In {A} (l : list A) st v st' :
  np_random_choice l st = (Ok v, st') -> In v l.
Proof.
  unfold np_random_choice. destruct l as [|a l]; [discriminate|].
  unfold randbelow, next.
  assert (B : draws (np_random st) (pos (np_random st)) mod length (a :: l)
              < length (a :: l)) by (apply Nat.mod_upper_bound; discriminate).
  pose proof (nth_In (a :: l) a B) as HI.
  intro H. injection H as <- _. exact HI.
Qed.

Lemma np_random_randint_range (low high : Z) st v st' :
  np_random_randint low high st = (Ok v, st') -> (low <= v < high)%Z.
Proof.
  unfold np_random_randint, randbelow, next.
  destruct (high <=? low)%Z eqn:E; [discriminate|].
  apply Z.leb_gt in E. intro H. injection H as <- _.
  assert (draws (np_random st) (pos (np_random st)) mod Z.to_nat (high - low)
          < Z.to_nat (high - low)) by (apply Nat.mod_upper_bound; lia).
  lia.
Qed.

(** One pass of the inner loop writes only the cell of its column, and
    writes an admissible value there when it redraws the column. *)
(** A draw below the wrapped successor is not above the number. *)
Lemma int64_succ_above (z v : Z) : (v < int64_succ z)%Z -> (v <= z)%Z.
Proof.
  unfold int64_succ. destruct (z =? 2 ^ 63 - 1)%Z eqn:E.
  - apply Z.eqb_eq in E. subst z. change (2 ^ 63)%Z with 9223372036854775808%Z. lia.
  - lia.
Qed.

Lemma perturb_step data names s column st s' st' :
  length s = length (columns data) ->
  perturb data names s column st = (Ok s', st') ->
  (forall i, col_index (fst column) (columns data) <> Some i -> cell i s' = cell i s) /\
  (name_in (fst column) names = false ->
   forall i, col_index (fst column) (columns data) = Some i ->
             redrawn_within data column (cell i s')).
Proof.
  intros L H. unfold perturb in H. unfold redrawn_within.
  destruct (negb (name_in (fst column) names)) eqn:N.
  - inv_bind_as H col st1 Hc. inv_lift Hc. rewrite Hc.
    destruct (snd column).
    + inv_bind_as H v st2 Hv. inv_ret H. apply np_random_randint_range in Hv.
      split; [intros i Hi; apply row_setitem_elsewhere; assumption|].
      intros _ i Hi. rewrite row_setitem_at by assumption.
      exists v. split; [apply Z.eqb_refl|].
      split; [apply Hv | apply int64_succ_above; apply Hv].
    + inv_bind_as H g st2 Hg. inv_bind_as H old st3 Ho. inv_ret H.
      split; [intros i Hi; apply row_setitem_elsewhere; assumption|].
      intros _ i Hi. exact I.
    + inv_bind_as H v st2 Hv. inv_ret H. apply np_random_choice_In in Hv.
      split; [intros i Hi; apply row_setitem_elsewhere; assumption|].
      intros _ i Hi. rewrite row_setitem_at by assumption.
      apply unique_incl. exact Hv.
    + unfold raise in H. discriminate.
    + inv_ret H. split; [reflexivity|]. intros _ i Hi. exact I.
  - inv_ret H. apply negb_false_iff in N.
    split; [reflexivity|]. intro N'. congruence.
Qed.

Lemma perturb_all_elsewhere data names (cols : list (string * dtype)) :
  forall s st s' st' i,
    length s = length (columns data) ->
    foldM (perturb data names) cols s st = (Ok s', st') ->
    (forall c, In c cols -> col_index (fst c) (columns data) <> Some i) ->
    cell i s' = cell i s.
Proof.
  induction cols as [|c t IH]; intros s st s' st' i L H N; cbn [foldM] in H.
  - inv_ret H. reflexivity.
  - inv_bind_as H s1 st1 H1.
    destruct (perturb_keeps _ _ _ _ _ L H1) as [L1 _].
    destruct (perturb_step _ _ _ _ _ L H1) as [E1 _].
    assert (L2 : length s1 = length (columns data)) by congruence.
    rewrite IH with (1 := L2) (2 := H) by (intros c' Hc'; apply N; right; exact Hc').
    apply E1. apply N. left. reflexivity.
Qed.

Lemma perturb_all_redraws data names (cols : list (string * dtype)) :
  forall s st s' st',
    NoDup (map fst cols) ->
    length s = length (columns data) ->
    foldM (perturb data names) cols s st = (Ok s', st') ->
    forall column i,
      In column cols -> name_in (fst column) names = false ->
      col_index (fst column) (columns data) = Some i ->
      redrawn_within data column (cell i s').
Proof.
  induction cols as [|c t IH]; intros s st s' st' ND L H column i Hin Hn Hi;
    cbn [foldM] in H; [contradiction|].
  inv_bind_as H s1 st1 H1.
  destruct (perturb_keeps _ _ _ _ _ L H1) as [L1 _].
  destruct (perturb_step _ _ _ _ _ L H1) as [_ R1].
  assert (L2 : length s1 = length (columns data)) by congruence.
  cbn [map] in ND. inversion ND as [|? ? Hnot ND']; subst.
  destruct Hin as [<- | Hin].
  - rewrite perturb_all_elsewhere with (1 := L2) (2 := H).
    + apply R1; assumption.
    + intros c' Hc' E. apply Hnot.
      rewrite (col_index_inj _ _ _ Hi E). apply in_map. exact Hc'.
  - eapply IH; eassumption.
Qed.

(** X8. In a frame with distinct column names and one cell per column in
    every row, each synthetic row holds, in every column whose name does
    not start with [sensitive_], a value the column admits: for an integer
    column a number equal to an integer between the least and the greatest
    value of the column, for a text column one of the values of the
    column.  No synthetic row is returned at all when such a column is
    categorical: the dtype test raises TypeError on it. *)
Theorem synthetic_cells_stay_within_the_column
  (data : DataFrame) (n : Z) (st st' : State) (batch : DataFrame) :
  aligned data -> NoDup (map fst (columns data)) ->
  _generate_synthetic_samples data n st = (Ok batch, st') ->
  forall s column i,
    In s (rows batch) -> In column (columns data) ->
    startswith_sensitive (fst column) = false ->
    col_index (fst column) (columns data) = Some i ->
    redrawn_within data column (cell i s).
Proof.
  intros W ND H s column i Hs Hc Hp Hi.
  unfold _generate_synthetic_samples in H. cbv zeta in H.
  inv_bind_as H l st1 Hl. inv_ret H. simpl in Hs.
  assert (Hn : name_in (fst column)
                       (filter startswith_sensitive (map fst (columns data))) = false).
  { destruct (name_in _ _) eqn:E; [|reflexivity].
    apply existsb_exists in E. destruct E as (a & Ha & E).
    apply String.eqb_eq in E. subst a. apply filter_In in Ha. destruct Ha as [_ Ha].
    congruence. }
  revert st l st1 Hl Hs.
  induction (Z.to_nat n) as [|k IH]; intros st l st1 Hl Hs; cbn [synthetic_loop] in Hl.
  - inv_ret Hl. contradiction.
  - inv_bind_as Hl s0 st2 H0. inv_bind_as Hl rest st3 Hrest. inv_ret Hl.
    destruct Hs as [<- | Hs]; [|eapply IH; eassumption].
    unfold synthetic_sample in H0.
    inv_bind_as H0 combo st4 Hcombo. cbv zeta in H0. inv_bind_as H0 r st5 Hr.
    assert (Hin : In r (rows data)).
    { destruct (0 <? _).
      - apply sample_one_In in Hr. simpl in Hr. apply filter_In in Hr. apply Hr.
      - apply sample_one_In in Hr. exact Hr. }
    unfold aligned in W. rewrite Forall_forall in W.
    eapply perturb_all_redraws; [exact ND | exact (W r Hin) | exact H0 | | | ]; assumption.
Qed.

Lemma synthetic_cells_stay_within_the_column_witness :
  redrawn_within Samples.gender_race ("race"%string, ObjectDtype)
                 (cell 1 [VStr "M"; VStr "Y"]%string).
Proof.
  apply (@synthetic_cells_stay_within_the_column Samples.gender_race 1 Samples.st0
           (snd (_generate_synthetic_samples Samples.gender_race 1 Samples.st0))
           {| columns := columns Samples.gender_race;
              rows := [[VStr "M"; VStr "Y"]]%string |}).
  - repeat constructor.
  - repeat constructor; simpl; intuition discriminate.
  - vm_compute. reflexivity.
  - left. reflexivity.
  - right. left. reflexivity.
  - reflexivity.
  - reflexivity.
Defined.

(* ================================================================= *)
(** ** What the fallback returns *)

Lemma calculate_fairness_Ok_nonempty (sel : list nat) (count : list (combo * nat)) f :
  _calculate_fairness sel count = Ok f -> sel <> [] /\ count <> [].
Proof.
  intro H. split; intros ->.
  - unfold _calculate_fairness in H. cbv zeta in H.
    repeat match type of H with
           | context [rbind ?r _] => destruct r; simpl in H
           end; discriminate.
  - unfold _calculate_fairness in H. simpl in H. discriminate.
Qed.

(** With count variables the fallback is its first sample, scored by
    [_calculate_fairness]. *)
Lemma improved_solution_run n c cd init st sol st' :
  count cd <> [] ->
  _generate_improved_solution n c cd init st = (Ok sol, st') ->
  exists st1,
    random_sample_range n (Z.min (py_int (inject_Z (Z.of_nat n) * c)) (Z.of_nat n)) st
    = (Ok (selected_indices sol), st1) /\
    selected_indices sol <> [] /\
    fairness_score sol
    = Some (Fl (1 - inject_Z 0 / inject_Z (Z.of_nat (length (selected_indices sol))))).
Proof.
  intros Hc H. unfold _generate_improved_solution in H. cbv zeta in H.
  inv_bind_as H sel st1 Hs.
  destruct (count cd) as [|p t] eqn:Ec; [contradiction|].
  inv_bind_as H f st2 Hf. inv_lift Hf.
  inv_bind_as H r st3 Hl. inv_ret H. cbn [selected_indices fairness_score].
  destruct r as [sel' f'].
  destruct (local_search_returns_its_start _ _ _ _ _ _ _ Hf Hl) as [-> ->].
  exists st1. split; [exact Hs|].
  destruct (calculate_fairness_Ok_nonempty _ _ Hf) as [Hne _].
  split; [exact Hne|].
  rewrite calculate_fairness_is_constant in Hf by (assumption || discriminate).
  injection Hf as <-. reflexivity.
Qed.

(** X9. When the model has count variables, the heuristic fallback returns
    exactly the random sample it drew first, with the fairness score 1:
    no swap of the local search is ever accepted. *)
Theorem fallback_returns_its_first_sample
  (n : nat) (c : Q) (cd : constraints_data) (init : pyfloat)
  (st st' : State) (sol : Solution) :
  count cd <> [] ->
  _generate_improved_solution n c cd init st = (Ok sol, st') ->
  (exists st1,
      random_sample_range n (Z.min (py_int (inject_Z (Z.of_nat n) * c)) (Z.of_nat n)) st
      = (Ok (selected_indices sol), st1)) /\
  exists q, fairness_score sol = Some (Fl q) /\ (q == 1)%Q.
Proof.
  intros Hc H. destruct (improved_solution_run _ _ _ _ _ Hc H) as (st1 & Hs & _ & Hf).
  split; [exists st1; exact Hs|].
  eexists. split; [exact Hf|].
  unfold Qdiv. rewrite Qmult_0_l. reflexivity.
Qed.

Lemma fallback_returns_its_first_sample_witness :
  (exists st1,
      random_sample_range 3 (Z.min (py_int (inject_Z (Z.of_nat 3) * (2 # 3))) (Z.of_nat 3))
                          Samples.st_id
      = (Ok [0; 1], st1)) /\
  exists q, Some (Fl (2 # 2)) = Some (Fl q) /\ (q == 1)%Q.
Proof.
  apply (@fallback_returns_its_first_sample 3 (2 # 3) (Samples.model_aab 2) (Fl (6 # 9))
           Samples.st_id
           (snd (_generate_improved_solution 3 (2 # 3) (Samples.model_aab 2) (Fl (6 # 9))
                                             Samples.st_id))
           {| selected_indices := [0; 1]; fairness_score := Some (Fl (2 # 2)) |}).
  - discriminate.
  - vm_compute. reflexivity.
Defined.

(* ================================================================= *)
(** ** The subgroup universe *)

Lemma rmapM_Ok_inv {A B} (f : A -> result B) (l : list A) : forall ys,
  rmapM f l = Ok ys -> Forall2 (fun a y => f a = Ok y) l ys.
Proof.
  induction l as [|a l IH]; intros ys H; simpl in H.
  - injection H as <-. constructor.
  - destruct (f a) as [y | e |] eqn:E; simpl in H; try discriminate.
    destruct (rmapM f l) as [ys' | e |]; simpl in H; try discriminate.
    injection H as <-. constructor; [exact E | apply IH; reflexivity].
Qed.

Lemma Forall2_In_r {A B} (R : A -> B -> Prop) l ys y :
  Forall2 R l ys -> In y ys -> exists a, In a l /\ R a y.
Proof.
  induction 1 as [|a b l ys Hab _ IH]; intro Hin; [contradiction|].
  destruct Hin as [<- | Hin].
  - exists a. split; [left; reflexivity | exact Hab].
  - destruct (IH Hin) as (a' & Ha' & Hr). exists a'. split; [right; exact Ha' | exact Hr].
Qed.

Lemma frozenset_incl (l : list (string * value)) : incl (frozenset l) l.
Proof.
  induction l as [|p l IH]; simpl; [intros q []|].
  intros q [<- | Hq]; [left; reflexivity|].
  right. apply IH. apply filter_In in Hq. apply Hq.
Qed.

Lemma frozenset_nonempty (l : list (string * value)) : l <> [] -> frozenset l <> [].
Proof. destruct l; [contradiction | discriminate]. Qed.

Lemma product_spec {A} (ls : list (list A)) : forall vs,
  In vs (product ls) -> Forall2 (fun v l => In v l) vs ls.
Proof.
  induction ls as [|l ls IH]; intros vs H; simpl in H.
  - destruct H as [<- | []]. constructor.
  - apply in_flat_map in H. destruct H as (v & Hv & H).
    apply in_map_iff in H. destruct H as (vs' & <- & Hvs').
    constructor; [exact Hv | apply IH; exact Hvs'].
Qed.

Lemma combine_Forall2 {A B C} (R : A -> C -> Prop) (T : B -> C -> Prop)
      (xs : list A) (cs : list C) :
  Forall2 R xs cs -> forall vs, Forall2 T vs cs ->
  forall a v, In (a, v) (combine xs vs) -> exists c, R a c /\ T v c.
Proof.
  induction 1 as [|a0 c0 xs cs R0 _ IH]; intros vs HT a v Hin; [contradiction|].
  inversion HT as [|v0 ? vs' ? T0 HT']; subst. simpl in Hin.
  destruct Hin as [E | Hin].
  - injection E as <- <-. exists c0. split; assumption.
  - eapply IH; eassumption.
Qed.

(** Every subgroup of the universe is a non-empty set of pairs, each made
    of a listed attribute and a value that occurs in its column. *)
Lemma universe_pairs data attrs C :
  all_combinations data attrs = Ok C ->
  forall c, In c C -> c <> [] /\ forall p, In p c -> observed_pair data attrs p.
Proof.
  unfold all_combinations. intro H.
  match type of H with rbind ?r _ = _ => destruct r as [singles | e |] eqn:E1 end;
    simpl in H; try discriminate.
  match type of H with rbind ?r _ = _ => destruct r as [higher | e |] eqn:E2 end;
    simpl in H; try discriminate.
  injection H as <-.
  apply rmapM_Ok_inv in E1. apply rmapM_Ok_inv in E2.
  intros c Hc. apply in_app_or in Hc. destruct Hc as [Hc | Hc].
  - apply in_concat in Hc. destruct Hc as (single & Hs & Hc).
    destruct (@Forall2_In_r _ _ _ _ _ _ E1 Hs) as (a & Ha & Hf).
    destruct (getitem data a) as [col | e |] eqn:G; simpl in Hf; try discriminate.
    injection Hf as <-. apply in_map_iff in Hc. destruct Hc as (v & <- & Hv).
    simpl. split; [discriminate|].
    intros p [<- | []]. split; [exact Ha|].
    exists col. split; [exact G | apply unique_incl; exact Hv].
  - apply in_concat in Hc. destruct Hc as (hc & Hh & Hc).
    apply in_concat in Hh. destruct Hh as (hk & Hk & Hh).
    destruct (@Forall2_In_r _ _ _ _ _ _ E2 Hk) as (k & Hkin & Hf). apply in_seq in Hkin.
    apply rmapM_Ok_inv in Hf.
    destruct (@Forall2_In_r _ _ _ _ _ _ Hf Hh) as (attrs_k & Hak & Hg).
    destruct (iter_combinations_spec _ _ _ Hak) as [Lk Ik].
    match type of Hg with rbind ?r _ = _ => destruct r as [cols | e |] eqn:E3 end;
      simpl in Hg; try discriminate.
    injection Hg as <-. apply rmapM_Ok_inv in E3.
    apply in_map_iff in Hc. destruct Hc as (values & <- & Hv).
    apply product_spec in Hv.
    split.
    + apply frozenset_nonempty.
      destruct attrs_k as [|a0 t0]; [simpl in Lk; lia|].
      inversion E3 as [|? c0 ? cs0 ? ?]; subst.
      inversion Hv; subst. discriminate.
    + intros [a v] Hp. apply frozenset_incl in Hp.
      destruct (@combine_Forall2 _ _ _ _ _ _ _ E3 _ Hv _ _ Hp) as (col & Hcol & Hin).
      split; [apply Ik; eapply in_combine_l; exact Hp|].
      cbn [fst snd] in *.
      destruct (getitem data a) as [col0 | e |]; simpl in Hcol; try discriminate.
      injection Hcol as <-. exists col0. split; [reflexivity | apply unique_incl; exact Hin].
Qed.


Lemma first_absent_None_intro cols names :
  (forall a, In a names -> col_index a cols <> None) -> first_absent cols names = None.
Proof.
  induction names as [|b t IH]; intro H; simpl; [reflexivity|].
  destruct (col_index b cols) as [i|] eqn:E.
  - apply IH. intros a Ha. apply H. right. exact Ha.
  - exfalso. apply (H b); [left; reflexivity | exact E].
Qed.

(** Every attribute a subgroup of the universe mentions is a column. *)
Lemma universe_columns data attrs C c :
  all_combinations data attrs = Ok C -> In c C ->
  first_absent (columns data) (map fst c) = None.
Proof.
  intros H Hc. destruct (universe_pairs _ _ H c Hc) as [_ P].
  apply first_absent_None_intro. intros a Ha.
  apply in_map_iff in Ha. destruct Ha as (p & <- & Hp).
  destruct (P p Hp) as [_ (col & G & _)]. unfold getitem in G.
  destruct (col_index (fst p) (columns data)); [discriminate | discriminate].
Qed.

(** With every listed attribute present the enumeration succeeds. *)
Lemma all_combinations_present data attrs :
  first_absent (columns data) attrs = None ->
  exists C, all_combinations data attrs = Ok C.
Proof.
  intro H. pose proof (first_absent_None _ _ H) as P.
  set (column := fun a => match col_index a (columns data) with
                          | Some i => map (cell i) (rows data)
                          | None => []
                          end).
  assert (G : forall a, In a attrs -> getitem data a = Ok (column a)).
  { intros a Ha. destruct (P a Ha) as [i Ei]. unfold getitem, column. rewrite Ei.
    reflexivity. }
  unfold all_combinations.
  rewrite rmapM_all with (h := fun a => map (fun v => frozenset [(a, v)]) (unique (column a))).
  2:{ intros a Ha. rewrite (G a Ha). reflexivity. }
  cbn [rbind].
  rewrite rmapM_all with
    (h := fun k => map (fun attrs_k =>
                          map (fun values => frozenset (combine attrs_k values))
                              (product (map (fun a => unique (column a)) attrs_k)))
                       (iter_combinations attrs k)).
  2:{ intros k _. apply rmapM_all. intros attrs_k Hk.
      destruct (iter_combinations_spec _ _ _ Hk) as [_ I].
      rewrite rmapM_all with (h := fun a => unique (column a)).
      - reflexivity.
      - intros a Ha. rewrite (G a (I a Ha)). reflexivity. }
  cbn [rbind]. eexists. reflexivity.
Qed.

Lemma unique_nonempty (l : list value) : l <> [] -> unique l <> [].
Proof. destruct l; [contradiction | discriminate]. Qed.

(** One listed attribute and one row are enough for a non-empty
    universe. *)
Lemma all_combinations_nonempty data attrs C :
  all_combinations data attrs = Ok C -> attrs <> [] -> rows data <> [] -> C <> [].
Proof.
  intros H Ha Hr. destruct attrs as [|a t]; [contradiction|].
  unfold all_combinations in H. cbn [rmapM] in H.
  unfold getitem at 1 in H.
  destruct (col_index a (columns data)) as [i|]; [|discriminate].
  cbn [rbind] in H.
  match type of H with
  | rbind (rbind ?r _) _ = _ => destruct r as [ss | e |]; cbn [rbind] in H; try discriminate
  end.
  match type of H with
  | rbind ?r _ = _ => destruct r as [hs | e |]; cbn [rbind] in H; try discriminate
  end.
  injection H as <-.
  destruct (rows data) as [|r rs]; [contradiction|]. discriminate.
Qed.

Lemma dict_set_nonempty {K V} (eqb : K -> K -> bool) (k : K) (v : V) d :
  dict_set eqb k v d <> [].
Proof. destruct d as [|[k' v'] t]; simpl; [discriminate|]. destruct (eqb k' k); discriminate. Qed.

(** The supports of subgroups that only mention columns of the frame can
    always be computed, one entry at least when there is a subgroup. *)
Lemma calculate_supports_Ok data C :
  (forall c, In c C -> first_absent (columns data) (map fst c) = None) ->
  exists s, FairnessEvaluator._calculate_supports data C = Ok s /\ (C <> [] -> s <> []).
Proof.
  unfold FairnessEvaluator._calculate_supports. cbv zeta.
  generalize (@nil (combo * pyfloat)) at 1. 
  induction C as [|c C IH]; intros d H.
  - exists d. split; [reflexivity | intro N; contradiction].
  - cbn [fold_left rbind]. rewrite combo_mask_spec.
    rewrite (H c (or_introl eq_refl)). cbn [rbind].
    destruct (IH (dict_set combo_eqb c
                    (np_truediv (FairnessEvaluator.mask_sum (map (matches data c) (rows data)))
                                (len data)) d)) as (s & E & N).
    { intros c' Hc'. apply H. right. exact Hc'. }
    exists s. split; [exact E|]. intros _.
    destruct C as [|c' C'].
    + simpl in E. injection E as <-. apply dict_set_nonempty.
    + apply N. discriminate.
Qed.

Lemma score_over_Ok data C :
  (forall c, In c C -> first_absent (columns data) (map fst c) = None) -> C <> [] ->
  exists f, score_over data C = Ok f.
Proof.
  intros H N. destruct (calculate_supports_Ok data C H) as (s & E & Ns).
  unfold score_over. rewrite E. cbn [rbind].
  destruct s as [|[k v] t]; [exfalso; apply Ns; [exact N | reflexivity]|].
  simpl. eexists. reflexivity.
Qed.

(** X10. On an evaluator that has no universe cached for the attribute
    list, [evaluate] returns a score exactly when every listed attribute is
    a column, at least one attribute is listed and the frame has at least
    one row; the score is then the one over the universe of the frame, which
    is cached. *)
Theorem evaluate_succeeds_exactly_on_valid_input
  (data : DataFrame) (attrs : list string) (st : State) :
  entry attrs st = None ->
  ((exists f st', FairnessEvaluator.evaluate data attrs st = (Ok f, st')) <->
   (first_absent (columns data) attrs = None /\ attrs <> [] /\ rows data <> [])) /\
  forall f st', FairnessEvaluator.evaluate data attrs st = (Ok f, st') ->
    exists C, all_combinations data attrs = Ok C /\ C <> [] /\
              score_over data C = Ok f /\
              st' = with_cache (dict_set FairnessEvaluator.key_eqb attrs C
                                         (combinations_cache st)) st.
Proof.
  intro E.
  assert (Inv : forall f st', FairnessEvaluator.evaluate data attrs st = (Ok f, st') ->
            exists C, all_combinations data attrs = Ok C /\ C <> [] /\
                      score_over data C = Ok f /\
                      st' = with_cache (dict_set FairnessEvaluator.key_eqb attrs C
                                                 (combinations_cache st)) st).
  { intros f st' H. rewrite evaluate_miss with (1 := E) in H.
    destruct (all_combinations data attrs) as [C | e |]; try discriminate.
    injection H as H1 H2. exists C. split; [reflexivity|]. split.
    - intros ->. rewrite score_over_empty in H1. discriminate.
    - split; [exact H1 | symmetry; exact H2]. }
  split; [|exact Inv]. split.
  - intros (f & st' & H). destruct (Inv f st' H) as (C & HC & N & _).
    destruct (first_absent (columns data) attrs) as [a|] eqn:F.
    + rewrite all_combinations_absent with (1 := F) in HC. discriminate.
    + split; [reflexivity|]. split.
      * intros ->. rewrite all_combinations_no_attrs in HC. injection HC as <-.
        apply N. reflexivity.
      * intro R. rewrite all_combinations_no_rows with (1 := F) (2 := R) in HC.
        injection HC as <-. apply N. reflexivity.
  - intros (F & Na & Nr). destruct (all_combinations_present data attrs F) as [C HC].
    destruct (@score_over_Ok data C) as [f Hf].
    + intros c Hc. eapply universe_columns; eassumption.
    + eapply all_combinations_nonempty; eassumption.
    + exists f. eexists. rewrite evaluate_miss with (1 := E). rewrite HC, Hf. reflexivity.
Qed.

Lemma evaluate_succeeds_exactly_on_valid_input_witness :
  ((exists f st', FairnessEvaluator.evaluate Samples.aab ["group"%string] Samples.st0
                  = (Ok f, st')) <->
   (first_absent (columns Samples.aab) ["group"%string] = None /\
    ["group"%string] <> [] /\ rows Samples.aab <> [])) /\
  forall f st', FairnessEvaluator.evaluate Samples.aab ["group"%string] Samples.st0
                = (Ok f, st') ->
    exists C, all_combinations Samples.aab ["group"%string] = Ok C /\ C <> [] /\
              score_over Samples.aab C = Ok f /\
              st' = with_cache (dict_set FairnessEvaluator.key_eqb ["group"%string] C
                                         (combinations_cache Samples.st0)) Samples.st0.
Proof.
  apply (@evaluate_succeeds_exactly_on_valid_input Samples.aab ["group"%string] Samples.st0).
  reflexivity.
Defined.

(* ================================================================= *)
(** ** The generated model *)

Lemma has_combination_present data r (c : combo) :
  first_absent (columns data) (map fst c) = None ->
  _has_combination data r c = Ok (matches data c r).
Proof.
  induction c as [|p c IH]; intro H; [reflexivity|].
  cbn [map first_absent] in H. cbn [_has_combination]. unfold row_getitem.
  unfold matches. cbn [forallb].
  destruct (col_index (fst p) (columns data)) as [i|]; [|discriminate].
  cbn [rbind]. destruct (value_eqb (cell i r) (snd p)); [|reflexivity].
  rewrite IH by exact H. reflexivity.
Qed.

(** X11. Every subgroup of the universe enumerated for a frame and an
    attribute list is a non-empty set of (attribute, value) pairs in which
    every attribute is one of the listed ones and every value occurs in the
    column of its attribute.  On the frame that produced it, the mask of the
    evaluator and the row test of the generator therefore never raise, and
    both agree row by row with the match test of the adjuster. *)
Theorem universe_holds_observed_pairs_only
  (data : DataFrame) (attrs : list string) (C : list combo) (c : combo) :
  all_combinations data attrs = Ok C -> In c C ->
  c <> [] /\
  (forall p, In p c -> observed_pair data attrs p) /\
  FairnessEvaluator.combo_mask data c = Ok (map (matches data c) (rows data)) /\
  forall r, _has_combination data r c = Ok (matches data c r).
Proof.
  intros H Hc. destruct (universe_pairs _ _ H c Hc) as [N P].
  pose proof (@universe_columns data attrs C c H Hc) as F.
  split; [exact N|]. split; [exact P|]. split.
  - rewrite combo_mask_spec, F. reflexivity.
  - intro r. apply has_combination_present. exact F.
Qed.

Lemma universe_holds_observed_pairs_only_witness :
  [("gender", VStr "M"); ("race", VStr "Y")]%string <> [] /\
  (forall p, In p [("gender", VStr "M"); ("race", VStr "Y")]%string ->
             observed_pair Samples.gender_race ["gender"; "race"]%string p) /\
  FairnessEvaluator.combo_mask Samples.gender_race
    [("gender", VStr "M"); ("race", VStr "Y")]%string
  = Ok (map (matches Samples.gender_race [("gender", VStr "M"); ("race", VStr "Y")]%string)
            (rows Samples.gender_race)) /\
  forall r, _has_combination Samples.gender_race r
              [("gender", VStr "M"); ("race", VStr "Y")]%string
            = Ok (matches Samples.gender_race
                          [("gender", VStr "M"); ("race", VStr "Y")]%string r).
Proof.
  apply (@universe_holds_observed_pairs_only Samples.gender_race ["gender"; "race"]%string
           [[("gender", VStr "M")]; [("gender", VStr "F")];
            [("race", VStr "X")]; [("race", VStr "Y")];
            [("gender", VStr "M"); ("race", VStr "X")];
            [("gender", VStr "M"); ("race", VStr "Y")];
            [("gender", VStr "F"); ("race", VStr "X")];
            [("gender", VStr "F"); ("race", VStr "Y")]]%string).
  - reflexivity.
  - do 5 right. left. reflexivity.
Defined.

Lemma rows_with_present data (c : combo) :
  first_absent (columns data) (map fst c) = None ->
  forall rs i,
    rows_with data c i rs
    = Ok (filter (fun j => matches data c (nth (j - i) rs [])) (seq i (length rs))).
Proof.
  intros H. induction rs as [|r rs IH]; intro i; [reflexivity|].
  cbn [rows_with]. rewrite has_combination_present by exact H. cbn [rbind].
  rewrite IH. cbn [rbind length seq].
  assert (E : filter (fun j => matches data c (nth (j - i) (r :: rs) [])) (seq (S i) (length rs))
              = filter (fun j => matches data c (nth (j - S i) rs [])) (seq (S i) (length rs))).
  { apply filter_ext_in. intros j Hj. apply in_seq in Hj.
    replace (j - i) with (S (j - S i)) by lia. reflexivity. }
  change (filter (fun j => matches data c (nth (j - i) (r :: rs) [])) (i :: seq (S i) (length rs)))
    with (if matches data c (nth (i - i) (r :: rs) [])
          then i :: filter (fun j => matches data c (nth (j - i) (r :: rs) []))
                           (seq (S i) (length rs))
          else filter (fun j => matches data c (nth (j - i) (r :: rs) []))
                      (seq (S i) (length rs))).
  rewrite E, Nat.sub_diag. reflexivity.
Qed.

Lemma rows_with_members data (c : combo) :
  first_absent (columns data) (map fst c) = None ->
  rows_with data c 0 (rows data) = Ok (members data c).
Proof.
  intro H. rewrite rows_with_present by exact H. unfold members, len. f_equal.
  apply filter_ext. intro j. rewrite Nat.sub_0_r. reflexivity.
Qed.

(** The loop over the subgroups in closed form: the [j]-th subgroup gets
    the count variable [j], defined as the number of selected members. *)
Lemma count_loop_present data : forall C j cnt cs,
  (forall c, In c C -> first_absent (columns data) (map fst c) = None) ->
  exists cnt',
    count_loop data C j cnt cs
    = Ok (cnt', cs ++ map (fun jc => CountEq (fst jc) (members data (snd jc)))
                          (combine (seq j (length C)) C)) /\
    (forall v, In v (dict_values cnt') -> In v (dict_values cnt) \/ j <= v < j + length C) /\
    (cnt <> [] \/ C <> [] -> cnt' <> []).
Proof.
  induction C as [|c C IH]; intros j cnt cs H.
  - exists cnt. cbn [count_loop length seq combine map]. rewrite app_nil_r.
    split; [reflexivity|]. split; [intros v Hv; left; exact Hv|].
    intros [N | N]; [exact N | contradiction].
  - cbn [count_loop]. rewrite rows_with_members by (apply H; left; reflexivity).
    cbn [rbind].
    destruct (IH (S j) (dict_set combo_eqb c j cnt) (cs ++ [CountEq j (members data c)]))
      as (cnt' & E & V & N).
    { intros c' Hc'. apply H. right. exact Hc'. }
    exists cnt'. split; [|split].
    + rewrite E. cbn [length seq combine map fst snd]. rewrite <- app_assoc. reflexivity.
    + intros v Hv. destruct (V v Hv) as [Hin | Hr]; [|right; cbn [length]; lia].
      assert (D : forall d, In v (dict_values (dict_set combo_eqb c j d)) ->
                            In v (dict_values d) \/ v = j).
      { clear. induction d as [|[k' v'] d IHd]; simpl.
        - intros [<- | []]. right. reflexivity.
        - destruct (combo_eqb k' c); simpl.
          + intros [<- | Hd]; [right; reflexivity | left; right; exact Hd].
          + intros [<- | Hd]; [left; left; reflexivity|].
            destruct (IHd Hd) as [Hd' | ->]; [left; right; exact Hd' | right; reflexivity]. }
      destruct (D cnt Hin) as [Hd | ->]; [left; exact Hd | right; cbn [length]; lia].
    + intros _. apply N. left. apply dict_set_nonempty.
Qed.

(** X12. Whenever [generate_constraints] returns, every listed attribute
    is a column and what it returns is the model with one Boolean variable
    per row, one count variable per enumerated subgroup, and as constraints:
    the selection size [k = int(n * coefficient)], for the [j]-th subgroup
    the equation of count variable [j] with the selected rows among the
    members of the subgroup, then minimum, maximum and the scaled fairness
    equation.  It does return for a frame with rows and a non-empty list of
    attributes that are all columns, when [k] is not negative and
    [1000000 * k] fits a signed 64-bit integer. *)
Theorem generate_constraints_closed_form (data : DataFrame) (config : Config) :
  let k := py_int (inject_Z (Z.of_nat (len data)) * coefficient config) in
  (forall cd, generate_constraints data config = Ok cd ->
     first_absent (columns data) (sensitive_attributes config) = None /\
     exists C cnt,
       all_combinations data (sensitive_attributes config) = Ok C /\
       cd = {| model := {| bool_vars := len data;
                           count_vars := length C;
                           upper := k;
                           constraints :=
                             SumEq k ::
                             map (fun jc => CountEq (fst jc) (members data (snd jc)))
                                 (combine (seq 0 (length C)) C)
                             ++ [MinEquality (dict_values cnt);
                                 MaxEquality (dict_values cnt);
                                 FairnessEq k] |};
               x := seq 0 (len data);
               count := cnt |} /\
       forall v, In v (dict_values cnt) -> v < length C) /\
  (first_absent (columns data) (sensitive_attributes config) = None ->
   sensitive_attributes config <> [] -> rows data <> [] ->
   (0 <= k)%Z -> (1000000 * k < 2 ^ 63)%Z ->
   exists cd, generate_constraints data config = Ok cd).
Proof.
  intro k.
  assert (P : first_absent (columns data) (sensitive_attributes config) = None ->
              exists C cnt,
                all_combinations data (sensitive_attributes config) = Ok C /\
                generate_constraints data config
                = Ok {| model := {| bool_vars := len data;
                                    count_vars := length C;
                                    upper := k;
                                    constraints :=
                                      SumEq k ::
                                      map (fun jc => CountEq (fst jc) (members data (snd jc)))
                                          (combine (seq 0 (length C)) C)
                                      ++ [MinEquality (dict_values cnt);
                                          MaxEquality (dict_values cnt);
                                          FairnessEq k] |};
                        x := seq 0 (len data);
                        count := cnt |} /\
                forall v, In v (dict_values cnt) -> v < length C).
  { intro F. destruct (all_combinations_present data _ F) as [C HC].
    destruct (@count_loop_present data C 0 [] [SumEq k]) as (cnt & E & V & _).
    { intros c Hc. eapply universe_columns; eassumption. }
    exists C, cnt. split; [exact HC|]. split.
    + unfold generate_constraints, _get_combinations. cbv zeta. rewrite HC. cbn [rbind].
      fold k. rewrite E. cbn [rbind fst snd]. rewrite <- app_assoc. reflexivity.
    + intros v Hv. destruct (V v Hv) as [[] | [_ Hr]]. exact Hr. }
  split.
  - intros cd G.
    destruct (first_absent (columns data) (sensitive_attributes config)) as [a|] eqn:F.
    + unfold generate_constraints, _get_combinations in G. cbv zeta in G.
      rewrite all_combinations_absent with (1 := F) in G. discriminate.
    + split; [reflexivity|]. destruct (P eq_refl) as (C & cnt & HC & E & V).
      exists C, cnt. split; [exact HC|]. split; [congruence | exact V].
  - intros F _ _ _ _. destruct (P F) as (C & cnt & _ & E & _). eexists. exact E.
Qed.

Lemma in_combine_seq {A} (l : list A) : forall j a j0,
  nth_error l j = Some a -> In (j0 + j, a) (combine (seq j0 (length l)) l).
Proof.
  induction l as [|b l IH]; intros j a j0 H; [destruct j; discriminate|].
  destruct j as [|j]; cbn [nth_error] in H.
  - injection H as <-. rewrite Nat.add_0_r. left. reflexivity.
  - right. replace (j0 + S j) with (S j0 + j) by lia. apply IH. exact H.
Qed.

Lemma filter_filter {A} (f g : A -> bool) (l : list A) :
  filter f (filter g l) = filter (fun a => g a && f a) l.
Proof.
  induction l as [|a l IH]; [reflexivity|]. simpl.
  destruct (g a); simpl; [destruct (f a); now rewrite IH | exact IH].
Qed.

(** X13. In every assignment that satisfies the generated model, exactly
    [int(n * coefficient)] rows are selected and the count variable of the
    [j]-th enumerated subgroup is the number of selected rows that have the
    subgroup. *)
Theorem satisfying_assignment_counts_selected_members
  (data : DataFrame) (config : Config) (cd : constraints_data) (a : CpOutcome) :
  generate_constraints data config = Ok cd ->
  satisfies (model cd) a = true ->
  Z.of_nat (length (filter (BooleanValue a) (seq 0 (len data))))
  = py_int (inject_Z (Z.of_nat (len data)) * coefficient config) /\
  exists C, all_combinations data (sensitive_attributes config) = Ok C /\
    forall j c, nth_error C j = Some c ->
      count_value a j
      = Z.of_nat (length (filter (fun i => BooleanValue a i &&
                                           matches data c (nth i (rows data) []))
                                 (seq 0 (len data)))).
Proof.
  intros G HS.
  destruct (generate_constraints_shape _ _ G) as (_ & Hb & Hsum).
  split.
  { pose proof (satisfies_holds _ _ _ HS Hsum) as Hh. simpl in Hh. rewrite Hb in Hh.
    apply Z.eqb_eq in Hh. exact Hh. }
  unfold generate_constraints, _get_combinations in G. cbv zeta in G.
  destruct (all_combinations data (sensitive_attributes config)) as [C | e |] eqn:HC;
    cbn [rbind] in G; try discriminate.
  exists C. split; [reflexivity|].
  destruct (@count_loop_present data C 0 []
              [SumEq (py_int (inject_Z (Z.of_nat (len data)) * coefficient config))])
    as (cnt & E & _ & _).
  { intros c Hc. eapply universe_columns; eassumption. }
  rewrite E in G. cbn [rbind fst snd] in G. injection G as <-.
  intros j c Hj.
  assert (Hin : In (CountEq j (members data c))
                   (constraints
                      (model {| model := {| bool_vars := len data;
                            count_vars := length C;
                            upper := py_int (inject_Z (Z.of_nat (len data)) * coefficient config);
                            constraints :=
                              ([SumEq (py_int (inject_Z (Z.of_nat (len data)) * coefficient config))]
                               ++ map (fun jc => CountEq (fst jc) (members data (snd jc)))
                                      (combine (seq 0 (length C)) C))
                              ++ [MinEquality (dict_values cnt);
                                  MaxEquality (dict_values cnt);
                                  FairnessEq (py_int (inject_Z (Z.of_nat (len data)) * coefficient config))] |};
                x := seq 0 (len data);
                count := cnt |}))).
  { cbn [model constraints]. apply in_or_app. left. apply in_or_app. right.
    apply in_map_iff. exists (j, c). split; [reflexivity|].
    apply (@in_combine_seq _ C j c 0 Hj). }
  pose proof (satisfies_holds _ _ _ HS Hin) as Hh. cbn [holds] in Hh.
  apply Z.eqb_eq in Hh. rewrite Hh. unfold members. rewrite filter_filter.
  do 2 f_equal. apply filter_ext. intro i. apply andb_comm.
Qed.

Lemma satisfying_assignment_counts_selected_members_witness :
  Z.of_nat (length (filter (BooleanValue (Samples.keep_0_2 (model (Samples.model_aab 2))))
                           (seq 0 (len Samples.aab))))
  = py_int (inject_Z (Z.of_nat (len Samples.aab)) * coefficient (Samples.on_group (2 # 3))) /\
  exists C, all_combinations Samples.aab (sensitive_attributes (Samples.on_group (2 # 3))) = Ok C /\
    forall j c, nth_error C j = Some c ->
      count_value (Samples.keep_0_2 (model (Samples.model_aab 2))) j
      = Z.of_nat (length (filter (fun i =>
                                    BooleanValue (Samples.keep_0_2 (model (Samples.model_aab 2))) i &&
                                    matches Samples.aab c (nth i (rows Samples.aab) []))
                                 (seq 0 (len Samples.aab)))).
Proof.
  apply (@satisfying_assignment_counts_selected_members Samples.aab (Samples.on_group (2 # 3))
           (Samples.model_aab 2)); reflexivity.
Defined.

(* ================================================================= *)
(** ** The reported scores *)

Lemma optimize_fairness_scores Solve data config st r st' :
  optimize_fairness Solve data config st = (Ok r, st') ->
  exists cd s1 sol s2,
    FairnessEvaluator.evaluate data (sensitive_attributes config) st
    = (Ok (initial_fairness r), s1) /\
    generate_constraints data config = Ok cd /\
    solve Solve cd (coefficient config) (initial_fairness r) s1 = (Ok sol, s2) /\
    fairness_score sol = Some (optimized_fairness_score r).
Proof.
  intro H. unfold optimize_fairness in H. inv_bind_as H a s Hm.
  destruct a as [[[init opt] adj] fin]. inv_ret H.
  cbn [FairnessOptimizer.initial_fairness FairnessOptimizer.optimized_fairness_score].
  unfold adjust_and_score in Hm.
  inv_bind_as Hm init0 s0 E0.
  inv_bind_as Hm cd0 s0' Hg. inv_lift Hg.
  inv_bind_as Hm sol s1 Hsolve.
  inv_bind_as Hm opt0 s2 Hopt.
  inv_bind_as Hm cal s3 Hcal.
  inv_bind_as Hm ra s4 Ha.
  inv_bind_as Hm fin0 s5 Ef.
  inv_ret Hm. injection Hm as -> -> -> ->.
  destruct (fairness_score sol) as [sc|] eqn:Es; [|discriminate].
  inv_ret Hopt.
  do 4 eexists. repeat split; eassumption.
Qed.

(** X14. On an evaluator with no universe cached for the attribute list, a
    run of [optimize_fairness] that returns reports an optimized score that
    is a number not below the initial score: either the constant 1 of the
    heuristic fallback, or the objective value of the solver over one
    million, which then lies strictly above the initial score. *)
Theorem optimized_score_is_never_below_initial_score
  (Solve : CpModel -> CpOutcome) (data : DataFrame) (config : Config)
  (st st' : State) (r : Outcome) :
  entry (sensitive_attributes config) st = None ->
  optimize_fairness Solve data config st = (Ok r, st') ->
  exists qi qo,
    initial_fairness r = Fl qi /\ optimized_fairness_score r = Fl qo /\
    (qi <= qo)%Q /\
    ((qo == 1)%Q \/
     ((qi < qo)%Q /\
      exists cd, generate_constraints data config = Ok cd /\
                 has_solution (status (Solve (model cd))) = true /\
                 qo = (inject_Z (fairness_value (Solve (model cd))) / 1000000)%Q)).
Proof.
  intros E H.
  destruct (optimize_fairness_scores _ _ _ _ H) as (cd & s1 & sol & s2 & E0 & G & HS & Sc).
  rewrite evaluate_miss with (1 := E) in E0.
  destruct (all_combinations data (sensitive_attributes config)) as [C | e |] eqn:HC;
    try discriminate.
  injection E0 as S0 _.
  assert (NC : C <> []).
  { intros ->. rewrite score_over_empty in S0. discriminate. }
  pose proof (score_over_range _ _ S0) as R.
  assert (Nr : rows data <> []).
  { intro Er. destruct (first_absent (columns data) (sensitive_attributes config)) eqn:F.
    - rewrite all_combinations_absent with (1 := F) in HC. discriminate.
    - rewrite all_combinations_no_rows with (1 := F) (2 := Er) in HC.
      injection HC as <-. apply NC. reflexivity. }
  destruct (rows data) as [|r0 rs] eqn:Er; [contradiction|].
  destruct R as (qi & Ei & Q0 & Q1).
  assert (Ncnt : count cd <> []).
  { unfold generate_constraints, _get_combinations in G. cbv zeta in G.
    rewrite HC in G. cbn [rbind] in G.
    destruct (@count_loop_present data C 0 []
                [SumEq (py_int (inject_Z (Z.of_nat (len data)) * coefficient config))])
      as (cnt & Ec & _ & N).
    { intros c Hc. eapply universe_columns; eassumption. }
    rewrite Ec in G. cbn [rbind fst snd] in G. injection G as <-.
    cbn [count]. apply N. right. exact NC. }
  assert (Fb : forall s, _generate_improved_solution (length (x cd)) (coefficient config) cd
                           (initial_fairness r) s1 = (Ok s, s2) ->
               exists qo, fairness_score s = Some (Fl qo) /\ (qo == 1)%Q).
  { intros s Hs. destruct (improved_solution_run _ _ _ _ _ Ncnt Hs) as (_ & _ & _ & Hf).
    eexists. split; [exact Hf|]. unfold Qdiv. rewrite Qmult_0_l. reflexivity. }
  exists qi. unfold solve in HS. cbv zeta in HS.
  destruct (has_solution (status (Solve (model cd)))) eqn:Hh.
  - destruct (fle _ (initial_fairness r)) eqn:Hle.
    + destruct (Fb _ HS) as (qo & Hq & H1). rewrite Sc in Hq. injection Hq as Hq.
      exists qo. split; [exact Ei|]. split; [exact Hq|]. split; [lra | left; exact H1].
    + inv_ret HS. cbn [fairness_score] in Sc. injection Sc as Sc.
      rewrite Ei in Hle. cbn [fle] in Hle.
      assert (Hlt : (qi < inject_Z (fairness_value (Solve (model cd))) / 1000000)%Q).
      { apply Qnot_le_lt. intro L. apply Qle_bool_iff in L. congruence. }
      eexists. split; [exact Ei|]. split; [symmetry; exact Sc|]. split; [lra|].
      right. split; [exact Hlt|]. exists cd. repeat split; assumption || reflexivity.
  - destruct (Fb _ HS) as (qo & Hq & H1). rewrite Sc in Hq. injection Hq as Hq.
    exists qo. split; [exact Ei|]. split; [exact Hq|]. split; [lra | left; exact H1].
Qed.

Lemma optimized_score_is_never_below_initial_score_witness :
  exists qi qo,
    initial_fairness Samples.reverted = Fl qi /\
    optimized_fairness_score Samples.reverted = Fl qo /\
    (qi <= qo)%Q /\
    ((qo == 1)%Q \/
     ((qi < qo)%Q /\
      exists cd, generate_constraints Samples.aab (Samples.on_group (2 # 3)) = Ok cd /\
                 has_solution (status (Samples.gives_up (model cd))) = true /\
                 qo = (inject_Z (fairness_value (Samples.gives_up (model cd))) / 1000000)%Q)).
Proof.
  apply (@optimized_score_is_never_below_initial_score Samples.gives_up Samples.aab
           (Samples.on_group (2 # 3)) Samples.st_id
           (snd (optimize_fairness Samples.gives_up Samples.aab (Samples.on_group (2 # 3))
                                   Samples.st_id))).
  - reflexivity.
  - vm_compute. reflexivity.
Defined.

(* ================================================================= *)
(** ** The generator's copy of the score *)

Lemma calculate_initial_fairness_unfold data attrs :
  _calculate_initial_fairness data attrs
  = rbind (all_combinations data attrs) (score_over data).
Proof. reflexivity. Qed.

(** X15. [ConstraintGenerator._calculate_initial_fairness] returns, or
    raises, exactly what the first call of [FairnessEvaluator.evaluate] does
    for the same frame and attribute list on an evaluator that has no
    universe cached for the list; on a later call the evaluator scores over
    the cached universe [C] instead. *)
Theorem generator_score_is_the_uncached_evaluation
  (data : DataFrame) (attrs : list string) (st : State) :
  match entry attrs st with
  | None =>
      fst (FairnessEvaluator.evaluate data attrs st) = _calculate_initial_fairness data attrs
  | Some C =>
      fst (FairnessEvaluator.evaluate data attrs st) = score_over data C /\
      forall C', all_combinations data attrs = Ok C' ->
                 _calculate_initial_fairness data attrs = score_over data C'
  end.
Proof.
  destruct (entry attrs st) as [C|] eqn:E.
  - rewrite evaluate_hit with (1 := E). split; [reflexivity|].
    intros C' HC. rewrite calculate_initial_fairness_unfold, HC. reflexivity.
  - rewrite evaluate_miss with (1 := E), calculate_initial_fairness_unfold.
    destruct (all_combinations data attrs) as [C | e |]; reflexivity.
Qed.

(* ================================================================= *)
(** ** The random solution *)

Lemma random_sample_range_total (n : nat) (k : Z) st :
  (0 <= k <= Z.of_nat n)%Z ->
  exists l st', random_sample_range n k st = (Ok l, st') /\
                combinations_cache st' = combinations_cache st.
Proof.
  intro H. unfold random_sample_range.
  replace ((k <? 0) || (Z.of_nat n <? k))%Z with false
    by (symmetry; apply orb_false_iff; split; apply Z.ltb_ge; lia).
  destruct (sample_pool (seq 0 n) (Z.to_nat k) (py_random st)) as [l t].
  exists l. eexists. split; [reflexivity | reflexivity].
Qed.

(** X16. [_generate_random_solution] raises ValueError when
    [int(data_size * coefficient)] is negative or exceeds [data_size];
    otherwise it returns that many distinct row positions with the score
    0.6, and when the model has no count variable the capped fallback
    [_generate_improved_solution] returns the very same solution. *)
Theorem random_solution_is_a_sample_or_a_value_error
  (data_size : nat) (coefficient : Q) (cd : constraints_data) (init : pyfloat) (st : State) :
  let k := py_int (inject_Z (Z.of_nat data_size) * coefficient) in
  if ((k <? 0) || (Z.of_nat data_size <? k))%Z
  then _generate_random_solution data_size coefficient st = (Raise ValueError, st)
  else exists sol st',
      _generate_random_solution data_size coefficient st = (Ok sol, st') /\
      valid_selection data_size (Z.to_nat k) (selected_indices sol) /\
      fairness_score sol = Some (Fl (6 # 10)) /\
      combinations_cache st' = combinations_cache st /\
      (count cd = [] ->
       _generate_improved_solution data_size coefficient cd init st = (Ok sol, st')).
Proof.
  intro k.
  destruct ((k <? 0) || (Z.of_nat data_size <? k))%Z eqn:B.
  - unfold _generate_random_solution, bind. cbv zeta. fold k.
    unfold random_sample_range. rewrite B. reflexivity.
  - apply orb_false_iff in B. destruct B as [B1 B2].
    apply Z.ltb_ge in B1. apply Z.ltb_ge in B2.
    destruct (@random_sample_range_total data_size k st) as (l & st' & Hs & Hc); [lia|].
    exists {| selected_indices := l; fairness_score := Some (Fl (6 # 10)) |}, st'.
    split; [|split; [|split; [|split]]].
    + unfold _generate_random_solution, bind. cbv zeta. fold k. rewrite Hs. reflexivity.
    + cbn [selected_indices]. apply (random_sample_range_valid _ _ _ Hs).
    + reflexivity.
    + exact Hc.
    + intro Ec. unfold _generate_improved_solution, bind. cbv zeta. fold k.
      rewrite Z.min_l by lia. rewrite Hs, Ec. reflexivity.
Qed.

(* ================================================================= *)
(** ** The solution callback *)

Lemma after_some x : forall incumbents sel f (seen : list CpOutcome),
  (exists pre a post,
      seen = pre ++ a :: post /\
      sel = filter (fun i => BooleanValue a (nth i x O)) (seq 0 (length x)) /\
      f = fairness_value a /\
      Forall (fun b => (fairness_value b < f)%Z) pre /\
      Forall (fun b => (fairness_value b <= f)%Z) post) ->
  exists sel' f' pre a post,
    SolutionPrinter.after x incumbents (Some (sel, f)) = Some (sel', f') /\
    seen ++ incumbents = pre ++ a :: post /\
    sel' = filter (fun i => BooleanValue a (nth i x O)) (seq 0 (length x)) /\
    f' = fairness_value a /\
    Forall (fun b => (fairness_value b < f')%Z) pre /\
    Forall (fun b => (fairness_value b <= f')%Z) post.
Proof.
  induction incumbents as [|b l IH]; intros sel f seen (pre & a & post & Es & Hsel & Hf & Hpre & Hpost).
  - exists sel, f, pre, a, post. rewrite app_nil_r. repeat split; assumption.
  - unfold SolutionPrinter.after. cbn [fold_left].
    unfold SolutionPrinter.OnSolutionCallback at 2. cbv zeta. cbn [snd].
    destruct (f <? fairness_value b)%Z eqn:Hlt.
    + apply Z.ltb_lt in Hlt.
      destruct (IH (filter (fun i => BooleanValue b (nth i x O)) (seq 0 (length x)))
                   (fairness_value b) (seen ++ [b])) as (sel' & f' & pre' & a' & post' & H).
      { exists seen, b, []. repeat split; try reflexivity; [|constructor].
        rewrite Es. apply Forall_app. split.
        - eapply Forall_impl; [|exact Hpre]. intros c Hc. simpl in Hc. lia.
        - constructor; [lia|]. eapply Forall_impl; [|exact Hpost]. intros c Hc.
          simpl in Hc. lia. }
      exists sel', f', pre', a', post'. rewrite <- app_assoc in H. exact H.
    + apply Z.ltb_ge in Hlt.
      destruct (IH sel f (seen ++ [b])) as (sel' & f' & pre' & a' & post' & H).
      { exists pre, a, (post ++ [b]). repeat split; try assumption.
        - rewrite Es, <- app_assoc. reflexivity.
        - apply Forall_app. split; [exact Hpost|]. constructor; [lia | constructor]. }
      exists sel', f', pre', a', post'. rewrite <- app_assoc in H. exact H.
Qed.

(** X17. After the solver has reported its incumbents to the callback,
    [best_solution] is [None] only if there was none; otherwise it holds the
    selected positions and the objective value of the first incumbent whose
    objective value no other incumbent exceeds. *)
Theorem callback_keeps_the_first_best_incumbent
  (x : list nat) (incumbents : list CpOutcome) :
  match SolutionPrinter.after x incumbents SolutionPrinter.init with
  | None => incumbents = []
  | Some (sel, f) =>
      exists pre a post,
        incumbents = pre ++ a :: post /\
        sel = filter (fun i => BooleanValue a (nth i x O)) (seq 0 (length x)) /\
        f = fairness_value a /\
        Forall (fun b => (fairness_value b < f)%Z) pre /\
        Forall (fun b => (fairness_value b <= f)%Z) post
  end.
Proof.
  destruct incumbents as [|a l]; [reflexivity|].
  unfold SolutionPrinter.after, SolutionPrinter.init. cbn [fold_left].
  unfold SolutionPrinter.OnSolutionCallback at 2. cbv zeta.
  destruct (@after_some x l (filter (fun i => BooleanValue a (nth i x O)) (seq 0 (length x)))
              (fairness_value a) [a])
    as (sel' & f' & pre & a' & post & E & Hs & H).
  { exists [], a, []. repeat split; constructor. }
  unfold SolutionPrinter.after in E. rewrite E.
  exists pre, a', post. split; [exact Hs | exact H].
Qed.

(* ================================================================= *)
(** ** Marking the sensitive columns *)

Lemma col_index_names a (cols cols' : list (string * dtype)) :
  map fst cols = map fst cols' -> col_index a cols = col_index a cols'.
Proof.
  revert cols'. induction cols as [|[c d] cols IH]; intros [|[c' d'] cols'] H;
    try discriminate; [reflexivity|].
  simpl in H. injection H as -> H. simpl. rewrite (IH _ H). reflexivity.
Qed.

Lemma col_index_name_in a cols i :
  col_index a cols = Some i -> name_in a (map fst cols) = true.
Proof.
  revert i. induction cols as [|[c d] cols IH]; intros i H; [discriminate|].
  simpl in H. unfold name_in. cbn [map fst existsb].
  destruct (String.eqb c a) eqn:E.
  - apply String.eqb_eq in E. subst. rewrite String.eqb_refl. reflexivity.
  - destruct (col_index a cols) as [j|] eqn:Ej; [|discriminate].
    unfold name_in in IH. rewrite (IH j eq_refl). apply orb_true_r.
Qed.

Lemma name_in_col_index a cols :
  name_in a (map fst cols) = true -> exists i, col_index a cols = Some i.
Proof.
  induction cols as [|[c d] cols IH]; unfold name_in; cbn [map fst existsb]; [discriminate|].
  intro H. simpl. destruct (String.eqb c a) eqn:E; [exists 0; reflexivity|].
  rewrite String.eqb_sym, E in H. cbn [orb] in H.
  destruct (IH H) as [i Hi]. rewrite Hi. exists (S i). reflexivity.
Qed.

Lemma row_setitem_length data r column v :
  length r = length (columns data) -> length (row_setitem data r column v) = length r.
Proof.
  intro L. unfold row_setitem.
  destruct (col_index column (columns data)) as [i|] eqn:E; [|reflexivity].
  apply length_replace_at. rewrite L. eapply col_index_lt. exact E.
Qed.

Lemma setitem_scalar_names d a v :
  map fst (columns (DataLoader.setitem_scalar d a v)) = map fst (columns d).
Proof.
  unfold DataLoader.setitem_scalar. cbn [columns]. rewrite map_map.
  apply map_ext. intros [c t]. cbn [fst]. destruct (String.eqb c a); reflexivity.
Qed.

Lemma name_in_snoc a l b : name_in a (l ++ [b]) = name_in a l || String.eqb a b.
Proof. unfold name_in. rewrite existsb_app. cbn [existsb]. rewrite orb_false_r. reflexivity. Qed.

Lemma nth_map_in {A B} (f : A -> B) (l : list A) : forall k d d',
  k < length l -> nth k (map f l) d' = f (nth k l d).
Proof.
  induction l as [|a l IH]; intros k d d' H; [simpl in H; lia|].
  destruct k as [|k]; [reflexivity|]. simpl. apply IH. simpl in H. lia.
Qed.

(** What the loop of [identify_sensitive_attributes] maintains. *)
Lemma identify_inv data (attrs : list string) :
  aligned data ->
  let d := DataLoader.identify_sensitive_attributes data attrs in
  map fst (columns d) = map fst (columns data) /\
  len d = len data /\
  aligned d /\
  forall a i k, col_index a (columns data) = Some i -> k < len data ->
    cell i (nth k (rows d) []) =
    if name_in a attrs then marker a else cell i (nth k (rows data) []).
Proof.
  intro A. induction attrs as [|b l IH] using rev_ind.
  - cbn. repeat split; try reflexivity; exact A.
  - cbv zeta in *. destruct IH as (Hn & Hl & Ha & Hc).
    unfold DataLoader.identify_sensitive_attributes in *. rewrite fold_left_app.
    cbn [fold_left].
    set (d := fold_left _ l data) in *.
    destruct (name_in b (map fst (columns data))) eqn:Eb; cbn [negb].
    + destruct (name_in_col_index _ _ Eb) as [j Hj].
      assert (Hjd : col_index b (columns d) = Some j)
        by (rewrite (@col_index_names b _ _ Hn); exact Hj).
      split; [rewrite setitem_scalar_names; exact Hn|].
      split; [unfold len, DataLoader.setitem_scalar; cbn [rows]; rewrite length_map; exact Hl|].
      split.
      * unfold aligned, DataLoader.setitem_scalar. cbn [rows columns].
        rewrite Forall_map. eapply Forall_impl; [|exact Ha]. intros r Hr. cbv beta in *.
        rewrite row_setitem_length by exact Hr. rewrite length_map. exact Hr.
      * intros a i k Hi Hk. unfold DataLoader.setitem_scalar. cbn [rows].
        assert (Hkd : k < length (rows d)) by (unfold len in Hl; rewrite Hl; exact Hk).
        rewrite nth_map_in with (d := []) by exact Hkd.
        assert (Lr : length (nth k (rows d) []) = length (columns d)).
        { unfold aligned in Ha. rewrite Forall_forall in Ha. apply Ha. apply nth_In. exact Hkd. }
        rewrite name_in_snoc. destruct (String.eqb a b) eqn:Eab.
        -- apply String.eqb_eq in Eab. subst b. rewrite orb_true_r.
           assert (i = j) by congruence. subst j.
           apply row_setitem_at; assumption.
        -- rewrite orb_false_r. rewrite row_setitem_elsewhere.
           ++ apply Hc; assumption.
           ++ exact Lr.
           ++ intro Hbi. rewrite (@col_index_names b _ _ Hn) in Hbi.
              pose proof (col_index_inj _ _ _ Hi Hbi) as ->.
              rewrite String.eqb_refl in Eab. discriminate.
    + split; [exact Hn|]. split; [exact Hl|]. split; [exact Ha|].
      intros a i k Hi Hk. rewrite name_in_snoc.
      destruct (String.eqb a b) eqn:Eab.
      * apply String.eqb_eq in Eab. subst b.
        rewrite (col_index_name_in _ _ Hi) in Eb. discriminate.
      * rewrite orb_false_r. apply Hc; assumption.
Qed.

Lemma map_cell_ext (i : nat) (rs rs' : list (list value)) (g : list value -> value) :
  length rs' = length rs ->
  (forall k, k < length rs -> cell i (nth k rs' []) = g (nth k rs [])) ->
  map (cell i) rs' = map g rs.
Proof.
  revert rs'. induction rs as [|r rs IH]; intros [|r' rs'] L H; try discriminate;
    [reflexivity|].
  cbn [map]. f_equal.
  - apply (H 0). simpl. lia.
  - apply IH; [simpl in L; lia|]. intros k Hk. apply (H (S k)). simpl. lia.
Qed.

(** X18. On a frame whose rows have one cell per column,
    [identify_sensitive_attributes] keeps the column names and the number of
    rows; afterwards the column of every listed attribute reads as the
    constant ["sensitive_<attribute>"], every other column reads as before,
    and a name that was not a column still is not one. *)
Theorem identify_overwrites_exactly_the_listed_columns
  (data : DataFrame) (attrs : list string) (a : string) :
  aligned data ->
  let d := DataLoader.identify_sensitive_attributes data attrs in
  map fst (columns d) = map fst (columns data) /\
  len d = len data /\
  getitem d a =
  match getitem data a with
  | Ok col => Ok (if name_in a attrs then map (fun _ => marker a) col else col)
  | other => other
  end.
Proof.
  intros A d. destruct (identify_inv attrs A) as (Hn & Hl & _ & Hc). fold d in Hn, Hl, Hc.
  split; [exact Hn|]. split; [exact Hl|].
  unfold getitem. rewrite (@col_index_names a _ _ Hn).
  destruct (col_index a (columns data)) as [i|] eqn:Ei; [|reflexivity].
  f_equal. destruct (name_in a attrs) eqn:Ea.
  - rewrite map_map. apply map_cell_ext; [exact Hl|].
    intros k Hk. specialize (Hc a i k Ei Hk). rewrite Ea in Hc. exact Hc.
  - apply map_cell_ext; [exact Hl|].
    intros k Hk. specialize (Hc a i k Ei Hk). rewrite Ea in Hc. exact Hc.
Qed.

Lemma identify_overwrites_exactly_the_listed_columns_witness :
  let d := DataLoader.identify_sensitive_attributes Samples.gender_race ["race"; "age"]%string in
  map fst (columns d) = map fst (columns Samples.gender_race) /\
  len d = len Samples.gender_race /\
  getitem d "race"%string =
  match getitem Samples.gender_race "race"%string with
  | Ok col => Ok (if name_in "race"%string ["race"; "age"]%string
                  then map (fun _ => marker "race"%string) col else col)
  | other => other
  end.
Proof.
  apply (@identify_overwrites_exactly_the_listed_columns
           Samples.gender_race ["race"; "age"]%string "race"%string).
  repeat constructor.
Defined.

Lemma filter_all {A} (g : A -> bool) (l : list A) :
  (forall a, In a l -> g a = true) -> filter g l = l.
Proof.
  induction l as [|a l IH]; intro H; [reflexivity|]. simpl.
  rewrite (H a (or_introl eq_refl)). f_equal. apply IH. intros b Hb. apply H. right. exact Hb.
Qed.

(** Every support is the share of the rows that have some subgroup of the
    universe. *)
Lemma calculate_supports_members data C s :
  FairnessEvaluator._calculate_supports data C = Ok s ->
  Forall (fun v => exists c, In c C /\
                     v = np_truediv (length (filter (matches data c) (rows data))) (len data))
         (dict_values s).
Proof.
  unfold FairnessEvaluator._calculate_supports. cbv zeta.
  set (P := fun C v => exists c, In c C /\
                 v = np_truediv (length (filter (matches data c) (rows data))) (len data)).
  assert (G : forall C2 C1 acc s,
             match acc with Ok d => Forall (P (C1 ++ C2)) (dict_values d) | _ => True end ->
             fold_left (fun acc c =>
               rbind acc (fun supports =>
               rbind (FairnessEvaluator.combo_mask data c) (fun mask =>
               Ok (dict_set combo_eqb c
                     (np_truediv (FairnessEvaluator.mask_sum mask) (len data)) supports))))
               C2 acc = Ok s ->
             Forall (P (C1 ++ C2)) (dict_values s)).
  { clear C s. induction C2 as [|c C2 IH]; intros C1 acc s Hacc H; simpl in H.
    - subst acc. exact Hacc.
    - replace (C1 ++ c :: C2) with ((C1 ++ [c]) ++ C2) in * by (rewrite <- app_assoc; reflexivity).
      eapply IH; [|exact H]. destruct acc as [d | e |]; simpl; try exact I.
      rewrite combo_mask_spec. destruct (first_absent _ _); simpl; [exact I|].
      apply dict_set_values; [|exact Hacc].
      exists c. split; [apply in_or_app; left; apply in_or_app; right; left; reflexivity|].
      rewrite mask_sum_map. reflexivity. }
  intro H. apply (G C [] (Ok []) s); [constructor | exact H].
Qed.

(** X19. After [identify_sensitive_attributes] has marked the listed
    attributes, all of them columns of a frame with at least one row, the
    first evaluation of the marked frame for the same list returns the
    perfect score 1: every listed column is constant, so every subgroup
    holds every row. *)
Theorem marked_frame_scores_one
  (data : DataFrame) (attrs : list string) (st : State) :
  aligned data ->
  first_absent (columns data) attrs = None -> attrs <> [] -> rows data <> [] ->
  entry attrs st = None ->
  exists q st',
    FairnessEvaluator.evaluate (DataLoader.identify_sensitive_attributes data attrs) attrs st
    = (Ok (Fl q), st') /\ (q == 1)%Q.
Proof.
  intros A F Na Nr E.
  destruct (identify_inv attrs A) as (Hn & Hl & _ & Hc).
  set (d := DataLoader.identify_sensitive_attributes data attrs) in *.
  assert (Fd : first_absent (columns d) attrs = None).
  { apply first_absent_None_intro. intros a Ha.
    destruct (first_absent_None _ _ F a Ha) as [i Hi].
    rewrite (@col_index_names a _ _ Hn), Hi. discriminate. }
  assert (Nrd : rows d <> []).
  { intro Er. unfold len in Hl. rewrite Er in Hl. destruct (rows data); [contradiction|].
    discriminate. }
  destruct (all_combinations_present d attrs Fd) as [C HC].
  pose proof (@all_combinations_nonempty _ _ _ HC Na Nrd) as NC.
  assert (Hm : forall c r, In c C -> In r (rows d) -> matches d c r = true).
  { intros c r Hc0 Hr. destruct (universe_pairs _ _ HC c Hc0) as [_ P].
    unfold matches. apply forallb_forall. intros p Hp.
    destruct (P p Hp) as [Hin (col & G & Hv)].
    unfold getitem in G. destruct (col_index (fst p) (columns d)) as [i|] eqn:Ei;
      [|discriminate].
    injection G as <-.
    assert (Hid : col_index (fst p) (columns data) = Some i)
      by (rewrite <- (@col_index_names (fst p) _ _ Hn); exact Ei).
    assert (Hin' : name_in (fst p) attrs = true).
    { unfold name_in. apply existsb_exists. exists (fst p). split; [exact Hin|].
      apply String.eqb_refl. }
    assert (Mk : forall r', In r' (rows d) -> cell i r' = marker (fst p)).
    { intros r' Hr'. destruct (In_nth _ _ [] Hr') as (k & Hk & <-).
      unfold len in Hl. rewrite Hl in Hk. specialize (Hc (fst p) i k Hid Hk).
      rewrite Hin' in Hc. exact Hc. }
    apply in_map_iff in Hv. destruct Hv as (r' & <- & Hr').
    rewrite (Mk r Hr), (Mk r' Hr'). unfold marker. cbn [value_eqb].
    apply String.eqb_refl. }
  destruct (@score_over_Ok d C) as [f Hf].
  { intros c Hc0. eapply universe_columns; eassumption. }
  { exact NC. }
  assert (Hq : exists q, f = Fl q /\ (q == 1)%Q).
  { unfold score_over in Hf.
    destruct (FairnessEvaluator._calculate_supports d C) as [s | e |] eqn:Es;
      cbn [rbind] in Hf; try discriminate.
    destruct (py_max (dict_values s)) as [mx | e |] eqn:Emx; cbn [rbind] in Hf;
      try discriminate.
    destruct (py_min (dict_values s)) as [mn | e |] eqn:Emn; cbn [rbind] in Hf;
      try discriminate.
    injection Hf as <-.
    pose proof (calculate_supports_members _ _ Es) as V. rewrite Forall_forall in V.
    assert (One : forall v, In v (dict_values s) -> v = np_truediv (len d) (len d)).
    { intros v Hv. destruct (V v Hv) as (c & Hc0 & ->).
      rewrite filter_all by (intros r Hr; apply Hm; assumption). reflexivity. }
    rewrite (One _ (py_max_In _ Emx)), (One _ (py_min_In _ Emn)).
    unfold len. destruct (rows d) as [|r0 rs]; [contradiction|].
    cbn [length np_truediv fsub]. eexists. split; [reflexivity|]. ring. }
  destruct Hq as (q & -> & Hq1).
  exists q. eexists. split; [|exact Hq1].
  rewrite evaluate_miss with (1 := E). rewrite HC, Hf. reflexivity.
Qed.

Lemma marked_frame_scores_one_witness :
  exists q st',
    FairnessEvaluator.evaluate
      (DataLoader.identify_sensitive_attributes Samples.gender_race ["gender"; "race"]%string)
      ["gender"; "race"]%string Samples.st0
    = (Ok (Fl q), st') /\ (q == 1)%Q.
Proof.
  apply (@marked_frame_scores_one Samples.gender_race ["gender"; "race"]%string Samples.st0).
  - repeat constructor.
  - reflexivity.
  - discriminate.
  - discriminate.
  - reflexivity.
Defined.

(* ================================================================= *)
(** ** Undersampling keeps [int(n * coefficient)] rows *)






